(** * Bookshelf.js 0.1.0: relation descriptors, eager loading, the query
      dispatcher, fetching, saving and the pivot helpers, as a shallow
      embedding.

    The embedding follows [src/bookshelf.js].  Plain JavaScript objects used
    as string-keyed maps (attribute hashes, rows, the [relations] map,
    [subRelated]) are finite maps; [handled], which the code enumerates, is
    an association list in insertion order.  The names of the methods that
    a class table gives an entity type are taken to be ordinary method
    names: not array indices, which an engine enumerates first, and not
    names that an entity or a plain object holds already.  Those are the
    [reserved] names; the resolver leaves the embedded fragment when it is
    asked for one.

    Promises are run to completion in registration order, so a run is a
    function; a thrown exception and a rejected promise are both a failed
    [Result].  The query builder (Knex), Backbone and Inflection are
    external: a query is the log of the builder calls made on it, the store
    is an oracle from select queries to rows, and the user-defined parts of
    an entity type (its table, its relation methods, [parse], [format]) are
    given by a class table.  Of Backbone, [set] and [clear] are written out
    and [reset], which also the constructor of a collection runs, is a
    parameter; events are not represented.  The clock and the [insertId] of
    a response are parameters of [save]. *)

From Stdlib Require Import ZArith Ascii.
From stdpp Require Import base option list strings gmap fin_maps.

(** ** JavaScript values held in attributes and rows *)

Inductive value :=
| VUndef
| VNull
| VBool (b : bool)
| VNum (n : Z)
| VStr (s : string).

#[global] Instance value_eq_dec : EqDecision value.
Proof. solve_decision. Defined.

(** [ToBoolean]: what [if (v)], [v ? a : b] and [v || w] test. *)
Definition truthy (v : value) : bool :=
  match v with
  | VUndef | VNull => false
  | VBool b => b
  | VNum n => negb (Z.eqb n 0)
  | VStr s => negb (String.eqb s "")
  end.

(** [v != null] (loose inequality): only [undefined] and [null] fail it. *)
Definition not_nullish (v : value) : bool :=
  match v with
  | VUndef | VNull => false
  | _ => true
  end.

(** A row, an attribute hash, a [where] hash. *)
Abbreviation Row := (gmap string value).

(** [obj[key]]: a missing property reads as [undefined]. *)
Definition prop (obj : Row) (key : string) : value := default VUndef (obj !! key).

(** [_.pluck(list, key)] *)
Definition pluck (rows : list Row) (key : string) : list value :=
  map (fun r => prop r key) rows.

(** [_.extend(dst, src)]: every property of [src] is written over [dst]. *)
Definition extend (dst src : Row) : Row := src ∪ dst.

(** [a || b] on an optional string argument: [undefined] and [''] are falsy. *)
Definition or_default (a : option string) (b : string) : string :=
  match a with
  | Some s => if String.eqb s "" then b else s
  | None => b
  end.

(** ** Failures *)

Inductive RelType := HasOne | HasMany | BelongsTo | BelongsToMany.

#[global] Instance RelType_eq_dec : EqDecision RelType.
Proof. solve_decision. Defined.

Inductive Error :=
| TypeError
    (* raised by the runtime: a call of, or a property access on, undefined *)
| RelationTypeMismatch (type : RelType)
    (* Error('The `' + type + '` related object must be a Bookshelf.Model') *)
| UnknownRelation (name : string)
    (* Error(name + ' is not defined on the model.') *)
| EmptyResponse
    (* Q.reject('EmptyResponse') *)
| DestroyWithoutConstraint
    (* Q.reject('A model cannot be destroyed without a where clause or an
       idAttribute.') *)
| Unmodelled
    (* the run leaves the embedded fragment (see [construct], [invoke]) *)
| OutOfFuel.

Inductive Result (A : Type) :=
| Ok (a : A)
| Fail (e : Error).
Arguments Ok {A} a.
Arguments Fail {A} e.

#[global] Instance Result_bind : MBind Result := fun A B k r =>
  match r with
  | Ok a => k a
  | Fail e => Fail e
  end.

#[global] Instance Result_ret : MRet Result := fun A a => Ok a.

#[global] Instance Result_fmap : FMap Result := fun A B f r =>
  match r with
  | Ok a => Ok (f a)
  | Fail e => Fail e
  end.

(** ** The query builder collaborator *)

(** The query builder (Knex) is external.  A builder is the table it was
    created for and the calls the code made on it, in order. *)
Inductive Call :=
| CWhere (col op : string) (v : value)       (* where(col, op, v) *)
| CWhereEq (col : string) (v : value)        (* where(col, v) *)
| CWhereHash (h : option Row)                (* where(hash); None: where(undefined) *)
| CWhereIn (col : string) (vs : list value)  (* whereIn(col, vs) *)
| CJoin (table left op right : string)       (* join(table, left, op, right) *)
| CColumn (col : string)                     (* column(col) *)
| CLimit (n : nat)
| CTransacting (t : string)
| CIdAttribute (a : string).

Record Query := mkQuery {
  q_table : string;
  q_calls : list Call
}.

(** [Knex(table)] *)
Definition builder (table : string) : Query := mkQuery table [].

Definition call (c : Call) (q : Query) : Query :=
  mkQuery (q_table q) (q_calls q ++ [c]).

(** [query.where(hash)] as [Sync.del] calls it.  The builder is external:
    called with [undefined] for the hash it records a predicate without a
    column, and fails with a [TypeError] when the query is compiled, before
    anything is sent. *)
Definition where_hash (h : option Row) (q : Query) : Result Query :=
  match h with
  | Some h => Ok (call (CWhereHash (Some h)) q)
  | None => Fail TypeError
  end.

(** Modelled from the spec: the builder's introspection of the
    where-predicates applied so far (section 6), which the builder, not this
    repository, implements.  This is the number of predicates a call adds
    to [wheres]: a hash adds one per key, an absent hash adds none. *)
Definition predicates (c : Call) : nat :=
  match c with
  | CWhere _ _ _ | CWhereEq _ _ | CWhereIn _ _ => 1
  | CWhereHash (Some h) => size h
  | _ => 0
  end.

(** [query.wheres.length] *)
Definition wheres_length (q : Query) : nat :=
  foldr (fun c n => (predicates c + n)) 0 (q_calls q).

(** [builder.columns] *)
Definition builder_columns (q : Query) : list string :=
  omap (fun c => match c with CColumn col => Some col | _ => None end) (q_calls q).

(** A query sent to the store. *)
Inductive Issued :=
| Select (q : Query) (columns : option (list string))
| Insert (q : Query) (data : Row)
| Update (q : Query) (data : Row)
| Delete (q : Query).

(** ** Entity types, relation descriptors, entities *)

(** A constructor passed as a relation [Target]: made by [Model.extend], or a
    [Collection] constructor whose [model] is the named class. *)
Inductive Ctor :=
| ModelCtor (c : string)
| CollectionCtor (c : string).

#[global] Instance Ctor_eq_dec : EqDecision Ctor.
Proof. solve_decision. Defined.

(** A method of an entity type that is looked up by relation name.  The four
    relation accessors are the calls [this.hasOne(Target, foreignKey)] and so
    on; [AccNothing] is any other method, taken to send no query and to
    return [undefined]. *)
Inductive Accessor :=
| AccHasOne (Target : Ctor) (foreignKey : option string)
| AccHasMany (Target : Ctor) (foreignKey : option string)
| AccBelongsTo (Target : Ctor) (otherKey : option string)
| AccBelongsToMany (Target : Ctor) (joinTableName foreignKey otherKey : option string)
| AccNothing.

Record ModelClass := mkClass {
  tableName : string;
  idAttribute : string;
  parse : Row -> Row;
  format : Row -> Row;
  methods : gmap string Accessor
}.

(** The [_relation] hash carried by a relation target. *)
Record Relation := mkRelation {
  type : RelType;
  foreignKey : string;
  otherKey : option string;
  joinTableName : option string;
  pivotColumns : option (list string);
  columns : option (list string);
  fkValue : value;
  parentIdAttr : option string;
  modelCtor : option Ctor;
  collectionCtor : option Ctor;
  parentResponse : option (list Row)
}.

(** An entity: its class, its attributes and its [relations] map.  A related
    value is whatever the resolver stores under a relation name. *)
Inductive Model :=
| mkModel (cls : string) (attrs : Row) (rels : gmap string Related)
with Related :=
| RUndefined
| RModel (m : Model)
| RCollection (ctor : Ctor) (models : list Model).

Definition m_class (m : Model) : string := let 'mkModel c _ _ := m in c.
Definition attributes (m : Model) : Row := let 'mkModel _ a _ := m in a.
Definition relations (m : Model) : gmap string Related := let 'mkModel _ _ r := m in r.

(** [model.get(key)] *)
Definition get (m : Model) (key : string) : value := prop (attributes m) key.

(** [m.relations[name] = r] *)
Definition set_relation (name : string) (r : Related) (m : Model) : Model :=
  mkModel (m_class m) (attributes m) (<[name := r]> (relations m)).

(** A live object: a [Model] or [Collection] instance, possibly the target
    of a relation.  [ctor] says which it is; [models] are a collection's
    members (or the entities an eager fetch stored on the target). *)
Record Instance := mkInstance {
  ctor : Ctor;
  inst_attributes : Row;
  inst_relations : gmap string Related;
  models : list Model;
  _relation : option Relation;
  _builder : option Query;
  pivotHelpers : bool
}.

(** The options hash of a call. *)
Inductive WithRelated :=
| WRArray (l : list string)
| WRString (s : string).

Record Options := mkOptions {
  transacting : option string;
  withRelated : option WithRelated;
  partial : bool;
  require : bool
}.

(** The string a possibly undefined key becomes when it is concatenated or
    used as a property name. *)
Definition key (k : option string) : string := default "undefined" k.

(** ** Pivot helpers, mixed into the target of a belongsToMany relation *)

Module Pivot.

(** One element of [ids]: a bare value, a hash of attributes, or a model. *)
Inductive Item :=
| ItemValue (v : value)
| ItemHash (h : Row)
| ItemModel (m : Model).

Inductive Ids :=
| IdsOne (i : Item)
| IdsArray (l : list Item).

(** [ids == void 0] *)
Definition is_void (ids : Ids) : bool :=
  match ids with
  | IdsOne (ItemValue VUndef) | IdsOne (ItemValue VNull) => true
  | _ => false
  end.

Definition item_truthy (i : Item) : bool :=
  match i with
  | ItemValue v => truthy v
  | _ => true
  end.

(** [if (!_.isArray(ids)) ids = ids ? [ids] : [];] *)
Definition to_array (ids : Ids) : list Item :=
  match ids with
  | IdsArray l => l
  | IdsOne i => if item_truthy i then [i] else []
  end.

(** The [data] hash the callback of [_handler] builds for one item. *)
Definition data_of (pivot : Relation) (item : Item) : Row :=
  let data : Row := <[key (otherKey pivot) := fkValue pivot]> ∅ in
  match item with
  | ItemModel _ => <[foreignKey pivot := fkValue pivot]> data
  | ItemHash h => extend data h
  | ItemValue v => if truthy v then <[foreignKey pivot := v]> data else data
  end.

(** The query one item gives rise to. *)
Definition handle_item (pivot : Relation) (method : string)
    (options : option Options) (item : Item) : Issued :=
  let data := data_of pivot item in
  let builder := builder (key (joinTableName pivot)) in
  let builder :=
    match options ≫= transacting with
    | Some t => call (CTransacting t) builder
    | None => builder
    end in
  if String.eqb method "delete"
  then Delete (call (CWhereHash (Some data)) builder)
  else Insert builder data.

(** [_handler(method, ids, options)]: the queries issued, in item order.
    [pivot] is [this._relation]. *)
Definition _handler (pivot : Relation) (method : string) (ids : Ids)
    (options : option Options) : list Issued :=
  if is_void ids && String.eqb method "insert" then []
  else map (handle_item pivot method options) (to_array ids).

Definition attach (pivot : Relation) (ids : Ids) (options : option Options) :=
  _handler pivot "insert" ids options.

Definition detach (pivot : Relation) (ids : Ids) (options : option Options) :=
  _handler pivot "delete" ids options.

(** The row of an insert, the [where] hash of a delete. *)
Definition issued_row (i : Issued) : option Row :=
  match i with
  | Insert _ data => Some data
  | Delete q =>
      match last (q_calls q) with
      | Some (CWhereHash h) => h
      | _ => None
      end
  | _ => None
  end.

End Pivot.

(** ** Functions shared by models, collections and eager relations *)

Module Shared.
Section Shared.
Variable classes : string -> ModelClass.

Definition class_of (c : Ctor) : string :=
  match c with ModelCtor n | CollectionCtor n => n end.

(** [this instanceof Collection] *)
Definition is_collection (this : Instance) : bool :=
  match ctor this with CollectionCtor _ => true | ModelCtor _ => false end.

(** [_.result(this, 'tableName')]: a collection answers with the table
    of its model. *)
Definition result_tableName (this : Instance) : string :=
  tableName (classes (class_of (ctor this))).

(** [_.result(this, 'idAttribute')] *)
Definition result_idAttribute (this : Instance) : string :=
  idAttribute (classes (class_of (ctor this))).

(** [model.id]: Backbone keeps it equal to the attribute that
    [idAttribute] names. *)
Definition model_id (m : Model) : value :=
  get m (idAttribute (classes (m_class m))).

(** [this.id] on any instance: a collection has none. *)
Definition id_of (this : Instance) : value :=
  match ctor this with
  | ModelCtor c => prop (inst_attributes this) (idAttribute (classes c))
  | CollectionCtor _ => VUndef
  end.

Definition set_builder (b : option Query) (this : Instance) : Instance :=
  mkInstance (ctor this) (inst_attributes this) (inst_relations this)
    (models this) (_relation this) b (pivotHelpers this).

Definition set_relation_hash (r : Relation) (this : Instance) : Instance :=
  mkInstance (ctor this) (inst_attributes this) (inst_relations this)
    (models this) (Some r) (_builder this) (pivotHelpers this).

Definition set_models (ms : list Model) (this : Instance) : Instance :=
  mkInstance (ctor this) (inst_attributes this) (inst_relations this)
    ms (_relation this) (_builder this) (pivotHelpers this).

Definition set_relations (rels : gmap string Related) (this : Instance) : Instance :=
  mkInstance (ctor this) (inst_attributes this) rels
    (models this) (_relation this) (_builder this) (pivotHelpers this).

(** [this.query()]: the current builder, created on first use. *)
Definition query (this : Instance) : Query :=
  default (builder (result_tableName this)) (_builder this).

(** [this.query(method, args...)] *)
Definition query_call (c : Call) (this : Instance) : Instance :=
  set_builder (Some (call c (query this))) this.

Definition resetQuery (this : Instance) : Instance := set_builder None this.

(** [this._relation], read for one of its properties. *)
Definition relation_of (this : Instance) : Result Relation :=
  match _relation this with
  | Some r => Ok r
  | None => Fail TypeError
  end.
End Shared.
End Shared.

(** ** Relation constraints *)

Module Constraints.
Section Constraints.
Variable classes : string -> ModelClass.

(** Standard constraints for regular or eager loaded relations. *)
Definition constraints (target : Instance) (resp : option (list Row))
    : Result Instance :=
  relation ← Shared.relation_of target;
  match resp with
  | Some resp =>
      Ok (Shared.query_call classes
            (CWhereIn (foreignKey relation)
                      (pluck resp (key (parentIdAttr relation)))) target)
  | None =>
      Ok (Shared.query_call classes
            (CWhere (foreignKey relation) "=" (fkValue relation)) target)
  end.

Definition set_columns (cols : list string) (r : Relation) : Relation :=
  mkRelation (type r) (foreignKey r) (otherKey r) (joinTableName r)
    (pivotColumns r) (Some cols) (fkValue r) (parentIdAttr r)
    (modelCtor r) (collectionCtor r) (parentResponse r).

(** Constraints of a belongsToMany relation: the join, the pivot
    columns, and the constraint on the join table. *)
Definition belongsToMany (target : Instance) (resp : option (list Row))
    : Result Instance :=
  relation ← Shared.relation_of target;
  let columns := default [] (columns relation) in
  let builder := Shared.query classes target in
  let tableName := Shared.result_tableName classes target in
  let idAttribute := Shared.result_idAttribute classes target in
  let otherKey := key (otherKey relation) in
  let foreignKey := foreignKey relation in
  let joinTableName := key (joinTableName relation) in
  let columns :=
    if (length (builder_columns builder) =? 0) && (length columns =? 0)
    then columns ++ [tableName +:+ ".*"] else columns in
  let columns := columns ++
    [ joinTableName +:+ "." +:+ otherKey +:+ " as " +:+ "_pivot_" +:+ otherKey;
      joinTableName +:+ "." +:+ foreignKey +:+ " as " +:+ "_pivot_" +:+ foreignKey ] in
  let columns := columns ++ default [] (pivotColumns relation) in
  let builder :=
    call (CJoin joinTableName (tableName +:+ "." +:+ idAttribute) "="
            (joinTableName +:+ "." +:+ foreignKey)) builder in
  let builder :=
    match resp with
    | Some resp =>
        call (CWhereIn (joinTableName +:+ "." +:+ otherKey) (pluck resp idAttribute)) builder
    | None =>
        call (CWhere (joinTableName +:+ "." +:+ otherKey) "=" (fkValue relation)) builder
    end in
  Ok (Shared.set_builder (Some builder)
        (Shared.set_relation_hash (set_columns columns relation) target)).

(** Adds the relation constraints onto the query. *)
Definition addConstraints (type : RelType) (target : Instance)
    (resp : option (list Row)) : Result Instance :=
  if bool_decide (type ≠ BelongsToMany)
  then constraints target resp
  else belongsToMany target resp.
End Constraints.
End Constraints.

(** ** Relation accessors of [Model.prototype] *)

Module ModelProto.

(** The values the guard of [_relatesTo] computes with. *)
Inductive JsValue :=
| JBoolean (b : bool)
| JPrototype (c : Ctor).   (* [C.prototype] *)

(** [!v]: an object is truthy. *)
Definition js_not (v : JsValue) : JsValue :=
  match v with
  | JBoolean b => JBoolean (negb b)
  | JPrototype _ => JBoolean false
  end.

(** [v instanceof Model]: false for a primitive; for a prototype, whether
    [Model.prototype] is on its chain. *)
Definition instanceof_Model (v : JsValue) : bool :=
  match v with
  | JPrototype (ModelCtor _) => true
  | _ => false
  end.

(** [type === 'hasMany' || type === 'belongsToMany'] *)
Definition multi (type : RelType) : bool :=
  bool_decide (type = HasMany) || bool_decide (type = BelongsToMany).

(** The key a function value becomes when used as a property name: the
    text of [Collection.prototype.idAttribute]. *)
Definition idAttribute_source : string :=
  "function () { return this.model.prototype.idAttribute; }".

Section ModelProto.
Variable classes : string -> ModelClass.
(** [Inflection.singularize] *)
Variable singularize : string -> string.
(** Whether an entity holds or inherits a property of that name besides the
    methods of its class: the methods [Model.prototype] has from this
    library and from Backbone ([fetch], [save], [destroy], [set], ...), the
    properties of the instance ([attributes], [relations], ...) and what
    every object inherits ([toString], [constructor], ...). *)
Variable reserved : string -> bool.

(** [_.result(Target.prototype, 'tableName')] *)
Definition proto_tableName (Target : Ctor) : string :=
  tableName (classes (Shared.class_of Target)).

(** [Target.prototype.idAttribute]: a string on a model prototype; on a
    collection prototype the method of that name, for which its text
    stands.  What the builder does when it is handed that function for a
    column is not represented. *)
Definition proto_idAttribute (Target : Ctor) : string :=
  match Target with
  | ModelCtor c => idAttribute (classes c)
  | CollectionCtor _ => idAttribute_source
  end.

(** [Target.prototype.model] *)
Definition proto_model (Target : Ctor) : option Ctor :=
  match Target with
  | CollectionCtor c => Some (ModelCtor c)
  | ModelCtor _ => None
  end.

(** [new Target()] *)
Definition new (Target : Ctor) : Instance :=
  mkInstance Target ∅ ∅ [] None None false.

(** The options hash an accessor hands to [_relatesTo]. *)
Definition relation_options (type : RelType) (foreignKey : string)
    (otherKey joinTableName : option string) : Relation :=
  mkRelation type foreignKey otherKey joinTableName None None VUndef
    None None None None.

(** Creates a new relation from [this] to the target, a collection or a
    model.  [_isEager] is the flag [processRelated] sets on [this]. *)
Definition _relatesTo (this : Model) (_isEager : bool) (Target : Ctor)
    (options : Relation) : Result Instance :=
  let type := type options in
  let multi := multi type in
  Target ←
    (if negb multi then
       if instanceof_Model (js_not (JPrototype Target))
       then Fail (RelationTypeMismatch type)
       else Ok Target
     else if instanceof_Model (JPrototype Target)
       then Ok (CollectionCtor (Shared.class_of Target))
       else Ok Target);
  let options :=
    if _isEager then
      mkRelation type (foreignKey options) (otherKey options)
        (joinTableName options) (pivotColumns options) (columns options)
        (fkValue options)
        (Some (idAttribute (classes (m_class this))))
        (if multi then proto_model Target else Some Target)
        (if multi then Some Target else collectionCtor options)
        (parentResponse options)
    else
      mkRelation type (foreignKey options) (otherKey options)
        (joinTableName options) (pivotColumns options) (columns options)
        (if bool_decide (type = BelongsTo)
         then get this (key (otherKey options))
         else Shared.model_id classes this)
        (parentIdAttr options) (modelCtor options)
        (collectionCtor options) (parentResponse options) in
  let target := new Target in
  Ok (mkInstance (ctor target) (inst_attributes target)
        (inst_relations target) (models target) (Some options)
        (_builder target) (bool_decide (type = BelongsToMany))).

Definition this_tableName (this : Model) : string :=
  tableName (classes (m_class this)).

Definition hasOne (this : Model) (_isEager : bool) (Target : Ctor)
    (foreignKey : option string) : Result Instance :=
  _relatesTo this _isEager Target
    (relation_options HasOne
       (or_default foreignKey (singularize (this_tableName this) +:+ "_id"))
       None None).

Definition hasMany (this : Model) (_isEager : bool) (Target : Ctor)
    (foreignKey : option string) : Result Instance :=
  _relatesTo this _isEager Target
    (relation_options HasMany
       (or_default foreignKey (singularize (this_tableName this) +:+ "_id"))
       None None).

Definition belongsTo (this : Model) (_isEager : bool) (Target : Ctor)
    (otherKey : option string) : Result Instance :=
  _relatesTo this _isEager Target
    (relation_options BelongsTo
       (proto_idAttribute Target)
       (Some (or_default otherKey (singularize (proto_tableName Target) +:+ "_id")))
       None).

(** [[a, b].sort().join('_')] *)
Definition sort_join (a b : string) : string :=
  if String.ltb b a then b +:+ "_" +:+ a else a +:+ "_" +:+ b.

Definition belongsToMany (this : Model) (_isEager : bool) (Target : Ctor)
    (joinTableName foreignKey otherKey : option string) : Result Instance :=
  _relatesTo this _isEager Target
    (relation_options BelongsToMany
       (or_default foreignKey (singularize (proto_tableName Target) +:+ "_id"))
       (Some (or_default otherKey (singularize (this_tableName this) +:+ "_id")))
       (Some (or_default joinTableName
                (sort_join (this_tableName this) (proto_tableName Target))))).

(** [target[name]()]: the method is looked up and called.  A method may
    return [undefined]; calling a missing method is a [TypeError]; the call
    of a [reserved] property is not represented. *)
Definition invoke (this : Model) (_isEager : bool) (name : string)
    : Result (option Instance) :=
  match methods (classes (m_class this)) !! name with
  | None => if reserved name then Fail Unmodelled else Fail TypeError
  | Some (AccHasOne T fk) => Some <$> hasOne this _isEager T fk
  | Some (AccHasMany T fk) => Some <$> hasMany this _isEager T fk
  | Some (AccBelongsTo T ok) => Some <$> belongsTo this _isEager T ok
  | Some (AccBelongsToMany T jt fk ok) => Some <$> belongsToMany this _isEager T jt fk ok
  | Some AccNothing => Ok None
  end.
End ModelProto.
End ModelProto.

(** ** Sync, the dispatcher of database queries *)

Module Sync.
Section Sync.
Variable classes : string -> ModelClass.

Record t := mk {
  model : Instance;
  options : Options;
  query : Query
}.

Definition no_options : Options := mkOptions None None false false.

(** [new Bookshelf.Sync(model, options)] *)
Definition new (model : Instance) (options : option Options) : Result t :=
  let options := default no_options options in
  let model := Shared.set_builder (Some (Shared.query classes model)) model in
  model ←
    match _relation model with
    | Some relation =>
        if truthy (fkValue relation)
        then Constraints.addConstraints classes (type relation) model None
        else Ok model
    | None => Ok model
    end;
  let query := Shared.query classes model in
  let query :=
    match transacting options with
    | Some t => call (CTransacting t) query
    | None => query
    end in
  Ok (mk model options query).

(** [this.model.format], [this.model.attributes], [this.model.idAttribute]:
    those of a model; a collection has none of them. *)
Definition model_class (s : t) : Result ModelClass :=
  match ctor (model s) with
  | ModelCtor c => Ok (classes c)
  | CollectionCtor _ => Fail TypeError
  end.

(** Issues an [update] command on the query. *)
Definition update (s : t) (attrs : option Row) (options : option Options)
    : Result Issued :=
  attrs ←
    match attrs with
    | Some a =>
        match options with
        | Some o => Ok (if partial o then a else inst_attributes (model s))
        | None => Fail TypeError
        end
    | None => Ok (inst_attributes (model s))
    end;
  cls ← model_class s;
  Ok (Update
        (call (CWhereEq (idAttribute cls) (Shared.id_of classes (model s))) (query s))
        (format cls (extend ∅ (inst_attributes (model s))))).

(** Issues a [delete] command on the query. *)
Definition del (s : t) : Result Issued :=
  let wheres : option Row :=
    if not_nullish (Shared.id_of classes (model s))
    then Some {[ Shared.result_idAttribute classes (model s) := Shared.id_of classes (model s) ]}
    else None in
  if negb (bool_decide (is_Some wheres)) && (wheres_length (query s) =? 0)
  then Fail DestroyWithoutConstraint
  else Delete <$> where_hash wheres (query s).

(** Issues an [insert] command on the query. *)
Definition insert (s : t) : Result Issued :=
  let query := call (CIdAttribute (Shared.result_idAttribute classes (model s))) (query s) in
  cls ← model_class s;
  Ok (Insert query (format cls (extend ∅ (inst_attributes (model s))))).
End Sync.
End Sync.

(** ** Eager relations *)

(** [s.split(sep)] for a one-character separator. *)
Fixpoint split (sep : Ascii.ascii) (s : string) : list string :=
  match s with
  | EmptyString => [EmptyString]
  | String c rest =>
      if Ascii.eqb c sep then EmptyString :: split sep rest
      else match split sep rest with
           | [] => [String c EmptyString]
           | h :: t => String c h :: t
           end
  end.

(** [l.join(sep)] *)
Fixpoint join (sep : string) (l : list string) : string :=
  match l with
  | [] => ""
  | [x] => x
  | x :: rest => x +:+ sep +:+ join sep rest
  end.

(** [_.pick(obj, _.keys(obj))], over every element: filters an array of
    objects down to their own properties. *)
Definition skim (data : list Row) : list Row :=
  map (fun obj : Row =>
         filter (fun kv : string * value => kv.1 ∈ (map_to_list obj).*1) obj)
      data.

(** Modelled from the spec: the [where] and [findWhere] that
    [RelatedModels] picks from Backbone's collection, which this repository
    does not hold; section 4.2 has the children selected by equality on the
    key.  A model matches when its attributes are strictly equal to [attrs]
    on every key of [attrs]; no model matches an empty [attrs]. *)
Definition matches (attrs : Row) (m : Model) : bool :=
  forallb (fun kv : string * value => bool_decide (kv.2 = get m kv.1))
          (map_to_list attrs).

Definition where_ (eager : list Model) (attrs : Row) : list Model :=
  if bool_decide (attrs = ∅) then [] else List.filter (matches attrs) eager.

Definition findWhere (eager : list Model) (attrs : Row) : option Model :=
  if bool_decide (attrs = ∅) then None else List.find (matches attrs) eager.

(** What a run leaves behind: the queries issued, and how it settled. *)
Definition Run (A : Type) : Type := list Issued * Result A.

(** The [parentResponse] of a relation hash, as opposed to that of an eager
    relation below. *)
Abbreviation relation_parentResponse := parentResponse.

Module EagerRelation.

Record t := mk {
  parent : Instance;
  target : Model;
  parentResponse : list Row
}.

(** The outcome of one [fetch] call: it threw before a query was sent, or
    it sent its query and its promise later settled, having sent the
    [nested] queries meanwhile. *)
Inductive Fetch :=
| Threw (e : Error)
| Sent (q : Issued) (nested : list Issued) (settled : Result Instance).

(** The outcome of the loop that starts one fetch per handled name. *)
Record Fetches := mkFetches {
  sent : list Issued;
  nested_sent : list Issued;
  thrown : option Error;
  settled_all : Result (list (string * Instance))
}.

(** [handled[name]], for the names stored so far.  What every plain object
    inherits ([toString], [constructor], ...) is among the reserved names,
    which [invoke] sets apart. *)
Definition handled_lookup (handled : list (string * Instance)) (name : string)
    : option Instance :=
  snd <$> List.find (fun kv => String.eqb (fst kv) name) handled.

(** [options.withRelated[i]] for [i] below [options.withRelated.length] *)
Definition items (w : WithRelated) : list string :=
  match w with
  | WRArray l => l
  | WRString s => map (fun c => String c EmptyString) (String.list_ascii_of_string s)
  end.

(** [if (options.withRelated)] *)
Definition withRelated_truthy (w : option WithRelated) : bool :=
  match w with
  | Some (WRArray _) => true
  | Some (WRString s) => negb (String.eqb s "")
  | None => false
  end.

Definition set_parentResponse (resp : list Row) (r : Relation) : Relation :=
  mkRelation (type r) (foreignKey r) (otherKey r) (joinTableName r)
    (pivotColumns r) (columns r) (fkValue r) (parentIdAttr r)
    (modelCtor r) (collectionCtor r) (Some resp).

(** [relation._relation.parentResponse = resp] *)
Definition assign_parentResponse (relation : option Instance) (resp : list Row)
    : Result (option Instance) :=
  match relation with
  | None => Fail TypeError
  | Some i =>
      r ← Shared.relation_of i;
      Ok (Some (Shared.set_relation_hash (set_parentResponse resp r) i))
  end.

Section EagerRelation.
Variable classes : string -> ModelClass.
Variable singularize : string -> string.
(** The rows the store answers a select with. *)
Variable db : Query -> option (list string) -> list Row.
(** Backbone's [Collection#reset], which the constructor of a collection
    runs on the entities it is given: the members the collection holds
    afterwards.  Backbone keeps one entity per identity, and sorts the
    members when the collection type has a comparator. *)
Variable reset : Ctor -> list Model -> list Model.
(** The names an entity holds besides the methods of its class. *)
Variable reserved : string -> bool.

(** [new ctor(attrs, {parse: true})] and [new ctor()] where an entity is
    expected.  An entity built through a collection constructor is not
    represented. *)
Definition construct (ctor : option Ctor) (attrs : option Row) : Result Model :=
  match ctor with
  | None => Fail TypeError
  | Some (ModelCtor c) =>
      Ok (mkModel c
            (match attrs with
             | Some row => parse (classes c) row
             | None => ∅
             end) ∅)
  | Some (CollectionCtor _) => Fail Unmodelled
  end.

(** The loop of [fetch] that pushes one entity per row. *)
Fixpoint construct_all (ctor : option Ctor) (rows : list Row)
    : Result (list Model) :=
  match rows with
  | [] => Ok []
  | row :: rows =>
      m ← construct ctor (Some row);
      ms ← construct_all ctor rows;
      Ok (m :: ms)
  end.

(** The first loop of [processRelated]: one relation per distinct name,
    and the deeper paths requested under each name.  The relation is
    dereferenced before it is tested, as in the source. *)
Fixpoint relate (this : t) (paths : list string)
    (handled : list (string * Instance))
    (subRelated : gmap string (list string))
    : Result (list (string * Instance) * gmap string (list string)) :=
  match paths with
  | [] => Ok (handled, subRelated)
  | path :: paths =>
      let related := split "."%char path in
      let name := default "" (head related) in
      let subRelated :=
        if 1 <? length related
        then <[name := default [] (subRelated !! name) ++ [join "." (tail related)]]> subRelated
        else subRelated in
      if bool_decide (is_Some (handled_lookup handled name))
      then relate this paths handled subRelated
      else
        relation ← ModelProto.invoke classes singularize reserved (target this) true name;
        relation ← assign_parentResponse relation (parentResponse this);
        match relation with
        | None => Fail (UnknownRelation name)
        | Some r => relate this paths (handled ++ [(name, r)]) subRelated
        end
  end.

(** Fetch the nested related items, and handle the responses.
    [processRelated] is the resolver one level down. *)
Definition fetch (processRelated : t -> Options -> Run Instance)
    (this : Instance) (options : Options) : Fetch :=
  match
    (opts ← Shared.relation_of this;
     this ← Constraints.addConstraints classes (type opts) this (relation_parentResponse opts);
     opts ← Shared.relation_of this;
     Ok (this, opts))
  with
  | Fail e => Threw e
  | Ok (this, opts) =>
      let q := Select (Shared.query classes this) (columns opts) in
      let resp := db (Shared.query classes this) (columns opts) in
      let current := Shared.resetQuery (Shared.set_models [] this) in
      if 0 <? length resp then
        match construct_all (modelCtor opts) (skim resp) with
        | Fail e => Sent q [] (Fail e)
        | Ok models =>
            let current := Shared.set_models models current in
            if withRelated_truthy (withRelated options) then
              match construct (modelCtor opts) None with
              | Fail e => Sent q [] (Fail e)
              | Ok model =>
                  let '(nested, r) := processRelated (mk current model resp) options in
                  Sent q nested r
              end
            else Sent q [] (Ok current)
        end
      else Sent q [] (Ok current)
  end.

(** The second loop of [processRelated]: one [fetch] per handled name, in
    enumeration order.  A fetch that throws ends the loop; the fetches
    started before it still run. *)
Fixpoint fetch_all (fetch : Instance -> Options -> Fetch)
    (handled : list (string * Instance))
    (subRelated : gmap string (list string))
    (transacting : option string) : Fetches :=
  match handled with
  | [] => mkFetches [] [] None (Ok [])
  | (name, relation) :: handled =>
      match fetch relation
              (mkOptions transacting (WRArray <$> subRelated !! name) false false) with
      | Threw e => mkFetches [] [] (Some e) (Ok [])
      | Sent q nested r =>
          let rest := fetch_all fetch handled subRelated transacting in
          mkFetches (q :: sent rest) (nested ++ nested_sent rest) (thrown rest)
            (relation ← r;
             others ← settled_all rest;
             Ok ((name, relation) :: others))
      end
  end.

(** [new ctor()] where a related value is stored. *)
Definition construct_related (ctor : option Ctor) : Result Related :=
  match ctor with
  | None => Fail TypeError
  | Some (ModelCtor c) => Ok (RModel (mkModel c ∅ ∅))
  | Some (CollectionCtor c) => Ok (RCollection (CollectionCtor c) [])
  end.

(** [new ctor(models, {parse: true})]: the constructor resets the new
    collection with the entities handed to it.  The related value records
    the constructor and the members the collection then holds. *)
Definition construct_collection (ctor : option Ctor) (models : list Model)
    : Result Related :=
  match ctor with
  | None => Fail TypeError
  | Some c => Ok (RCollection c (reset c models))
  end.

(** Handles the eager related relationship matching. *)
Definition eagerRelated (type : RelType) (target : Instance)
    (eager : list Model) (id : value) : Result Related :=
  relation ← Shared.relation_of target;
  match type with
  | HasOne | BelongsTo =>
      match findWhere eager {[ foreignKey relation := id ]} with
      | Some m => Ok (RModel m)
      | None => Ok RUndefined
      end
  | HasMany =>
      construct_collection (collectionCtor relation)
        (where_ eager {[ foreignKey relation := id ]})
  | BelongsToMany =>
      construct_collection (collectionCtor relation)
        (where_ eager {[ "_pivot_" +:+ key (otherKey relation) := id ]})
  end.

(** The inner loop of [matchResponses] over the members of a parent
    collection. *)
Fixpoint match_models (name : string) (relation : Instance) (r : Relation)
    (ms : list Model) : Result (list Model) :=
  match ms with
  | [] => Ok []
  | m :: ms =>
      let id :=
        if bool_decide (type r = BelongsTo)
        then get m (key (otherKey r))
        else Shared.model_id classes m in
      result ← eagerRelated (type r) relation (models relation) id;
      ms ← match_models name relation r ms;
      Ok (set_relation name result m :: ms)
  end.

(** Handles the matching against an eager loaded relation: pairs each
    query response with the parent. *)
Fixpoint matchResponses (parent : Instance) (handled : list (string * Instance))
    : Result Instance :=
  match handled with
  | [] => Ok parent
  | (name, relation) :: handled =>
      r ← Shared.relation_of relation;
      parent ←
        (if Shared.is_collection parent then
           ms ← match_models name relation r (models parent);
           Ok (Shared.set_models ms parent)
         else if bool_decide (type r = HasOne) || bool_decide (type r = BelongsTo) then
           result ←
             match models relation with
             | m :: _ => Ok (RModel m)
             | [] => construct_related (modelCtor r)
             end;
           Ok (Shared.set_relations (<[name := result]> (inst_relations parent)) parent)
         else
           result ← construct_collection (collectionCtor r) (models relation);
           Ok (Shared.set_relations (<[name := result]> (inst_relations parent)) parent));
      matchResponses parent handled
  end.

(** Determines which relations are necessary for fetching, fetches them
    and matches them.  The queries of this level come first in the
    trace, then those of the levels below. *)
Fixpoint processRelated (fuel : nat) (this : t) (options : Options)
    : Run Instance :=
  match fuel with
  | 0 => ([], Fail OutOfFuel)
  | S fuel =>
      match
        (match withRelated options with
         | None => Fail TypeError
         | Some w => relate this (items w) [] ∅
         end)
      with
      | Fail e => ([], Fail e)
      | Ok (handled, subRelated) =>
          let pending :=
            fetch_all (fetch (processRelated fuel)) handled subRelated
              (transacting options) in
          (sent pending ++ nested_sent pending,
           match thrown pending with
           | Some e => Fail e
           | None =>
               handled ← settled_all pending;
               matchResponses (parent this) handled
           end)
      end
  end.

(** The first argument of [load]. *)
Inductive Relations :=
| RelArray (l : list string)
| RelString (s : string)
| RelAbsent.

Definition relations_array (relations : Relations) : list string :=
  match relations with
  | RelArray l => l
  | RelString s => if String.eqb s "" then [] else [s]
  | RelAbsent => []
  end.

(** The number of levels a list of paths asks for. *)
Definition depth (paths : list string) : nat :=
  list_max (map (fun p => length (split "."%char p)) paths).

(** [target] in [load]: a new model of the collection's class, or the
    model itself. *)
Definition load_target (this : Instance) : Model :=
  match ctor this with
  | CollectionCtor c => mkModel c ∅ ∅
  | ModelCtor c => mkModel c (inst_attributes this) (inst_relations this)
  end.

(** [data] in [load]: the shallow [toJSON] of every member, or of the
    model alone. *)
Definition load_data (this : Instance) : list Row :=
  match ctor this with
  | CollectionCtor _ => map attributes (models this)
  | ModelCtor _ => [inst_attributes this]
  end.

(** Eager loads relationships onto an already populated model or
    collection; settles with the populated object. *)
Definition load (this : Instance) (relations : Relations)
    (options : option Options) : Run Instance :=
  let relations := relations_array relations in
  let options :=
    mkOptions (options ≫= transacting) (Some (WRArray relations))
      (default false (partial <$> options))
      (default false (require <$> options)) in
  processRelated (S (depth relations))
    (mk this (load_target this) (load_data this)) options.
End EagerRelation.
End EagerRelation.

(** ** Derived forms used in the statements below *)

Section Derived.
Variable classes : string -> ModelClass.
Variable singularize : string -> string.
Variable reset : Ctor -> list Model -> list Model.

(** The target and the options hash an accessor passes to [_relatesTo]. *)
Definition accessor_options (this : Model) (acc : Accessor) : option (Ctor * Relation) :=
  let own := singularize (tableName (classes (m_class this))) +:+ "_id" in
  match acc with
  | AccHasOne T fk =>
      Some (T, ModelProto.relation_options HasOne (or_default fk own) None None)
  | AccHasMany T fk =>
      Some (T, ModelProto.relation_options HasMany (or_default fk own) None None)
  | AccBelongsTo T ok =>
      Some (T, ModelProto.relation_options BelongsTo
                 (ModelProto.proto_idAttribute classes T)
                 (Some (or_default ok
                          (singularize (ModelProto.proto_tableName classes T) +:+ "_id")))
                 None)
  | AccBelongsToMany T jt fk ok =>
      Some (T, ModelProto.relation_options BelongsToMany
                 (or_default fk (singularize (ModelProto.proto_tableName classes T) +:+ "_id"))
                 (Some (or_default ok own))
                 (Some (or_default jt
                          (ModelProto.sort_join (tableName (classes (m_class this)))
                             (ModelProto.proto_tableName classes T)))))
  | AccNothing => None
  end.

(** The relation target [processRelated] stores under a name: built in
    eager mode, with the parent's response attached. *)
Definition prepared (this : EagerRelation.t) (Target : Ctor) (o : Relation) : Instance :=
  let multi := ModelProto.multi (type o) in
  let T := if multi then CollectionCtor (Shared.class_of Target) else Target in
  mkInstance T ∅ ∅ []
    (Some (mkRelation (type o) (foreignKey o) (otherKey o) (joinTableName o)
             (pivotColumns o) (columns o) (fkValue o)
             (Some (idAttribute (classes (m_class (EagerRelation.target this)))))
             (if multi then Some (ModelCtor (Shared.class_of Target)) else Some Target)
             (if multi then Some T else collectionCtor o)
             (Some (EagerRelation.parentResponse this))))
    None (bool_decide (type o = BelongsToMany)).

(** An entry of [handled]: the relation prepared from the method of that
    name. *)
Definition prepared_entry (this : EagerRelation.t) (kv : string * Instance) : Prop :=
  ∃ acc T o,
    methods (classes (m_class (EagerRelation.target this))) !! kv.1 = Some acc
    ∧ accessor_options (EagerRelation.target this) acc = Some (T, o)
    ∧ kv.2 = prepared this T o.

(** What one path adds to [subRelated]. *)
Definition record_suffix (path : string) (sub : gmap string (list string))
    : gmap string (list string) :=
  let related := split "." path in
  let name := default "" (head related) in
  if 1 <? length related
  then <[name := default [] (sub !! name) ++ [join "." (tail related)]]> sub
  else sub.

(** The entities [fetch] builds from the rows of a response. *)
Definition children (c : string) (rows : list Row) : list Model :=
  map (fun row => mkModel c (parse (classes c) row) ∅) (skim rows).

(** The class of the entities a relation's fetch builds, when they are
    built through a model constructor. *)
Definition entity_class (acc : Accessor) : option string :=
  match acc with
  | AccHasOne (ModelCtor c) _ | AccBelongsTo (ModelCtor c) _ => Some c
  | AccHasMany T _ | AccBelongsToMany T _ _ _ => Some (Shared.class_of T)
  | _ => None
  end.

(** Whether the keys of the relation an accessor declares are column
    names.  The foreign key of a belongsTo relation to a collection type
    is a function (see [proto_idAttribute]). *)
Definition column_keyed (acc : Accessor) : bool :=
  match acc with
  | AccBelongsTo (CollectionCtor _) _ | AccNothing => false
  | _ => true
  end.

(** The key of a parent that its children are matched against. *)
Definition match_key (r : Relation) (m : Model) : value :=
  if bool_decide (type r = BelongsTo)
  then get m (key (otherKey r))
  else Shared.model_id classes m.

(** The column of a fetched entity that holds the key it is matched by. *)
Definition match_column (r : Relation) : string :=
  if bool_decide (type r = BelongsToMany)
  then "_pivot_" +:+ key (otherKey r)
  else foreignKey r.

(** The fetched entities that match a parent, in the order they were
    fetched. *)
Definition matching (r : Relation) (kids : list Model) (m : Model) : list Model :=
  List.filter (fun kid => bool_decide (match_key r m = get kid (match_column r))) kids.

(** What a member of a parent collection receives for a relation to the
    target [T], from the entities that the fetch of the relation built: the
    first match or [undefined] for a hasOne or belongsTo relation, and for
    a hasMany or belongsToMany relation the collection constructed from the
    matches. *)
Definition matched (T : Ctor) (r : Relation) (kids : list Model) (m : Model) : Related :=
  if ModelProto.multi (type r)
  then
    let cc := CollectionCtor (Shared.class_of T) in
    RCollection cc (reset cc (matching r kids m))
  else from_option RModel RUndefined (head (matching r kids m)).

(** A relation hash that carries the keys of the options [o] of a relation
    to [T], and the constructors of [T], as a prepared relation does. *)
Definition carries (r : Relation) (T : Ctor) (o : Relation) : Prop :=
  type r = type o ∧ foreignKey r = foreignKey o ∧ otherKey r = otherKey o
  ∧ (ModelProto.multi (type o) = true ->
     collectionCtor r = Some (CollectionCtor (Shared.class_of T)))
  ∧ (ModelProto.multi (type o) = false ->
     modelCtor r = Some (ModelCtor (Shared.class_of T))).

(** What a single parent entity receives for the relation: the first
    fetched entity, or a new entity of the target type when none was
    fetched, for a hasOne or belongsTo relation; for a hasMany or
    belongsToMany relation the collection constructed from all of them. *)
Definition assigned (T : Ctor) (r : Relation) (kids : list Model) : Related :=
  if ModelProto.multi (type r)
  then
    let cc := CollectionCtor (Shared.class_of T) in
    RCollection cc (reset cc kids)
  else from_option RModel (RModel (mkModel (Shared.class_of T) ∅ ∅)) (head kids).

(** The parent once the fetched entities of one relation were matched with
    it: every member of a collection holds its matches under the name of
    the relation, a single entity holds what it is assigned. *)
Definition receive (name : string) (T : Ctor) (r : Relation) (kids : list Model)
    (this : Instance) : Instance :=
  if Shared.is_collection this
  then
    Shared.set_models
      (map (fun m => set_relation name (matched T r kids m) m) (models this)) this
  else
    Shared.set_relations (<[name := assigned T r kids]> (inst_relations this)) this.

(** What a run may fail with besides the errors the code raises itself. *)
Definition runtime_error (e : Error) : Prop :=
  e = TypeError ∨ e = Unmodelled ∨ e = OutOfFuel.
End Derived.

(** The name a path asks for at the level it is given to. *)
Definition first_segment (path : string) : string :=
  default "" (head (split "." path)).

(** The deeper paths a list of paths asks for under [name], in order. *)
Definition suffixes (name : string) (paths : list string) : list string :=
  omap (fun path =>
          let related := split "." path in
          if String.eqb (first_segment path) name && (1 <? length related)
          then Some (join "." (tail related)) else None)
       paths.

(** [subRelated[name]] is either absent or a non-empty array. *)
Definition recorded (l : list string) : option (list string) :=
  match l with
  | [] => None
  | _ => Some l
  end.

(** The values a select admits through its [whereIn] constraints. *)
Definition in_values (i : Issued) : list value :=
  match i with
  | Select q _ =>
      concat (omap (fun c => match c with CWhereIn _ vs => Some vs | _ => None end)
                   (q_calls q))
  | _ => []
  end.

(** ** The batching rule, as the specification words it *)

(** The one query an eager load sends for a hasOne, hasMany or belongsTo
    relation declared on class [owner]: on the target's table, constrained
    by [foreignKey IN (identity values of the parents)].  A belongsTo
    relation to a collection type, whose key is a function, has none. *)
Definition batched_query (classes : string -> ModelClass)
    (singularize : string -> string) (owner : string) (acc : Accessor)
    (parents : list Row) : option Issued :=
  let ids := pluck parents (idAttribute (classes owner)) in
  let default_key := singularize (tableName (classes owner)) +:+ "_id" in
  match acc with
  | AccHasOne T fk | AccHasMany T fk =>
      Some (Select (mkQuery (tableName (classes (Shared.class_of T)))
                      [CWhereIn (or_default fk default_key) ids]) None)
  | AccBelongsTo (ModelCtor t) _ =>
      Some (Select (mkQuery (tableName (classes t)) [CWhereIn (idAttribute (classes t)) ids])
              None)
  | _ => None
  end.

(** ** [withPivot], the third pivot helper *)

Module WithPivot.

(** One element of [columns]: a column name, or a hash from pivot column
    names to the names they take in the output, in enumeration order. *)
Inductive Column :=
| ColumnName (column : string)
| ColumnHash (h : list (string * string)).

Inductive Columns :=
| ColumnsOne (c : Column)
| ColumnsArray (l : list Column)
| ColumnsAbsent.

Definition column_truthy (c : Column) : bool :=
  match c with
  | ColumnName s => negb (String.eqb s "")
  | ColumnHash _ => true
  end.

(** [if (!_.isArray(columns)) columns = columns ? [columns] : [];] *)
Definition to_array (columns : Columns) : list Column :=
  match columns with
  | ColumnsArray l => l
  | ColumnsOne c => if column_truthy c then [c] else []
  | ColumnsAbsent => []
  end.

(** What the loop pushes onto [relation.pivotColumns] for one element. *)
Definition pushed (joinTableName : string) (column : Column) : list string :=
  match column with
  | ColumnName column =>
      [joinTableName +:+ "." +:+ column +:+ " as pivot_" +:+ column]
  | ColumnHash h =>
      map (fun kv : string * string => joinTableName +:+ "." +:+ kv.1 +:+ " as " +:+ kv.2) h
  end.

Definition set_pivotColumns (cols : list string) (r : Relation) : Relation :=
  mkRelation (type r) (foreignKey r) (otherKey r) (joinTableName r)
    (Some cols) (columns r) (fkValue r) (parentIdAttr r)
    (modelCtor r) (collectionCtor r) (parentResponse r).

(** Selects additional columns on the pivot table; returns [this]. *)
Definition withPivot (this : Instance) (columns : Columns) : Result Instance :=
  relation ← Shared.relation_of this;
  let pivotColumns := default [] (pivotColumns relation) in
  Ok (Shared.set_relation_hash
        (set_pivotColumns
           (pivotColumns
              ++ concat (map (pushed (key (joinTableName relation))) (to_array columns)))
           relation)
        this).
End WithPivot.

(** ** Fetching: [Sync.first], [Sync.select] and the [fetch] and [destroy]
       of models and collections *)

Module SyncSelect.

(** [options.columns].  The options record does not hold it; it is passed
    beside the dispatcher. *)
Inductive Columns :=
| ColumnsArray (l : list string)
| ColumnsString (s : string)
| ColumnsAbsent.

(** [if (!_.isArray(columns)) columns = columns ? [columns] : ['*'];] *)
Definition columns_array (columns : Columns) : list string :=
  match columns with
  | ColumnsArray l => l
  | ColumnsString s => if String.eqb s "" then ["*"] else [s]
  | ColumnsAbsent => ["*"]
  end.

Definition set_attributes (attrs : Row) (this : Instance) : Instance :=
  mkInstance (ctor this) attrs (inst_relations this) (models this)
    (_relation this) (_builder this) (pivotHelpers this).

(** [model.set(attrs)]: Backbone writes every attribute given over the
    current ones.  Change events are not represented. *)
Definition set (attrs : Row) (this : Instance) : Instance :=
  set_attributes (extend (inst_attributes this) attrs) this.

(** [model.clear()]: Backbone removes every attribute. *)
Definition clear (this : Instance) : Instance := set_attributes ∅ this.

Section SyncSelect.
Variable classes : string -> ModelClass.
Variable singularize : string -> string.
Variable db : Query -> option (list string) -> list Row.
(** Backbone's [Collection#reset], given the entities that
    [_prepareModel] built from the rows: the members the collection holds
    afterwards. *)
Variable reset : Ctor -> list Model -> list Model.
Variable reserved : string -> bool.

(** [new this.model(attrs, options)] for every row, as [_prepareModel]
    does under [{parse: true}]. *)
Definition prepare (c : string) (rows : list Row) : list Model :=
  map (fun row => mkModel c (parse (classes c) row) ∅) rows.

(** Runs a [select] query, resets the query, and stores what came back
    on the model or the collection; with [withRelated], hands over to the
    eager resolver.  Settles with the model.  The [fetched] event is not
    represented. *)
Definition select (s : Sync.t) (columns : Columns) : Run Instance :=
  let model := Sync.model s in
  let options := Sync.options s in
  let columns := columns_array columns in
  let sent := Select (Sync.query s) (Some columns) in
  let resp := db (Sync.query s) (Some columns) in
  let model := Shared.resetQuery model in
  if 0 <? length resp then
    let filteredResp := skim resp in
    let model :=
      match ctor model with
      | ModelCtor c => set (parse (classes c) (default ∅ (head filteredResp))) model
      | CollectionCtor c =>
          Shared.set_models (reset (ctor model) (prepare c filteredResp)) model
      end in
    match withRelated options with
    | Some w =>
        if EagerRelation.withRelated_truthy (Some w) then
          let target := EagerRelation.load_target model in
          let '(nested, r) :=
            EagerRelation.processRelated classes singularize db reset reserved
              (S (EagerRelation.depth (EagerRelation.items w)))
              (EagerRelation.mk model target filteredResp) options in
          (sent :: nested, r)
        else ([sent], Ok model)
    | None => ([sent], Ok model)
    end
  else if require options then ([sent], Fail EmptyResponse)
  else
    match ctor model with
    | ModelCtor _ => ([sent], Ok (clear model))
    | CollectionCtor _ => ([sent], Ok (Shared.set_models (reset (ctor model) []) model))
    end.

(** [this.model.attributes]: a collection has none. *)
Definition model_attributes (s : Sync.t) : Row :=
  match ctor (Sync.model s) with
  | ModelCtor _ => inst_attributes (Sync.model s)
  | CollectionCtor _ => ∅
  end.

(** Select the first item from the database. *)
Definition first (s : Sync.t) (columns : Columns) : Run Instance :=
  let query :=
    call (CLimit 1) (call (CWhereHash (Some (extend ∅ (model_attributes s)))) (Sync.query s)) in
  select (Sync.mk (Sync.model s) (Sync.options s) query) columns.

(** [fetch(options)]: on a model, [this.sync(this, options).first()]; on a
    collection, [this.sync(this, options).select()]. *)
Definition fetch (this : Instance) (options : option Options) (columns : Columns)
    : Run Instance :=
  match Sync.new classes this options with
  | Fail e => ([], Fail e)
  | Ok sync =>
      match ctor this with
      | ModelCtor _ => first sync columns
      | CollectionCtor _ => select sync columns
      end
  end.

(** [destroy(options)], a method of models only: one delete through the
    dispatcher.  The run settles with the store's response, which is not
    represented. *)
Definition destroy (this : Instance) (options : option Options) : Run () :=
  match ctor this with
  | CollectionCtor _ => ([], Fail TypeError)
  | ModelCtor _ =>
      match Sync.new classes this options ≫= Sync.del classes with
      | Fail e => ([], Fail e)
      | Ok q => ([q], Ok ())
      end
  end.
End SyncSelect.
End SyncSelect.

(** ** Saving a model *)

Module Save.

(** The arguments of [save]: [save(attrs, options)] with a hash or nothing,
    or [save(key, val, options)]. *)
Inductive Args :=
| ArgsHash (attrs : option Row) (options : option Options)
| ArgsKey (key : string) (val : value) (options : option Options).

Section Save.
Variable classes : string -> ModelClass.
(** [hasTimestamps] and [_.result(this, 'defaults')], per entity type. *)
Variable hasTimestamps : string -> bool.
Variable defaults : string -> option Row.
(** [new Date()], as the value an attribute holds. *)
Variable now : value.
(** [resp.insertId], for the response the store gives to a query. *)
Variable insertId : Issued -> value.

(** [model.isNew()]: Backbone tests [this.id == null]. *)
Definition isNew (this : Instance) : bool :=
  negb (not_nullish (Shared.id_of classes this)).

(** Sets the timestamps before saving the model. *)
Definition timestamp (this : Instance) : Row :=
  let vals : Row := <["updated_at" := now]> ∅ in
  if isNew this then <["created_at" := now]> vals else vals.

(** [sync[method](attrs, options)] *)
Definition dispatch (sync : Sync.t) (method : string) (attrs : Row)
    (options : Options) : Result Issued :=
  if String.eqb method "insert" then Sync.insert classes sync
  else if String.eqb method "update" then Sync.update classes sync (Some attrs) (Some options)
  else if String.eqb method "del" then Sync.del classes sync
  else if String.eqb method "select" || String.eqb method "first" then Fail Unmodelled
  else Fail TypeError.

(** Sets and saves the hash of model attributes.  [method] is
    [options.method].  The [beforeSave], [create] and [update] events are
    not represented. *)
Definition save (this : Instance) (args : Args) (method : option string)
    : Run Instance :=
  match ctor this with
  | CollectionCtor _ => ([], Fail TypeError)
  | ModelCtor c =>
      let '(attrs, options) :=
        match args with
        | ArgsHash attrs options => (default ∅ attrs, default Sync.no_options options)
        | ArgsKey key val options => ({[ key := val ]}, default Sync.no_options options)
        end in
      let attrs := if hasTimestamps c then extend attrs (timestamp this) else attrs in
      let vals :=
        match defaults c with
        | Some defaults => extend (extend (extend ∅ defaults) (inst_attributes this)) attrs
        | None => attrs
        end in
      let model := SyncSelect.set vals this in
      match Sync.new classes model (Some options) with
      | Fail e => ([], Fail e)
      | Ok sync =>
          let method := or_default method (if isNew model then "insert" else "update") in
          match dispatch sync method attrs options with
          | Fail e => ([], Fail e)
          | Ok q =>
              let model := Shared.resetQuery (Sync.model sync) in
              ([q], Ok (if truthy (insertId q)
                        then SyncSelect.set {[ idAttribute (classes c) := insertId q ]} model
                        else model))
          end
      end
  end.
End Save.
End Save.

(** ** Measures used in the statements below *)

(** The number of segments a list of paths holds. *)
Definition segments (paths : list string) : nat :=
  sum_list (map (fun p => length (split "." p)) paths).

(** The builder of a query that was sent. *)
Definition issued_query (i : Issued) : Query :=
  match i with
  | Select q _ | Insert q _ | Update q _ | Delete q => q
  end.

(** Whether a query was placed in a transaction. *)
Definition in_transaction (q : Query) : bool :=
  existsb (fun c => match c with CTransacting _ => true | _ => false end) (q_calls q).

(** [this.related(item)] on an entity: [this.relations[item]]. *)
Definition related (this : Model) (item : string) : Related :=
  default RUndefined (relations this !! item).

(** An entity that differs from another at most in what its [relations]
    hold under the given names. *)
Definition same_but (names : list string) (m m' : Model) : Prop :=
  m_class m' = m_class m
  ∧ attributes m' = attributes m
  ∧ ∀ n, n ∉ names -> relations m' !! n = relations m !! n.

(** The calls [new Sync(model, options)] makes on the builder of a relation
    target for the relation's constraint: none unless [fkValue] is truthy. *)
Definition constraint_calls (classes : string -> ModelClass) (model : Instance)
    : list Call :=
  match _relation model with
  | Some r =>
      if truthy (fkValue r) then
        if bool_decide (type r ≠ BelongsToMany)
        then [CWhere (foreignKey r) "=" (fkValue r)]
        else
          let table := Shared.result_tableName classes model in
          let joinTable := key (joinTableName r) in
          [ CJoin joinTable (table +:+ "." +:+ Shared.result_idAttribute classes model) "="
              (joinTable +:+ "." +:+ foreignKey r);
            CWhere (joinTable +:+ "." +:+ key (otherKey r)) "=" (fkValue r) ]
      else []
  | None => []
  end.

(** The call that places a query in the transaction of the options. *)
Definition transacting_calls (options : option Options) : list Call :=
  match options ≫= transacting with
  | Some t => [CTransacting t]
  | None => []
  end.

(** The calls [first] adds before it selects: the lookup of a model is by
    all of its attributes, and for one row. *)
Definition lookup_calls (this : Instance) : list Call :=
  match ctor this with
  | ModelCtor _ => [CWhereHash (Some (inst_attributes this)); CLimit 1]
  | CollectionCtor _ => []
  end.

(** The builder of the select that [fetch] sends first: the calls pending
    on the builder of the object, then the relation constraint, the
    transaction and the lookup. *)
Definition fetch_query (classes : string -> ModelClass) (this : Instance)
    (options : option Options) : Query :=
  let base := Shared.query classes this in
  mkQuery (q_table base)
    (q_calls base ++ constraint_calls classes this ++ transacting_calls options
       ++ lookup_calls this).

(** ** A sample schema: users, their posts and profile, roles *)

Module Sample.

Definition row (l : list (string * value)) : Row := list_to_map l.

Definition classes (c : string) : ModelClass :=
  if String.eqb c "User" then
    mkClass "users" "id" id id
      (<["posts" := AccHasMany (ModelCtor "Post") None]>
      (<["profile" := AccHasOne (ModelCtor "Profile") None]>
      (<["roles" := AccBelongsToMany (ModelCtor "Role") None None None]> ∅)))
  else if String.eqb c "Post" then
    mkClass "posts" "id" id id
      (<["author" := AccBelongsTo (ModelCtor "User") None]>
      (<["comments" := AccHasMany (ModelCtor "Comment") None]>
      (<["tags" := AccHasMany (ModelCtor "Tag") None]> ∅)))
  else if String.eqb c "Profile" then mkClass "profiles" "id" id id ∅
  else if String.eqb c "Comment" then mkClass "comments" "id" id id ∅
  else if String.eqb c "Role" then mkClass "roles" "id" id id ∅
  else mkClass "tags" "id" id id ∅.

Definition singularize (s : string) : string :=
  if String.eqb s "users" then "user"
  else if String.eqb s "posts" then "post"
  else if String.eqb s "roles" then "role"
  else s.

(** The tables of the store: users 1 and 2; posts 10 and 11, both of
    user 1; one comment on post 10; one profile, of user 1; no tags. *)
Definition table (name : string) : list Row :=
  if String.eqb name "users" then
    [ row [("id", VNum 1)]; row [("id", VNum 2)] ]
  else if String.eqb name "posts" then
    [ row [("id", VNum 10); ("user_id", VNum 1)];
      row [("id", VNum 11); ("user_id", VNum 1)] ]
  else if String.eqb name "comments" then
    [ row [("id", VNum 100); ("post_id", VNum 10)] ]
  else if String.eqb name "profiles" then
    [ row [("id", VNum 7); ("user_id", VNum 1)] ]
  else [].

(** Whether a row passes one constraint of a query. *)
Definition passes (r : Row) (c : Call) : bool :=
  match c with
  | CWhereIn col vs => bool_decide (prop r col ∈ vs)
  | CWhere col _ v | CWhereEq col v => bool_decide (prop r col = v)
  | _ => true
  end.

(** The store: the rows of the query's table that pass its constraints. *)
Definition db (q : Query) (cols : option (list string)) : list Row :=
  List.filter (fun r => forallb (passes r) (q_calls q)) (table (q_table q)).

Definition user (n : Z) : Model := mkModel "User" (row [("id", VNum n)]) ∅.

Definition users : Instance :=
  mkInstance (CollectionCtor "User") ∅ ∅ [user 1; user 2] None None false.

Definition user1 : Instance :=
  mkInstance (ModelCtor "User") (row [("id", VNum 1)]) ∅ [] None None false.

Definition user2 : Instance :=
  mkInstance (ModelCtor "User") (row [("id", VNum 2)]) ∅ [] None None false.

Definition post (n owner : Z) : Model :=
  mkModel "Post" (row [("id", VNum n); ("user_id", VNum owner)]) ∅.

Definition role (n : Z) : Model := mkModel "Role" (row [("id", VNum n)]) ∅.

Definition comment100 : Model :=
  mkModel "Comment" (row [("id", VNum 100); ("post_id", VNum 10)]) ∅.

(** A post once its comments and tags were loaded. *)
Definition loaded_post (n owner : Z) (comments : list Model) : Model :=
  mkModel "Post" (row [("id", VNum n); ("user_id", VNum owner)])
    (<["tags" := RCollection (CollectionCtor "Tag") []]>
       (<["comments" := RCollection (CollectionCtor "Comment") comments]> ∅)).

(** The relation hash of [user1.roles()]. *)
Definition roles_of_user1 : Relation :=
  mkRelation BelongsToMany "role_id" (Some "user_id") (Some "roles_users")
    None None (VNum 1) None None None None.

(** A persisted user with more attributes than its id. *)
Definition ann : Instance :=
  mkInstance (ModelCtor "User")
    (row [("id", VNum 1); ("name", VStr "ann"); ("age", VNum 30)])
    ∅ [] None None false.

Definition ann_sync : Sync.t :=
  Sync.mk ann Sync.no_options (builder "users").

Definition partial_options : Options := mkOptions None None true false.

(** The collection of both posts. *)
Definition posts : Instance :=
  mkInstance (CollectionCtor "Post") ∅ ∅ [post 10 1; post 11 1] None None false.

(** A user that was never saved: it has a name and no id. *)
Definition zed : Instance :=
  mkInstance (ModelCtor "User") (row [("name", VStr "zed")]) ∅ [] None None false.

(** A collection that keeps every entity handed to [reset], in order. *)
Definition reset (c : Ctor) (ms : list Model) : list Model := ms.

(** Some of the names every entity holds besides the methods of its class. *)
Definition reserved (name : string) : bool :=
  bool_decide (name ∈ [ "fetch"; "save"; "destroy"; "load"; "related"; "query"; "set";
                        "clear"; "attributes"; "relations"; "toString"; "constructor";
                        "valueOf"; "hasOwnProperty" ]).

(** A store whose roles table answers with two roles of user 1, as the
    join through [roles_users] presents them. *)
Definition role_rows : list Row :=
  [ row [("id", VNum 5); ("_pivot_user_id", VNum 1); ("_pivot_role_id", VNum 5)];
    row [("id", VNum 6); ("_pivot_user_id", VNum 1); ("_pivot_role_id", VNum 6)] ].

Definition roles_db (q : Query) (cols : option (list string)) : list Row :=
  if String.eqb (q_table q) "roles" then role_rows else db q cols.

(** Users take their age from the defaults; only posts are timestamped. *)
Definition defaults (c : string) : option Row :=
  if String.eqb c "User" then Some (row [("age", VNum 18); ("name", VStr "anonymous")])
  else None.

Definition hasTimestamps (c : string) : bool := String.eqb c "Post".

Definition now : value := VStr "2013-05-13T10:00:00Z".

(** The store numbers every inserted row 42. *)
Definition insertId (i : Issued) : value :=
  match i with
  | Insert _ _ => VNum 42
  | _ => VUndef
  end.

(** An entity type without defaults. *)
Definition no_defaults (c : string) : option Row := None.

(** The entity of [zed], as the owner of relations. *)
Definition zed_model : Model := mkModel "User" (row [("name", VStr "zed")]) ∅.

(** A tag that the store does not hold, and a post that was never saved. *)
Definition tag3 : Instance :=
  mkInstance (ModelCtor "Tag") (row [("id", VNum 3)]) ∅ [] None None false.

Definition draft : Instance :=
  mkInstance (ModelCtor "Post") (row [("title", VStr "draft")]) ∅ [] None None false.

(** A collection holding one post, whose id and owner are both 1. *)
Definition first_posts : Instance :=
  mkInstance (CollectionCtor "Post") ∅ ∅ [post 1 1] None None false.

(** The users with the posts of each, and each post with its comments and
    its tags. *)
Definition users_with_posts : Instance :=
  mkInstance (CollectionCtor "User") ∅ ∅
    [ mkModel "User" (row [("id", VNum 1)])
        (<["posts" := RCollection (CollectionCtor "Post")
                        [loaded_post 10 1 [comment100]; loaded_post 11 1 []]]> ∅);
      mkModel "User" (row [("id", VNum 2)])
        (<["posts" := RCollection (CollectionCtor "Post") []]> ∅) ]
    None None false.

(** Options: a transaction with the eager loading of posts; a required
    row; [withRelated] given as a string. *)
Definition trx_options : Options :=
  mkOptions (Some "trx") (Some (WRArray ["posts"])) false false.

Definition require_options : Options := mkOptions None None false true.

Definition string_options : Options :=
  mkOptions None (Some (WRString "posts")) false false.

(** The relation target an eager load of the users prepares for their
    roles. *)
Definition eager_roles : Instance :=
  prepared classes
    (EagerRelation.mk users (EagerRelation.load_target users) (EagerRelation.load_data users))
    (ModelCtor "Role")
    (ModelProto.relation_options BelongsToMany "role_id" (Some "user_id") (Some "roles_users")).

(** The pivot columns [created_at], and [level] under the name [rank]. *)
Definition more_columns : WithPivot.Columns :=
  WithPivot.ColumnsArray
    [WithPivot.ColumnName "created_at"; WithPivot.ColumnHash [("level", "rank")]].
End Sample.

(** * Properties *)

(** ** Pivot helpers *)

Section PivotProperties.
Import Pivot.
Implicit Types (pivot : Relation) (options : option Options).

Lemma to_array_void ids : is_void ids = true -> to_array ids = [].
Proof.
  destruct ids as [[[]| |]|]; simpl; try discriminate; reflexivity.
Qed.

Lemma handler_map pivot method ids options :
  to_array ids ≠ [] ->
  _handler pivot method ids options
  = map (handle_item pivot method options) (to_array ids).
Proof.
  intros Hne. unfold _handler.
  destruct (is_void ids) eqn:Hv; [|reflexivity].
  apply to_array_void in Hv. contradiction.
Qed.

Lemma issued_row_handle_item pivot method options item :
  issued_row (handle_item pivot method options item) = Some (data_of pivot item).
Proof.
  unfold handle_item.
  destruct (String.eqb method "delete"); simpl; [|reflexivity].
  by rewrite last_snoc.
Qed.

(** C7.  [detach()] with [ids] omitted issues no query at all: the join
    rows of the owner are left in place. *)
Theorem detach_without_ids_issues_nothing pivot options :
  detach pivot (IdsOne (ItemValue VUndef)) options = []
  ∧ detach pivot (IdsOne (ItemValue VNull)) options = [].
Proof. split; reflexivity. Qed.

(** C8.  [attach(model)] issues one insert whose row binds the target's
    key to the relation's bound value, whatever the identity of the model
    that was passed. *)
Theorem attach_model_binds_owner_value pivot m options :
  ∃ q, attach pivot (IdsOne (ItemModel m)) options = [Insert q (data_of pivot (ItemModel m))]
    ∧ data_of pivot (ItemModel m) !! foreignKey pivot = Some (fkValue pivot)
    ∧ ∀ m', data_of pivot (ItemModel m') = data_of pivot (ItemModel m).
Proof.
  eexists. split; [reflexivity|]. split; [|reflexivity].
  simpl. apply lookup_insert_eq.
Qed.

(** C10.  When an item of [attach] or [detach] is a hash of attributes, the
    issued row is the owner's key bound to the relation's value, with the
    hash merged over it.  Under every key it holds what the hash holds
    there, and where the hash holds nothing, the bound value under the
    owner-side key and nothing elsewhere.  So a hash that holds the
    owner-side key decides its value in the issued row. *)
Theorem hash_item_overrides_owner_key pivot method ids options i h :
  to_array ids !! i = Some (ItemHash h) ->
  ∃ q row, _handler pivot method ids options !! i = Some q
    ∧ issued_row q = Some row
    ∧ (∀ k, row !! k
            = match h !! k with
              | Some v => Some v
              | None =>
                  if bool_decide (k = key (otherKey pivot)) then Some (fkValue pivot) else None
              end)
    ∧ ∀ v, h !! key (otherKey pivot) = Some v -> row !! key (otherKey pivot) = Some v.
Proof.
  intros Hi.
  assert (to_array ids ≠ []) as Hne by (intros E; rewrite E in Hi; discriminate).
  rewrite (handler_map _ _ _ _ Hne).
  exists (handle_item pivot method options (ItemHash h)), (data_of pivot (ItemHash h)).
  split; [by rewrite list_lookup_fmap, Hi|].
  split; [apply issued_row_handle_item|].
  assert (∀ k, data_of pivot (ItemHash h) !! k
               = match h !! k with
                 | Some v => Some v
                 | None =>
                     if bool_decide (k = key (otherKey pivot)) then Some (fkValue pivot) else None
                 end) as Hrow.
  { intros k. cbn [data_of]. unfold extend. rewrite lookup_union.
    destruct (h !! k) as [v|]; cbn.
    - by destruct (<[key (otherKey pivot) := fkValue pivot]> (∅ : Row) !! k).
    - rewrite (left_id_L None (∪)), lookup_insert. case_decide as Hk.
      + by rewrite bool_decide_true.
      + by rewrite bool_decide_false, lookup_empty by done. }
  split; [exact Hrow|]. intros v Hv. by rewrite Hrow, Hv.
Qed.

(** On the roles of user 1, [attach({user_id: 9, role_id: 5})] inserts a
    row that names user 9, not user 1, and [detach({role_id: 5})] deletes
    by the row of user 1 and role 5. *)
Lemma hash_item_overrides_owner_key_witness :
  let h := Sample.row [("user_id", VNum 9); ("role_id", VNum 5)] in
  let h' := Sample.row [("role_id", VNum 5)] in
  (∃ q row,
     attach Sample.roles_of_user1 (IdsOne (ItemHash h)) None !! 0 = Some q
     ∧ issued_row q = Some row
     ∧ row !! "user_id" = Some (VNum 9)
     ∧ row !! "role_id" = Some (VNum 5))
  ∧ (∃ q row,
       detach Sample.roles_of_user1 (IdsArray [ItemHash h']) None !! 0 = Some q
       ∧ issued_row q = Some row
       ∧ row !! "user_id" = Some (VNum 1)
       ∧ row !! "role_id" = Some (VNum 5)
       ∧ row !! "id" = None).
Proof.
  intros h h'. split.
  - destruct (hash_item_overrides_owner_key Sample.roles_of_user1 "insert"
                (IdsOne (ItemHash h)) None 0 h eq_refl) as (q & row & Hq & Hr & Hk & _).
    exists q, row. split; [exact Hq|]. split; [exact Hr|].
    split; [exact (Hk "user_id")|exact (Hk "role_id")].
  - destruct (hash_item_overrides_owner_key Sample.roles_of_user1 "delete"
                (IdsArray [ItemHash h']) None 0 h' eq_refl) as (q & row & Hq & Hr & Hk & _).
    exists q, row. split; [exact Hq|]. split; [exact Hr|].
    split; [exact (Hk "user_id")|]. split; [exact (Hk "role_id")|exact (Hk "id")].
Defined.
End PivotProperties.

(** ** The query dispatcher *)

Section SyncProperties.
Variable classes : string -> ModelClass.

Lemma extend_empty (attrs : Row) : extend ∅ attrs = attrs.
Proof. unfold extend. apply (right_id_L ∅ (∪)). Qed.

(** C6.  [update(attrs, options)] on a model sends the model's whole
    formatted attribute map, constrained by identity equality, also when
    [options.partial] is set and [attrs] is given: [attrs] never reaches
    the query. *)
Theorem update_sends_all_attributes (s : Sync.t) (attrs : Row) (options : Options) c :
  ctor (Sync.model s) = ModelCtor c ->
  Sync.update classes s (Some attrs) (Some options)
  = Ok (Update
          (call (CWhereEq (idAttribute (classes c))
                   (prop (inst_attributes (Sync.model s)) (idAttribute (classes c))))
                (Sync.query s))
          (format (classes c) (inst_attributes (Sync.model s)))).
Proof.
  intros Hc. unfold Sync.update, Sync.model_class, Shared.id_of.
  rewrite Hc. simpl. by rewrite extend_empty.
Qed.

(** C9.  [del()] without an identity value and without a where-predicate
    fails and issues nothing; with an identity value the delete is
    constrained by identity equality.  Without an identity value but with
    predicates on the query the guard lets the call pass, and the call
    [where(undefined)] that follows makes the builder fail: the outcome is
    a [TypeError], and no delete is issued under the predicates the query
    carries. *)
Theorem del_guard (s : Sync.t) :
  let id := Shared.id_of classes (Sync.model s) in
  (not_nullish id = false -> wheres_length (Sync.query s) = 0 ->
     Sync.del classes s = Fail DestroyWithoutConstraint)
  ∧ (not_nullish id = true ->
     Sync.del classes s
     = Ok (Delete (call (CWhereHash
                           (Some {[ Shared.result_idAttribute classes (Sync.model s) := id ]}))
                        (Sync.query s))))
  ∧ (not_nullish id = false -> wheres_length (Sync.query s) ≠ 0 ->
     Sync.del classes s = Fail TypeError).
Proof.
  intros id. unfold Sync.del. fold id.
  split; [|split].
  - intros -> ->. reflexivity.
  - intros ->. reflexivity.
  - intros -> Hw. simpl.
    destruct (wheres_length (Sync.query s)); [contradiction|reflexivity].
Qed.
End SyncProperties.

(** [update({name: 'bea'}, {partial: true})] on the dispatcher of a model
    that holds an id, a name and an age: the update carries all three. *)
Lemma update_sends_all_attributes_witness :
  Sync.update Sample.classes Sample.ann_sync
    (Some (Sample.row [("name", VStr "bea")])) (Some Sample.partial_options)
  = Ok (Update (mkQuery "users" [CWhereEq "id" (VNum 1)])
               (Sample.row [("id", VNum 1); ("name", VStr "ann"); ("age", VNum 30)])).
Proof.
  exact (update_sends_all_attributes Sample.classes Sample.ann_sync
           (Sample.row [("name", VStr "bea")]) Sample.partial_options "User" eq_refl).
Defined.

(** A dispatcher over the collection of users, with no constraint applied,
    refuses to delete; one over user 1 deletes by identity; one over the
    profile of user 1, reached through the relation and so constrained by
    [user_id = 1], fails with a [TypeError]. *)
Lemma del_guard_witness :
  (∃ s, Sync.new Sample.classes Sample.users None = Ok s
        ∧ Sync.del Sample.classes s = Fail DestroyWithoutConstraint)
  ∧ (∃ s, Sync.new Sample.classes Sample.user1 None = Ok s
        ∧ Sync.del Sample.classes s
          = Ok (Delete (mkQuery "users" [CWhereHash (Some {[ "id" := VNum 1 ]})])))
  ∧ (∃ profile s,
       ModelProto.invoke Sample.classes Sample.singularize Sample.reserved
         (Sample.user 1) false "profile" = Ok (Some profile)
       ∧ Sync.new Sample.classes profile None = Ok s
       ∧ Sync.query s = mkQuery "profiles" [CWhere "user_id" "=" (VNum 1)]
       ∧ Sync.del Sample.classes s = Fail TypeError).
Proof.
  split; [|split].
  - eexists. split; [reflexivity|]. apply (del_guard Sample.classes); reflexivity.
  - eexists. split; [reflexivity|]. apply (del_guard Sample.classes); reflexivity.
  - eexists _, _. split; [reflexivity|]. split; [reflexivity|]. split; [reflexivity|].
    apply (del_guard Sample.classes); [reflexivity | vm_compute; discriminate].
Defined.

(** ** Relation accessors *)

Section AccessorProperties.
Variable classes : string -> ModelClass.
Variable singularize : string -> string.

(** The guard of [_relatesTo] tests [(!Target.prototype) instanceof Model],
    which no target satisfies. *)
Lemma guard_never_fires (Target : Ctor) :
  ModelProto.instanceof_Model (ModelProto.js_not (ModelProto.JPrototype Target)) = false.
Proof. reflexivity. Qed.

Lemma relatesTo_returns (this : Model) (eager : bool) (Target : Ctor) (options : Relation) :
  ∃ target, ModelProto._relatesTo classes this eager Target options = Ok target
    ∧ ∃ r, _relation target = Some r ∧ type r = type options
        ∧ foreignKey r = foreignKey options
        ∧ otherKey r = otherKey options
        ∧ ctor target
          = (if bool_decide (type options = HasMany) || bool_decide (type options = BelongsToMany)
             then CollectionCtor (Shared.class_of Target) else Target).
Proof.
  unfold ModelProto._relatesTo.
  destruct options as [ty fk ok jt pc cs fv pia mc cc pr]; simpl.
  destruct ty, Target, eager; simpl; eexists; (split; [reflexivity|]);
    simpl; eexists; (split; [reflexivity|]); simpl; auto.
Qed.

(** C4.  [hasOne] and [belongsTo] called with a collection constructor do
    not fail: they return an instance of that collection, and no call of
    [_relatesTo] ever fails with the type mismatch. *)
Theorem single_relation_accepts_collection (this : Model) (eager : bool)
    (c : string) (k : option string) :
  (∃ target, ModelProto.hasOne classes singularize this eager (CollectionCtor c) k = Ok target
             ∧ ctor target = CollectionCtor c)
  ∧ (∃ target, ModelProto.belongsTo classes singularize this eager (CollectionCtor c) k = Ok target
             ∧ ctor target = CollectionCtor c)
  ∧ ∀ Target options type,
      ModelProto._relatesTo classes this eager Target options
      ≠ Fail (RelationTypeMismatch type).
Proof.
  split; [|split].
  - unfold ModelProto.hasOne.
    destruct (relatesTo_returns this eager (CollectionCtor c)
                (ModelProto.relation_options HasOne
                   (or_default k (singularize (ModelProto.this_tableName classes this) +:+ "_id"))
                   None None))
      as (target & -> & r & _ & _ & _ & _ & Hc).
    exists target. split; [reflexivity | exact Hc].
  - unfold ModelProto.belongsTo.
    match goal with
    | |- ∃ _, ModelProto._relatesTo _ _ _ ?T ?o = _ ∧ _ =>
        destruct (relatesTo_returns this eager T o)
          as (target & -> & r & _ & _ & _ & _ & Hc)
    end.
    exists target. split; [reflexivity | exact Hc].
  - intros Target options ty.
    destruct (relatesTo_returns this eager Target options) as (target & -> & _).
    discriminate.
Qed.
End AccessorProperties.

(** ** Paths *)

Section PathProperties.

Lemma split_nonempty s : split "." s ≠ [].
Proof.
  destruct s as [|ch s]; simpl; [done|].
  destruct (Ascii.eqb ch "."); [done|]. by destruct (split "." s).
Qed.

(** A path whose first segment is [a] and whose rest is [s]. *)
Lemma split_segment a s :
  split "." a = [a] -> split "." (a +:+ "." +:+ s) = a :: split "." s.
Proof.
  induction a as [|ch a IH]; simpl; [done|].
  destruct (Ascii.eqb ch "."); [discriminate|].
  destruct (split "." a) as [|h t] eqn:E; [by destruct (split_nonempty a)|].
  intros [= -> ->]. by rewrite IH.
Qed.

Lemma split_segments s : Forall (fun a => split "." a = [a]) (split "." s).
Proof.
  induction s as [|ch s IH]; simpl; [by constructor|].
  destruct (Ascii.eqb ch ".") eqn:Hch; [by constructor|].
  destruct (split "." s) as [|h t] eqn:E; [by destruct (split_nonempty s)|].
  inversion IH as [|? ? Hh Ht]; subst. constructor; [|done].
  simpl. by rewrite Hch, Hh.
Qed.

Lemma split_join l :
  l ≠ [] -> Forall (fun a => split "." a = [a]) l -> split "." (join "." l) = l.
Proof.
  induction l as [|a l IH]; [done|]. intros _ Hl.
  inversion Hl as [|? ? Ha Hl']; subst.
  destruct l as [|b l]; [done|].
  change (join "." (a :: b :: l)) with (a +:+ "." +:+ join "." (b :: l)).
  rewrite split_segment by done. by rewrite IH.
Qed.

(** The suffix of a path has one segment less than the path. *)
Lemma suffix_length path :
  1 < length (split "." path) ->
  S (length (split "." (join "." (tail (split "." path))))) = length (split "." path).
Proof.
  intros Hlen. pose proof (split_segments path) as Hs.
  destruct (split "." path) as [|a [|b l]]; cbn [length tail] in *; try lia.
  inversion Hs; subst. by rewrite split_join.
Qed.

End PathProperties.

(** ** Eager loading *)

Section EagerProperties.
Variable classes : string -> ModelClass.
Variable singularize : string -> string.
Variable db : Query -> option (list string) -> list Row.
Variable reset : Ctor -> list Model -> list Model.
Variable reserved : string -> bool.

Import EagerRelation.

Lemma relatesTo_eager (this : Model) (Target : Ctor) (o : Relation) :
  let multi := ModelProto.multi (type o) in
  let T := if multi then CollectionCtor (Shared.class_of Target) else Target in
  ModelProto._relatesTo classes this true Target o
  = Ok (mkInstance T ∅ ∅ []
          (Some (mkRelation (type o) (foreignKey o) (otherKey o) (joinTableName o)
                   (pivotColumns o) (columns o) (fkValue o)
                   (Some (idAttribute (classes (m_class this))))
                   (if multi then Some (ModelCtor (Shared.class_of Target)) else Some Target)
                   (if multi then Some T else collectionCtor o)
                   (relation_parentResponse o)))
          None (bool_decide (type o = BelongsToMany))).
Proof.
  destruct o as [ty fk ok jt pc cs fv pia mc cc pr].
  destruct ty, Target; reflexivity.
Qed.

Lemma invoke_accessor (this : Model) (eager : bool) name :
  ModelProto.invoke classes singularize reserved this eager name
  = match methods (classes (m_class this)) !! name with
    | None => Fail (if reserved name then Unmodelled else TypeError)
    | Some acc =>
        match accessor_options classes singularize this acc with
        | Some (T, o) => Some <$> ModelProto._relatesTo classes this eager T o
        | None => Ok None
        end
    end.
Proof.
  unfold ModelProto.invoke.
  destruct (methods (classes (m_class this)) !! name) as [[]|]; try reflexivity.
  by destruct (reserved name).
Qed.

(** *** The first loop: one relation per distinct name *)

Lemma relate_new this path paths handled sub acc T o :
  let name := default "" (head (split "." path)) in
  handled_lookup handled name = None ->
  methods (classes (m_class (target this))) !! name = Some acc ->
  accessor_options classes singularize (target this) acc = Some (T, o) ->
  relate classes singularize reserved this (path :: paths) handled sub
  = relate classes singularize reserved this paths
      (handled ++ [(name, prepared classes this T o)]) (record_suffix path sub).
Proof.
  intros name Hh Hm Ho. cbn [relate]. fold name. rewrite Hh.
  rewrite bool_decide_false by (intros [? ?]; discriminate).
  rewrite invoke_accessor, Hm, Ho, relatesTo_eager. reflexivity.
Qed.

Lemma relate_seen this path paths handled sub :
  let name := default "" (head (split "." path)) in
  is_Some (handled_lookup handled name) ->
  relate classes singularize reserved this (path :: paths) handled sub
  = relate classes singularize reserved this paths handled (record_suffix path sub).
Proof.
  intros name Hh. cbn [relate]. fold name. by rewrite bool_decide_true.
Qed.

Lemma relate_missing_head this path paths handled sub :
  let name := default "" (head (split "." path)) in
  handled_lookup handled name = None ->
  methods (classes (m_class (target this))) !! name = None ->
  relate classes singularize reserved this (path :: paths) handled sub
  = Fail (if reserved name then Unmodelled else TypeError).
Proof.
  intros name Hh Hm. cbn [relate]. fold name. rewrite Hh.
  rewrite bool_decide_false by (intros [? ?]; discriminate).
  by rewrite invoke_accessor, Hm.
Qed.

Lemma relate_nothing_head this path paths handled sub :
  let name := default "" (head (split "." path)) in
  handled_lookup handled name = None ->
  methods (classes (m_class (target this))) !! name = Some AccNothing ->
  relate classes singularize reserved this (path :: paths) handled sub = Fail TypeError.
Proof.
  intros name Hh Hm. cbn [relate]. fold name. rewrite Hh.
  rewrite bool_decide_false by (intros [? ?]; discriminate).
  by rewrite invoke_accessor, Hm.
Qed.

Lemma handled_lookup_app handled name name' (i : Instance) :
  handled_lookup (handled ++ [(name', i)]) name
  = match handled_lookup handled name with
    | Some j => Some j
    | None => if String.eqb name' name then Some i else None
    end.
Proof.
  unfold handled_lookup. induction handled as [|[k v] handled IH]; simpl.
  - by destruct (String.eqb name' name).
  - destruct (String.eqb k name); [done|]. exact IH.
Qed.

(** [relate] fails with a [TypeError], or at a reserved name, or not at
    all: the test that would raise [UnknownRelation] comes after the
    relation was dereferenced. *)
Lemma relate_fails_with_TypeError this paths handled sub e :
  relate classes singularize reserved this paths handled sub = Fail e ->
  e = TypeError ∨ e = Unmodelled.
Proof.
  revert handled sub. induction paths as [|path paths IH]; intros handled sub; [done|].
  pose (name := default "" (head (split "." path))).
  destruct (handled_lookup handled name) as [i|] eqn:Hh.
  - rewrite relate_seen by (fold name; rewrite Hh; eauto). apply IH.
  - destruct (methods (classes (m_class (target this))) !! name) as [acc|] eqn:Hm.
    + destruct (accessor_options classes singularize (target this) acc) as [[T o]|] eqn:Ho.
      * rewrite (relate_new _ _ _ _ _ acc T o) by done. apply IH.
      * destruct acc; try discriminate.
        rewrite relate_nothing_head by done. intros [= <-]. by left.
    + rewrite relate_missing_head by done. intros [= <-].
      destruct (reserved _); auto.
Qed.

(** A path whose first segment names no method makes [relate] fail,
    wherever it stands in the list. *)
Lemma relate_missing this paths handled sub path :
  path ∈ paths ->
  methods (classes (m_class (target this))) !! default "" (head (split "." path)) = None ->
  Forall (fun p => reserved (default "" (head (split "." p))) = false) paths ->
  (∀ n, is_Some (handled_lookup handled n) ->
        is_Some (methods (classes (m_class (target this))) !! n)) ->
  relate classes singularize reserved this paths handled sub = Fail TypeError.
Proof.
  intros Hin Hm Hres. revert handled sub.
  induction paths as [|p paths IH]; intros handled sub Hinv; [by apply elem_of_nil in Hin|].
  inversion Hres as [|? ? Hp Hres']; subst.
  pose (name := default "" (head (split "." p))).
  destruct (handled_lookup handled name) as [i|] eqn:Hh.
  - assert (is_Some (handled_lookup handled name)) as Hs by (rewrite Hh; eauto).
    rewrite relate_seen by done.
    apply elem_of_cons in Hin as [->|Hin]; [|by apply IH].
    apply Hinv in Hs. fold name in Hm. rewrite Hm in Hs. by destruct Hs.
  - destruct (methods (classes (m_class (target this))) !! name) as [acc|] eqn:Hacc.
    + destruct (accessor_options classes singularize (target this) acc) as [[T o]|] eqn:Ho.
      * rewrite (relate_new _ _ _ _ _ acc T o) by done.
        apply elem_of_cons in Hin as [->|Hin].
        { fold name in Hm. congruence. }
        apply IH; [done|done|]. intros n. rewrite handled_lookup_app.
        destruct (handled_lookup handled n) eqn:Hn; [intros _; apply Hinv; rewrite Hn; eauto|].
        unfold name in *.
        destruct (String.eqb _ n) eqn:Hnn; [|intros Hx; by apply is_Some_None in Hx].
        apply String.eqb_eq in Hnn as <-. rewrite Hacc. eauto.
      * destruct acc; try discriminate. by rewrite relate_nothing_head.
    + rewrite relate_missing_head by done. unfold name in *. by rewrite Hp.
Qed.

(** *** The second loop: one query per handled name *)

Lemma processRelated_S fuel this options :
  processRelated classes singularize db reset reserved (S fuel) this options
  = match
      (match withRelated options with
       | None => Fail TypeError
       | Some w => relate classes singularize reserved this (items w) [] ∅
       end)
    with
    | Fail e => ([], Fail e)
    | Ok (handled, subRelated) =>
        let pending :=
          fetch_all (fetch classes db (processRelated classes singularize db reset reserved fuel))
            handled subRelated (transacting options) in
        (sent pending ++ nested_sent pending,
         match thrown pending with
         | Some e => Fail e
         | None =>
             handled ← settled_all pending;
             matchResponses classes reset (parent this) handled
         end)
    end.
Proof. reflexivity. Qed.

Lemma query_query_call c (this : Instance) :
  Shared.query classes (Shared.query_call classes c this)
  = call c (Shared.query classes this).
Proof. reflexivity. Qed.

Lemma reset_after_call c (this : Instance) :
  _builder this = None ->
  Shared.resetQuery (Shared.set_models [] (Shared.query_call classes c this))
  = Shared.set_models [] this.
Proof. destruct this; simpl; intros ->; reflexivity. Qed.

Lemma construct_all_model c rows :
  construct_all classes (Some (ModelCtor c)) rows
  = Ok (map (fun row => mkModel c (parse (classes c) row) ∅) rows).
Proof. induction rows as [|row rows IH]; simpl; [done|]. by rewrite IH. Qed.

(** [fetch] on the target of a hasOne, hasMany or belongsTo relation that
    [processRelated] prepared: the query it sends and what it does with
    the rows. *)
Lemma fetch_simple P (rel : Instance) (r : Relation) resp options :
  _relation rel = Some r -> type r ≠ BelongsToMany ->
  relation_parentResponse r = Some resp -> _builder rel = None ->
  let q := mkQuery (Shared.result_tableName classes rel)
             [CWhereIn (foreignKey r) (pluck resp (key (parentIdAttr r)))] in
  let rows := db q (columns r) in
  fetch classes db P rel options
  = if 0 <? length rows then
      match construct_all classes (modelCtor r) (skim rows) with
      | Fail e => Sent (Select q (columns r)) [] (Fail e)
      | Ok models =>
          if withRelated_truthy (withRelated options) then
            match construct classes (modelCtor r) None with
            | Fail e => Sent (Select q (columns r)) [] (Fail e)
            | Ok model =>
                let '(nested, s) := P (mk (Shared.set_models models rel) model rows) options in
                Sent (Select q (columns r)) nested s
            end
          else Sent (Select q (columns r)) [] (Ok (Shared.set_models models rel))
      end
    else Sent (Select q (columns r)) [] (Ok (Shared.set_models [] rel)).
Proof.
  intros Hr Hty Hpr Hb q rows.
  assert (Shared.query classes rel = mkQuery (Shared.result_tableName classes rel) []) as Hq
    by (unfold Shared.query; rewrite Hb; reflexivity).
  unfold fetch, Shared.relation_of. rewrite Hr. simpl.
  unfold Constraints.addConstraints. rewrite bool_decide_true by done.
  unfold Constraints.constraints, Shared.relation_of. rewrite Hr, Hpr. simpl.
  rewrite Hr. simpl. rewrite !query_query_call, Hq.
  change (call _ _) with q. fold rows.
  rewrite reset_after_call by done.
  destruct (0 <? length rows); [|done].
  by destruct (construct_all classes (modelCtor r) (skim rows)) as [models|e].
Qed.

(** Whatever the rows, such a fetch sends exactly its one query when no
    deeper path was requested under its name. *)
Lemma fetch_sends P (rel : Instance) (r : Relation) resp options :
  _relation rel = Some r -> type r ≠ BelongsToMany ->
  relation_parentResponse r = Some resp -> _builder rel = None ->
  ∃ nested settled,
    fetch classes db P rel options
    = Sent (Select (mkQuery (Shared.result_tableName classes rel)
                      [CWhereIn (foreignKey r) (pluck resp (key (parentIdAttr r)))])
                   (columns r)) nested settled
    ∧ (withRelated options = None -> nested = []).
Proof.
  intros Hr Hty Hpr Hb. rewrite (fetch_simple P rel r resp) by done.
  repeat match goal with
         | |- context [if ?b then _ else _] => destruct b eqn:?
         | |- context [match ?x with Ok _ => _ | Fail _ => _ end] => destruct x
         | |- context [let '(_, _) := ?x in _] => destruct x
         end; eexists _, _; (split; [reflexivity|]); try done.
  intros E. rewrite E in *. discriminate.
Qed.

(** A fetch with no deeper path stores the entities built from its rows. *)
Lemma fetch_leaf P (rel : Instance) (r : Relation) resp options c :
  _relation rel = Some r -> type r ≠ BelongsToMany ->
  relation_parentResponse r = Some resp -> _builder rel = None ->
  modelCtor r = Some (ModelCtor c) -> withRelated options = None ->
  let q := mkQuery (Shared.result_tableName classes rel)
             [CWhereIn (foreignKey r) (pluck resp (key (parentIdAttr r)))] in
  fetch classes db P rel options
  = Sent (Select q (columns r)) []
      (Ok (Shared.set_models (children classes c (db q (columns r))) rel)).
Proof.
  intros Hr Hty Hpr Hb Hc Hw q. rewrite (fetch_simple P rel r resp) by done.
  fold q. rewrite Hc, Hw, construct_all_model. unfold children. simpl.
  by destruct (db q (columns r)).
Qed.

(** A fetch with deeper paths and a non-empty response hands its rows and
    its entities to the resolver of the next level. *)
Lemma fetch_nested P (rel : Instance) (r : Relation) resp options c l :
  _relation rel = Some r -> type r ≠ BelongsToMany ->
  relation_parentResponse r = Some resp -> _builder rel = None ->
  modelCtor r = Some (ModelCtor c) -> withRelated options = Some (WRArray l) ->
  let q := mkQuery (Shared.result_tableName classes rel)
             [CWhereIn (foreignKey r) (pluck resp (key (parentIdAttr r)))] in
  let rows := db q (columns r) in
  rows ≠ [] ->
  fetch classes db P rel options
  = let next := P (mk (Shared.set_models (children classes c rows) rel)
                      (mkModel c ∅ ∅) rows) options in
    Sent (Select q (columns r)) (fst next) (snd next).
Proof.
  intros Hr Hty Hpr Hb Hc Hw q rows Hrows. rewrite (fetch_simple P rel r resp) by done.
  fold q rows. rewrite Hc, Hw, construct_all_model. unfold children. simpl.
  destruct rows; [done|]. simpl. by destruct (P _ _).
Qed.

Lemma batched_query_options c acc rows q :
  batched_query classes singularize c acc rows = Some q ->
  ∃ T o, (∀ a r, accessor_options classes singularize (mkModel c a r) acc = Some (T, o))
    ∧ type o ≠ BelongsToMany ∧ columns o = None
    ∧ q = Select (mkQuery (tableName (classes (Shared.class_of T)))
                    [CWhereIn (foreignKey o) (pluck rows (idAttribute (classes c)))]) None.
Proof.
  destruct acc as [T ?|T ?|[t|t] ?|? ? ? ?|]; simpl; try discriminate;
    intros [= <-]; eexists _, _; (split; [reflexivity|]); done.
Qed.

Lemma prepared_table this T o :
  Shared.result_tableName classes (prepared classes this T o)
  = tableName (classes (Shared.class_of T)).
Proof. unfold Shared.result_tableName, prepared. simpl. by destruct (ModelProto.multi (type o)).
    Qed.

Lemma load_target_class (this : Instance) :
  m_class (load_target this) = Shared.class_of (ctor this).
Proof. unfold load_target. by destruct (ctor this). Qed.

Lemma load_S this relations options :
  load classes singularize db reset reserved this relations options
  = let paths := relations_array relations in
    match relate classes singularize reserved (mk this (load_target this) (load_data this)) paths
        [] ∅ with
    | Fail e => ([], Fail e)
    | Ok (handled, subRelated) =>
        let pending :=
          fetch_all (fetch classes db (processRelated classes singularize db reset reserved (depth
              paths)))
            handled subRelated (options ≫= transacting) in
        (sent pending ++ nested_sent pending,
         match thrown pending with
         | Some e => Fail e
         | None =>
             handled ← settled_all pending;
             matchResponses classes reset this handled
         end)
    end.
Proof. unfold load. by rewrite processRelated_S. Qed.

(** *** The batching rule *)

Lemma load_one_relation (this : Instance) name acc T o options :
  split "." name = [name] ->
  methods (classes (Shared.class_of (ctor this))) !! name = Some acc ->
  accessor_options classes singularize (load_target this) acc = Some (T, o) ->
  type o ≠ BelongsToMany ->
  fst (load classes singularize db reset reserved this (RelArray [name]) options)
  = [Select (mkQuery (tableName (classes (Shared.class_of T)))
               [CWhereIn (foreignKey o)
                  (pluck (load_data this) (idAttribute (classes (Shared.class_of (ctor this)))))])
            (columns o)].
Proof.
  intros Hs Hm Ho Hty. rewrite load_S. cbn [relations_array].
  rewrite (relate_new _ _ _ _ _ acc T o); rewrite ?Hs; cbn [head default target];
    rewrite ?load_target_class; try done.
  cbn [relate fetch_all app id].
  edestruct fetch_sends as (nested & settled & -> & Hn);
    [reflexivity|exact Hty|reflexivity|reflexivity|].
  rewrite Hn by (unfold record_suffix; rewrite Hs; reflexivity).
  cbn. rewrite prepared_table, load_target_class. reflexivity.
Qed.

Lemma constrained_query (owner : Model) name acc T o options :
  methods (classes (m_class owner)) !! name = Some acc ->
  accessor_options classes singularize owner acc = Some (T, o) ->
  type o ≠ BelongsToMany ->
  column_keyed acc = true ->
  let v := if bool_decide (type o = BelongsTo)
           then get owner (key (otherKey o))
           else Shared.model_id classes owner in
  ∃ target s,
    ModelProto.invoke classes singularize reserved owner false name = Ok (Some target)
    ∧ Sync.new classes target options = Ok s
    ∧ Sync.query s
      = mkQuery (tableName (classes (Shared.class_of T)))
          ((if truthy v then [CWhere (foreignKey o) "=" v] else [])
             ++ match options ≫= transacting with
                | Some t => [CTransacting t]
                | None => []
                end).
Proof.
  intros Hm Ho Hty Hkey v. rewrite invoke_accessor, Hm, Ho.
  destruct o as [ty fk ok jt pc cs fv pia mc cc pr]. simpl in *.
  destruct (truthy v) eqn:Hv;
    destruct ty, T; try done; simpl in *;
    (eexists _, _; split; [reflexivity|]);
    unfold Sync.new; simpl; fold v; rewrite Hv; simpl;
    (split; [reflexivity|]); simpl;
    by destruct options as [[[t|] ? ? ?]|].
Qed.

(** *** What a load can fail with *)

Lemma construct_error ctor attrs e :
  construct classes ctor attrs = Fail e -> e = TypeError ∨ e = Unmodelled.
Proof. destruct ctor as [[]|]; simpl; intros [= <-]; auto. Qed.

Lemma construct_all_error ctor rows e :
  construct_all classes ctor rows = Fail e -> e = TypeError ∨ e = Unmodelled.
Proof.
  induction rows as [|row rows IH]; simpl; [done|].
  destruct (construct classes ctor (Some row)) eqn:Hc; simpl.
  - destruct (construct_all classes ctor rows); simpl; [done|]. intros [= <-]. auto.
  - intros [= <-]. by apply construct_error in Hc.
Qed.

Lemma addConstraints_error ty (target : Instance) resp e :
  Constraints.addConstraints classes ty target resp = Fail e -> e = TypeError.
Proof.
  unfold Constraints.addConstraints, Constraints.constraints,
    Constraints.belongsToMany, Shared.relation_of.
  destruct (bool_decide _), (_relation target); simpl; try destruct resp; congruence.
Qed.

Lemma fetch_threw P (rel : Instance) options e :
  fetch classes db P rel options = Threw e -> e = TypeError.
Proof.
  unfold fetch, Shared.relation_of.
  destruct (_relation rel) as [r|]; simpl; [|congruence].
  destruct (Constraints.addConstraints classes (type r) rel (relation_parentResponse r))
    as [rel'|e'] eqn:Ha; simpl.
  - destruct (_relation rel'); simpl; [|congruence].
    repeat match goal with
           | |- context [if ?b then _ else _] => destruct b
           | |- context [match ?x with Ok _ => _ | Fail _ => _ end] => destruct x
           | |- context [let '(_, _) := ?x in _] => destruct x
           end; discriminate.
  - apply addConstraints_error in Ha. congruence.
Qed.

(** A fetch settles with a failure of its own (a constructor that is
    missing or not a model's) or with the failure of the level below,
    which it only enters when deeper paths were requested. *)
Lemma fetch_settled_error P (rel : Instance) options q nested e :
  fetch classes db P rel options = Sent q nested (Fail e) ->
  e = TypeError ∨ e = Unmodelled
  ∨ (withRelated_truthy (withRelated options) = true ∧ ∃ t, snd (P t options) = Fail e).
Proof.
  unfold fetch.
  destruct (_ ≫= _) as [[rel' r]|]; [|discriminate].
  destruct (0 <? _); [|discriminate].
  destruct (construct_all classes (modelCtor r) _) as [ms|e'] eqn:Hall.
  - destruct (withRelated_truthy (withRelated options)) eqn:Hw; [|discriminate].
    destruct (construct classes (modelCtor r) None) as [m|e'] eqn:Hc.
    + match goal with |- context [P ?t options] => destruct (P t options) as [n s] eqn:HP end.
      intros [= _ _ ->]. right. right. split; [done|]. eexists. by rewrite HP.
    + intros [= _ _ ->]. apply construct_error in Hc. tauto.
  - intros [= _ _ ->]. apply construct_all_error in Hall. tauto.
Qed.

Lemma fetch_all_thrown P handled sub tx e :
  thrown (fetch_all (fetch classes db P) handled sub tx) = Some e -> e = TypeError.
Proof.
  induction handled as [|[name rel] handled IH]; simpl; [done|].
  destruct (fetch classes db P rel _) eqn:Hf; simpl; [|exact IH].
  intros [= <-]. by apply fetch_threw in Hf.
Qed.

Lemma fetch_all_settled_error P handled sub tx e :
  settled_all (fetch_all (fetch classes db P) handled sub tx) = Fail e ->
  e = TypeError ∨ e = Unmodelled
  ∨ ∃ name rel l t, (name, rel) ∈ handled ∧ sub !! name = Some l
      ∧ snd (P t (mkOptions tx (Some (WRArray l)) false false)) = Fail e.
Proof.
  induction handled as [|[name rel] handled IH]; simpl; [done|].
  destruct (fetch classes db P rel _) as [|q n [i|e']] eqn:Hf; simpl; [done| |].
  - destruct (settled_all _) eqn:Hs; simpl; [done|]. intros [= ->].
    destruct IH as [?|[?|(name' & rel' & l & t & Hin & Hl & HP)]]; auto.
    right. right. exists name', rel', l, t. split; [by apply list_elem_of_further|done].
  - intros [= ->]. apply fetch_settled_error in Hf as [?|[?|[Hw [t HP]]]]; auto.
    right. right. simpl in *.
    destruct (sub !! name) as [l|] eqn:Hl; [|discriminate].
    exists name, rel, l, t. split; [by apply list_elem_of_here|done].
Qed.

Lemma eagerRelated_error ty (target : Instance) eager id e :
  eagerRelated reset ty target eager id = Fail e -> e = TypeError.
Proof.
  unfold eagerRelated, Shared.relation_of, construct_collection.
  destruct (_relation target) as [r|]; simpl; [|congruence].
  destruct ty; try destruct (findWhere _ _); try destruct (collectionCtor r); congruence.
Qed.

Lemma match_models_error name (relation : Instance) r ms e :
  match_models classes reset name relation r ms = Fail e -> e = TypeError.
Proof.
  induction ms as [|m ms IH]; simpl; [done|].
  destruct (eagerRelated _ _ _ _ _) eqn:He; simpl.
  - destruct (match_models classes reset name relation r ms); simpl; [done|].
    intros [= <-]. by apply IH.
  - intros [= <-]. by apply eagerRelated_error in He.
Qed.

Lemma matchResponses_error (parent : Instance) handled e :
  matchResponses classes reset parent handled = Fail e -> e = TypeError.
Proof.
  revert parent. induction handled as [|[name rel] handled IH]; intros parent; simpl; [done|].
  unfold Shared.relation_of. destruct (_relation rel) as [r|]; simpl; [|congruence].
  destruct (Shared.is_collection parent).
  - destruct (match_models classes reset name rel r (models parent)) eqn:Hm; simpl; [apply IH|].
    intros [= <-]. by apply match_models_error in Hm.
  - destruct (bool_decide (type r = HasOne) || bool_decide (type r = BelongsTo)).
    + destruct (models rel); simpl; [|apply IH].
      unfold construct_related. destruct (modelCtor r) as [[]|]; simpl; try apply IH.
      congruence.
    + unfold construct_collection. destruct (collectionCtor r); simpl; [apply IH|congruence].
Qed.

(** Whatever the paths, the schema and the store, a resolver that fails
    does so with a runtime error: never with [UnknownRelation]. *)
Lemma processRelated_error fuel this options e :
  snd (processRelated classes singularize db reset reserved fuel this options) = Fail e ->
  runtime_error e.
Proof.
  unfold runtime_error.
  revert this options e. induction fuel as [|fuel IH]; intros this options e.
  { simpl. intros [= <-]. auto. }
  rewrite processRelated_S.
  destruct (match withRelated options with Some _ => _ | None => _ end)
    as [[handled sub]|e'] eqn:Hrel.
  - cbn [snd]. destruct (thrown _) eqn:Ht.
    + intros [= <-]. apply fetch_all_thrown in Ht. auto.
    + destruct (settled_all _) eqn:Hs; simpl.
      * intros Hm. apply matchResponses_error in Hm. auto.
      * intros [= <-].
        apply fetch_all_settled_error in Hs as [?|[?|(? & ? & ? & ? & _ & _ & HP)]]; auto.
        by apply IH in HP.
  - simpl. intros [= <-]. destruct (withRelated options); [|injection Hrel; auto].
    apply relate_fails_with_TypeError in Hrel as [?|?]; auto.
Qed.

(** *** The fuel [load] gives the resolver is enough *)

Lemma depth_snoc l s :
  depth (l ++ [s]) = depth l `max` length (split "." s).
Proof.
  unfold depth. rewrite map_app, list_max_app. simpl. lia.
Qed.

Lemma record_suffix_depth path sub d :
  length (split "." path) ≤ d ->
  (∀ name l, sub !! name = Some l -> S (depth l) ≤ d) ->
  ∀ name l, record_suffix path sub !! name = Some l -> S (depth l) ≤ d.
Proof.
  intros Hlen Hsub name l. unfold record_suffix.
  destruct (1 <? length (split "." path)) eqn:Hlt; [|apply Hsub].
  apply Nat.ltb_lt in Hlt. pose proof (suffix_length path Hlt) as Hsuf.
  rewrite lookup_insert. case_decide; [|apply Hsub].
  intros [= <-]. rewrite depth_snoc.
  destruct (sub !! _) as [l0|] eqn:Hl0; simpl.
  - apply Hsub in Hl0. lia.
  - unfold depth. simpl. lia.
Qed.

Lemma relate_suffix_depth this paths handled sub handled' sub' d :
  relate classes singularize reserved this paths handled sub = Ok (handled', sub') ->
  depth paths ≤ d ->
  (∀ name l, sub !! name = Some l -> S (depth l) ≤ d) ->
  ∀ name l, sub' !! name = Some l -> S (depth l) ≤ d.
Proof.
  revert handled sub. induction paths as [|path paths IH]; intros handled sub.
  { simpl. by intros [= _ <-]. }
  intros Hrel Hd Hsub.
  assert (length (split "." path) ≤ d ∧ depth paths ≤ d) as [Hp Hps]
    by (unfold depth in *; simpl in Hd; lia).
  pose proof (record_suffix_depth path sub d Hp Hsub) as Hsub'.
  destruct (handled_lookup handled (default "" (head (split "." path)))) as [i|] eqn:Hh.
  - rewrite relate_seen in Hrel by (rewrite Hh; eauto). by eapply IH.
  - destruct (methods (classes (m_class (target this))) !! default "" (head (split "." path)))
      as [acc|] eqn:Hm.
    + destruct (accessor_options classes singularize (target this) acc) as [[T o]|] eqn:Ho.
      * rewrite (relate_new _ _ _ _ _ acc T o) in Hrel by done. by eapply IH.
      * destruct acc; try discriminate. by rewrite relate_nothing_head in Hrel.
    + by rewrite relate_missing_head in Hrel.
Qed.

Lemma processRelated_fuel n this options :
  (∀ w, withRelated options = Some w -> depth (items w) ≤ n) ->
  snd (processRelated classes singularize db reset reserved (S n) this options) ≠ Fail OutOfFuel.
Proof.
  revert this options. induction n as [|n IH]; intros this options Hd;
    rewrite processRelated_S;
    (destruct (withRelated options) as [w|] eqn:Hw; [|simpl; congruence]);
    specialize (Hd w eq_refl);
    (destruct (relate classes singularize reserved this (items w) [] ∅) as [[handled sub]|e]
        eqn:Hrel;
     [|apply relate_fails_with_TypeError in Hrel as [-> | ->]; simpl; congruence]);
    pose proof (relate_suffix_depth _ _ _ _ _ _ _ Hrel Hd
                  ltac:(intros ? ?; by rewrite lookup_empty)) as Hsub;
    cbn [snd];
    (destruct (thrown _) eqn:Ht;
     [apply fetch_all_thrown in Ht as ->; congruence|]);
    (destruct (settled_all _) eqn:Hs; simpl;
     [intros Hm; by apply matchResponses_error in Hm|]);
    intros [= ->];
    apply fetch_all_settled_error in Hs
      as [?|[?|(name & rel & l & t & _ & Hl & HP)]]; try done;
    apply Hsub in Hl.
  - lia.
  - revert HP. apply IH. simpl. intros ? [= <-]. simpl. lia.
Qed.

(** [load] always settles: it runs out of no resource, and when it fails
    it fails with a [TypeError] or by leaving the embedded fragment. *)
Lemma load_settles this relations options e :
  snd (load classes singularize db reset reserved this relations options) = Fail e ->
  e = TypeError ∨ e = Unmodelled.
Proof.
  intros Hl. pose proof Hl as He. apply processRelated_error in He.
  destruct He as [?|[?| ->]]; auto.
  exfalso. revert Hl. apply processRelated_fuel. by intros ? [= <-].
Qed.

(** *** Unknown relations *)

Lemma load_unknown_relation this relations options path :
  path ∈ relations_array relations ->
  methods (classes (Shared.class_of (ctor this))) !! first_segment path = None ->
  Forall (fun p => reserved (first_segment p) = false) (relations_array relations) ->
  load classes singularize db reset reserved this relations options = ([], Fail TypeError).
Proof.
  intros Hin Hm Hres. rewrite load_S. cbn zeta.
  rewrite (relate_missing _ _ _ _ path); cbn [target]; rewrite ?load_target_class; try done.
  intros n Hn. by apply is_Some_None in Hn.
Qed.

(** A reserved name that the class table lacks takes the resolver out of
    the embedded fragment. *)
Lemma load_reserved_name this name options :
  methods (classes (Shared.class_of (ctor this))) !! first_segment name = None ->
  reserved (first_segment name) = true ->
  load classes singularize db reset reserved this (RelArray [name]) options
  = ([], Fail Unmodelled).
Proof.
  intros Hm Hres. rewrite load_S. cbn [relations_array]. cbv zeta.
  rewrite relate_missing_head; cbn [target]; rewrite ?load_target_class; try done.
  unfold first_segment in Hres. by rewrite Hres.
Qed.

(** *** Matching a hasOne or belongsTo relation *)

Lemma matches_singleton k v (m : Model) :
  matches {[k := v]} m = bool_decide (v = get m k).
Proof. unfold matches. rewrite map_to_list_singleton. simpl. apply andb_true_r. Qed.

Lemma findWhere_singleton eager k v :
  findWhere eager {[k := v]}
  = List.find (fun m => bool_decide (v = get m k)) eager.
Proof.
  unfold findWhere. rewrite bool_decide_false by apply map_non_empty_singleton.
  induction eager as [|m eager IH]; simpl; [done|].
  by rewrite matches_singleton, IH.
Qed.

Lemma findWhere_no_match eager k v :
  (∀ child, child ∈ eager -> get child k ≠ v) ->
  findWhere eager {[k := v]} = None.
Proof.
  rewrite findWhere_singleton. induction eager as [|m eager IH]; intros Hno; simpl; [done|].
  rewrite bool_decide_false.
  - apply IH. intros child Hin. apply Hno. by apply list_elem_of_further.
  - intros E. apply (Hno m); [apply list_elem_of_here|done].
Qed.

(** Each member of a parent collection receives the first child that
    matches its key, and [undefined] when there is none. *)
Lemma match_models_single name (rel : Instance) r ms :
  _relation rel = Some r -> type r = HasOne ∨ type r = BelongsTo ->
  match_models classes reset name rel r ms
  = Ok (map (fun m =>
               set_relation name
                 (from_option RModel RUndefined
                    (findWhere (models rel) {[ foreignKey r := match_key classes r m ]}))
                 m) ms).
Proof.
  intros Hr Hty. induction ms as [|m ms IH]; simpl; [done|].
  rewrite IH. unfold eagerRelated, Shared.relation_of. rewrite Hr. simpl.
  fold (match_key classes r m).
  by destruct Hty as [-> | ->]; simpl; destruct (findWhere _ _).
Qed.

Lemma load_single_relation (this : Instance) name acc ct o options :
  split "." name = [name] ->
  methods (classes (Shared.class_of (ctor this))) !! name = Some acc ->
  accessor_options classes singularize (load_target this) acc = Some (ModelCtor ct, o) ->
  type o = HasOne ∨ type o = BelongsTo ->
  let q := mkQuery (tableName (classes ct))
             [CWhereIn (foreignKey o)
                (pluck (load_data this) (idAttribute (classes (Shared.class_of (ctor this)))))] in
  let kids := children classes ct (db q (columns o)) in
  snd (load classes singularize db reset reserved this (RelArray [name]) options)
  = Ok (if Shared.is_collection this then
          Shared.set_models
            (map (fun m =>
                    set_relation name
                      (from_option RModel RUndefined
                         (findWhere kids {[ foreignKey o := match_key classes o m ]}))
                      m) (models this)) this
        else
          Shared.set_relations
            (<[name := from_option RModel (RModel (mkModel ct ∅ ∅)) (head kids)]>
               (inst_relations this)) this).
Proof.
  intros Hs Hm Ho Hty q kids.
  assert (type o ≠ BelongsToMany) as Hty' by (destruct Hty as [-> | ->]; done).
  assert (ModelProto.multi (type o) = false) as Hmulti by (destruct Hty as [-> | ->]; done).
  rewrite load_S. cbn [relations_array].
  rewrite (relate_new _ _ _ _ _ acc (ModelCtor ct) o); rewrite ?Hs; cbn [head default target];
    rewrite ?load_target_class; try done.
  cbn [relate fetch_all app id].
  set (this' := mk this (load_target this) (load_data this)).
  set (rel := prepared classes this' (ModelCtor ct) o).
  assert (∃ r, _relation rel = Some r ∧ type r = type o ∧ foreignKey r = foreignKey o
               ∧ otherKey r = otherKey o ∧ columns r = columns o
               ∧ modelCtor r = Some (ModelCtor ct)
               ∧ parentIdAttr r = Some (idAttribute (classes (Shared.class_of (ctor this))))
               ∧ relation_parentResponse r = Some (load_data this))
    as (r & Hr & Hrt & Hrf & Hro & Hrc & Hrm & Hrp & Hrr).
  { eexists. split; [reflexivity|]. simpl. rewrite Hmulti, load_target_class. done. }
  rewrite (fetch_leaf _ rel r (load_data this) _ ct); try done;
    [|by rewrite Hrt|by (unfold record_suffix; rewrite Hs)].
  assert (Shared.result_tableName classes rel = tableName (classes ct)) as Htbl
    by apply prepared_table.
  rewrite Hrf, Hrp, Hrc, !Htbl.
  cbn [Shared.class_of key default from_option id]. fold q kids.
  cbn [snd thrown settled_all mbind Result_bind matchResponses].
  unfold Shared.relation_of. cbn [Shared.set_models _relation]. rewrite Hr.
  cbn [mbind Result_bind].
  destruct (Shared.is_collection this).
  - rewrite match_models_single; [|done|by rewrite Hrt].
    cbn [mbind Result_bind Shared.set_models models]. rewrite Hrf.
    do 2 f_equal. apply map_ext. intros m. unfold match_key. by rewrite Hrt, Hro.
  - rewrite Hrt. replace (bool_decide (type o = HasOne) || bool_decide (type o = BelongsTo))
      with true by (destruct Hty as [-> | ->]; done).
    cbn [models Shared.set_models]. rewrite Hrm.
    by destruct kids.
Qed.

(** *** Paths that share their first segment *)

Lemma handled_lookup_singleton name (i : Instance) n :
  handled_lookup [(name, i)] n = if String.eqb name n then Some i else None.
Proof. unfold handled_lookup. simpl. by destruct (String.eqb name n). Qed.

Lemma head_segment a s :
  split "." a = [a] -> default "" (head (split "." (a +:+ "." +:+ s))) = a.
Proof. intros Ha. by rewrite split_segment. Qed.

Lemma record_suffix_segment a s sub :
  split "." a = [a] -> split "." s = [s] ->
  record_suffix (a +:+ "." +:+ s) sub = <[a := default [] (sub !! a) ++ [s]]> sub.
Proof. intros Ha Hs. unfold record_suffix. by rewrite split_segment, Hs. Qed.

(** Two paths under one name: one relation is built for the name, and both
    suffixes are recorded under it, in order. *)
Lemma relate_shared_name this a b c acc T o :
  split "." a = [a] -> split "." b = [b] -> split "." c = [c] ->
  methods (classes (m_class (target this))) !! a = Some acc ->
  accessor_options classes singularize (target this) acc = Some (T, o) ->
  relate classes singularize reserved this [a +:+ "." +:+ b; a +:+ "." +:+ c] [] ∅
  = Ok ([(a, prepared classes this T o)], {[ a := [b; c] ]}).
Proof.
  intros Ha Hb Hc Hm Ho.
  rewrite (relate_new _ _ _ _ _ acc T o); rewrite ?head_segment; try done.
  rewrite relate_seen
    by (rewrite head_segment by done; cbn [app];
        rewrite handled_lookup_singleton, String.eqb_refl; eauto).
  rewrite !record_suffix_segment by done.
  cbn [relate app]. rewrite lookup_empty, lookup_insert_eq. cbn [default from_option id app].
  by rewrite insert_insert_eq.
Qed.

(** A level that asks for two distinct relations, with nothing below
    them, sends two queries. *)
Lemma processRelated_pair n this tx b c acc_b acc_c Tb ob Tc oc :
  split "." b = [b] -> split "." c = [c] -> b ≠ c ->
  methods (classes (m_class (target this))) !! b = Some acc_b ->
  accessor_options classes singularize (target this) acc_b = Some (Tb, ob) ->
  type ob ≠ BelongsToMany ->
  methods (classes (m_class (target this))) !! c = Some acc_c ->
  accessor_options classes singularize (target this) acc_c = Some (Tc, oc) ->
  type oc ≠ BelongsToMany ->
  let ids := pluck (parentResponse this) (idAttribute (classes (m_class (target this)))) in
  fst (processRelated classes singularize db reset reserved (S n) this
         (mkOptions tx (Some (WRArray [b; c])) false false))
  = [ Select (mkQuery (tableName (classes (Shared.class_of Tb)))
                [CWhereIn (foreignKey ob) ids]) (columns ob);
      Select (mkQuery (tableName (classes (Shared.class_of Tc)))
                [CWhereIn (foreignKey oc) ids]) (columns oc) ].
Proof.
  intros Hb Hc Hbc Hmb Hob Htb Hmc Hoc Htc ids.
  rewrite processRelated_S. cbn [withRelated items transacting].
  rewrite (relate_new _ _ _ _ _ acc_b Tb ob); rewrite ?Hb; cbn [head default from_option id];
    try done.
  rewrite (relate_new _ _ _ _ _ acc_c Tc oc); rewrite ?Hc; cbn [head default from_option id app];
    try done.
  2: { rewrite handled_lookup_singleton.
       destruct (String.eqb b c) eqn:E; [|done]. by apply String.eqb_eq in E. }
  assert (record_suffix c (record_suffix b ∅) = ∅) as ->
    by (unfold record_suffix; by rewrite Hb, Hc).
  cbn [relate fetch_all].
  edestruct (fetch_sends (processRelated classes singularize db reset reserved n)
               (prepared classes this Tb ob)) as (nb & sb & -> & Hnb);
    [reflexivity|exact Htb|reflexivity|reflexivity|].
  edestruct (fetch_sends (processRelated classes singularize db reset reserved n)
               (prepared classes this Tc oc)) as (nc & sc & -> & Hnc);
    [reflexivity|exact Htc|reflexivity|reflexivity|].
  rewrite Hnb, Hnc by (cbn; by rewrite lookup_empty).
  cbn. by rewrite !prepared_table.
Qed.

(** *** Every level: one relation and one query per distinct name *)

Lemma handled_lookup_is_Some (handled : list (string * Instance)) n :
  is_Some (handled_lookup handled n) ↔ n ∈ handled.*1.
Proof.
  unfold handled_lookup. induction handled as [|[k v] handled IH]; simpl.
  - split; [intros Hx; by apply is_Some_None in Hx|intros Hx; by apply elem_of_nil in Hx].
  - rewrite elem_of_cons. destruct (String.eqb k n) eqn:E; simpl.
    + apply String.eqb_eq in E as ->. split; eauto.
    + apply String.eqb_neq in E. rewrite IH. split; [auto|]. intros [->|?]; [done|auto].
Qed.

Lemma record_suffix_lookup path sub n :
  default [] (record_suffix path sub !! n)
  = default [] (sub !! n) ++ suffixes n [path].
Proof.
  unfold record_suffix, suffixes, first_segment. cbn [omap list_omap].
  destruct (1 <? length (split "." path)); rewrite ?andb_false_r, ?andb_true_r.
  2: { by rewrite app_nil_r. }
  rewrite lookup_insert. destruct (String.eqb _ n) eqn:E.
  - apply String.eqb_eq in E as <-. by rewrite decide_True.
  - apply String.eqb_neq in E. rewrite decide_False by done. simpl. by rewrite app_nil_r.
Qed.

Lemma record_suffix_nonempty path sub :
  (∀ n, sub !! n ≠ Some []) -> ∀ n, record_suffix path sub !! n ≠ Some [].
Proof.
  intros Hsub n. unfold record_suffix. destruct (1 <? _); [|apply Hsub].
  rewrite lookup_insert. case_decide; [|apply Hsub].
  intros [= E]. by apply app_eq_nil in E as [_ ?].
Qed.

Lemma suffixes_cons n path paths :
  suffixes n (path :: paths) = suffixes n [path] ++ suffixes n paths.
Proof. unfold suffixes. cbn [omap list_omap]. by destruct (_ && _). Qed.

(** What the first loop leaves: the names it handled are the distinct first
    segments, each with a relation that carries its hash, and under each
    name every suffix that was requested, duplicates of the name included. *)
Lemma relate_general this paths handled sub handled' sub' :
  relate classes singularize reserved this paths handled sub = Ok (handled', sub') ->
  NoDup handled.*1 ->
  Forall (fun kv => is_Some (_relation kv.2) ∧ _builder kv.2 = None) handled ->
  (∀ n, sub !! n ≠ Some []) ->
  NoDup handled'.*1
  ∧ (∀ n, n ∈ handled'.*1 ↔ n ∈ handled.*1 ∨ n ∈ map first_segment paths)
  ∧ Forall (fun kv => is_Some (_relation kv.2) ∧ _builder kv.2 = None) handled'
  ∧ (∀ n, default [] (sub' !! n) = default [] (sub !! n) ++ suffixes n paths)
  ∧ (∀ n, sub' !! n ≠ Some []).
Proof.
  revert handled sub. induction paths as [|path paths IH]; intros handled sub.
  { simpl. intros [= <- <-] Hnd Hrel Hsub.
    split; [done|]. split; [intros n; rewrite elem_of_nil; tauto|].
    split; [done|]. split; [|done]. intros n. by rewrite app_nil_r. }
  intros Hr Hnd Hrel Hsub.
  pose proof (record_suffix_nonempty path sub Hsub) as Hsub'.
  assert (∀ h', relate classes singularize reserved this paths h' (record_suffix path sub)
                   = Ok (handled', sub') ->
            NoDup h'.*1 ->
            Forall (fun kv => is_Some (_relation kv.2) ∧ _builder kv.2 = None) h' ->
            (∀ n, n ∈ h'.*1 ↔ n ∈ handled.*1 ∨ n = first_segment path) ->
            NoDup handled'.*1
            ∧ (∀ n, n ∈ handled'.*1 ↔ n ∈ handled.*1 ∨ n ∈ map first_segment (path :: paths))
            ∧ Forall (fun kv => is_Some (_relation kv.2) ∧ _builder kv.2 = None) handled'
            ∧ (∀ n, default [] (sub' !! n) = default [] (sub !! n) ++ suffixes n (path :: paths))
            ∧ (∀ n, sub' !! n ≠ Some [])) as Hstep.
  { intros h' Hr' Hnd' Hrel' Hnames.
    destruct (IH _ _ Hr' Hnd' Hrel' Hsub') as (H1 & H2 & H3 & H4 & H5).
    split; [done|]. split.
    { intros n. rewrite H2, Hnames. cbn [map]. rewrite elem_of_cons. tauto. }
    split; [done|]. split; [|done].
    intros n. by rewrite H4, record_suffix_lookup, (suffixes_cons n path paths), <- app_assoc. }
  unfold first_segment in *.
  destruct (handled_lookup handled (default "" (head (split "." path)))) as [i|] eqn:Hh.
  - assert (is_Some (handled_lookup handled (default "" (head (split "." path))))) as Hs by
      (rewrite Hh; eauto).
    rewrite relate_seen in Hr by done.
    apply (Hstep handled); try done.
    intros n. apply handled_lookup_is_Some in Hs. split; [auto|]. by intros [?| ->].
  - destruct (methods (classes (m_class (target this))) !! default "" (head (split "." path)))
      as [acc|] eqn:Hm.
    + destruct (accessor_options classes singularize (target this) acc) as [[T o]|] eqn:Ho.
      * rewrite (relate_new _ _ _ _ _ acc T o) in Hr by done.
        eapply Hstep; [exact Hr|..].
        -- rewrite fmap_app. apply NoDup_app. split; [done|]. split; [|apply NoDup_singleton].
           intros n Hn. cbn. rewrite list_elem_of_singleton. intros ->.
           apply handled_lookup_is_Some in Hn. rewrite Hh in Hn. by apply is_Some_None in Hn.
        -- apply Forall_app. split; [done|]. apply Forall_singleton. split; [eauto|done].
        -- intros n. rewrite fmap_app, elem_of_app. cbn. by rewrite list_elem_of_singleton.
      * destruct acc; try discriminate. by rewrite relate_nothing_head in Hr.
    + by rewrite relate_missing_head in Hr.
Qed.

(** A fetch on a relation target whose builder is fresh sends a select on
    the table of the target, whatever the kind of the relation. *)
Lemma fetch_sends_select P (rel : Instance) options :
  is_Some (_relation rel) -> _builder rel = None ->
  ∃ q cols nested settled,
    fetch classes db P rel options = Sent (Select q cols) nested settled
    ∧ q_table q = Shared.result_tableName classes rel.
Proof.
  intros [r Hr] Hb. unfold fetch, Shared.relation_of. rewrite Hr. cbn [mbind Result_bind].
  assert (∃ rel' r', Constraints.addConstraints classes (type r) rel (relation_parentResponse r)
                     = Ok rel'
                     ∧ _relation rel' = Some r'
                     ∧ q_table (Shared.query classes rel') = Shared.result_tableName classes rel)
    as (rel' & r' & -> & Hr' & Hq).
  { unfold Constraints.addConstraints, Constraints.constraints, Constraints.belongsToMany,
      Shared.relation_of.
    rewrite Hr. cbn [mbind Result_bind].
    destruct (bool_decide (type r ≠ BelongsToMany)), (relation_parentResponse r);
      eexists _, _; (split; [reflexivity|]); (split; [try reflexivity; exact Hr|]);
      simpl; unfold Shared.query; rewrite ?Hb; reflexivity. }
  cbn [mbind Result_bind]. rewrite Hr'. cbn [mbind Result_bind].
  repeat match goal with
         | |- context [if ?b then _ else _] => destruct b
         | |- context [match ?x with Ok _ => _ | Fail _ => _ end] => destruct x
         | |- context [let '(_, _) := ?x in _] => destruct x
         end; eexists _, _, _, _; (split; [reflexivity|exact Hq]).
Qed.

(** The second loop sends one select per handled name, in order, on the
    table of that name's relation; none of its fetches throws. *)
Lemma fetch_all_sends P handled sub tx :
  Forall (fun kv => is_Some (_relation kv.2) ∧ _builder kv.2 = None) handled ->
  let pending := fetch_all (fetch classes db P) handled sub tx in
  thrown pending = None
  ∧ Forall2 (fun (kv : string * Instance) i =>
               ∃ q cols, i = Select q cols
                 ∧ q_table q = Shared.result_tableName classes kv.2)
            handled (sent pending).
Proof.
  induction handled as [|[name rel] handled IH]; intros Hall; cbn [fetch_all].
  { split; [done|constructor]. }
  inversion Hall as [|? ? [Hr Hb] Hall']; subst. cbn [snd] in *.
  destruct (fetch_sends_select P rel
              (mkOptions tx (WRArray <$> sub !! name) false false) Hr Hb)
    as (q & cols & nested & settled & -> & Hq).
  destruct (IH Hall') as [Ht Hs]. cbn [thrown sent]. split; [done|].
  constructor; [|done]. eauto.
Qed.

Lemma relate_prepared this paths handled sub handled' sub' :
  relate classes singularize reserved this paths handled sub = Ok (handled', sub') ->
  Forall (prepared_entry classes singularize this) handled ->
  Forall (prepared_entry classes singularize this) handled'.
Proof.
  revert handled sub. induction paths as [|path paths IH]; intros handled sub.
  { simpl. by intros [= <- _]. }
  intros Hr Hall.
  destruct (handled_lookup handled (default "" (head (split "." path)))) as [i|] eqn:Hh.
  - rewrite relate_seen in Hr by (rewrite Hh; eauto). by eapply IH.
  - destruct (methods (classes (m_class (target this))) !! default "" (head (split "." path)))
      as [acc|] eqn:Hm.
    + destruct (accessor_options classes singularize (target this) acc) as [[T o]|] eqn:Ho.
      * rewrite (relate_new _ _ _ _ _ acc T o) in Hr by done.
        eapply IH; [exact Hr|]. apply Forall_app. split; [done|].
        apply Forall_singleton. by exists acc, T, o.
      * destruct acc; try discriminate. by rewrite relate_nothing_head in Hr.
    + by rewrite relate_missing_head in Hr.
Qed.

Lemma prepared_entry_fresh this kv :
  prepared_entry classes singularize this kv ->
  is_Some (_relation kv.2) ∧ _builder kv.2 = None.
Proof. intros (acc & T & o & _ & _ & ->). split; [eauto|done]. Qed.

(** The select sent for a handled name whose relation is a hasOne, hasMany
    or belongsTo is the batched query of that relation. *)
Lemma fetch_all_batched P this handled sub tx :
  Forall (prepared_entry classes singularize this) handled ->
  Forall2 (fun (kv : string * Instance) i =>
             ∀ acc q,
               methods (classes (m_class (target this))) !! kv.1 = Some acc ->
               batched_query classes singularize (m_class (target this)) acc
                 (parentResponse this) = Some q ->
               i = q)
          handled (sent (fetch_all (fetch classes db P) handled sub tx)).
Proof.
  induction handled as [|[name rel] handled IH]; intros Hall; cbn [fetch_all].
  { constructor. }
  inversion Hall as [|? ? Hentry Hall']; subst.
  destruct (prepared_entry_fresh _ _ Hentry) as [Hr Hb]. cbn [snd] in Hr, Hb.
  destruct (fetch_sends_select P rel
              (mkOptions tx (WRArray <$> sub !! name) false false) Hr Hb)
    as (q0 & cols & nested & settled & Hf & _).
  rewrite Hf. cbn [sent]. constructor; [|by apply IH].
  intros acc q Hm Hq.
  destruct Hentry as (acc' & T & o & Hm' & Ho & Hrel). cbn [fst snd] in *. subst rel.
  rewrite Hm in Hm'. injection Hm' as <-.
  apply batched_query_options in Hq as (T' & o' & Ho' & Hty & Hcols & ->).
  assert (Some (T, o) = Some (T', o')) as [= -> ->]
    by (rewrite <- Ho; destruct (target this); apply Ho').
  edestruct (fetch_sends P (prepared classes this T' o')) as (n' & s' & Hf' & _);
    [reflexivity|exact Hty|reflexivity|reflexivity|].
  rewrite Hf' in Hf. injection Hf as <- <- _ _.
  rewrite prepared_table. cbn. by rewrite Hcols.
Qed.

(** *** Batching, matching, shared names, unknown relations *)

(** C1.  Loading one hasOne, hasMany or belongsTo relation onto a
    collection sends exactly one query, whatever the number of members:
    a select on the target's table under [foreignKey IN (ids)], where the
    ids are the identity values of the members.  With any list of paths,
    the level sends one query per distinct name, and the one of such a
    relation is that batched query.  In constrained mode, a relation
    reached from a single entity is queried under [foreignKey = fkValue]
    when that value is truthy, and without any constraint when it is not. *)
Theorem batching_rule :
  (∀ (this : Instance) c name acc q options,
     ctor this = CollectionCtor c ->
     split "." name = [name] ->
     methods (classes c) !! name = Some acc ->
     batched_query classes singularize c acc (map attributes (models this)) = Some q ->
     fst (load classes singularize db reset reserved this (RelArray [name]) options) = [q]
     ∧ ∀ v, v ∈ in_values q
            ↔ v ∈ remove_dups (pluck (map attributes (models this)) (idAttribute (classes c))))
  ∧ (∀ (this : Instance) c paths options handled sub,
       ctor this = CollectionCtor c ->
       relate classes singularize reserved (mk this (load_target this) (load_data this)) paths [] ∅
       = Ok (handled, sub) ->
       NoDup handled.*1
       ∧ (∀ n, n ∈ handled.*1 ↔ n ∈ map first_segment paths)
       ∧ ∃ level nested,
           fst (load classes singularize db reset reserved this (RelArray paths) options) = level
               ++ nested
           ∧ Forall2 (fun (kv : string * Instance) i =>
                        ∀ acc q,
                          methods (classes c) !! kv.1 = Some acc ->
                          batched_query classes singularize c acc
                            (map attributes (models this)) = Some q ->
                          i = q)
                     handled level)
  ∧ (∀ (owner : Model) name acc T o options,
       methods (classes (m_class owner)) !! name = Some acc ->
       accessor_options classes singularize owner acc = Some (T, o) ->
       type o ≠ BelongsToMany ->
       column_keyed acc = true ->
       let fkValue := if bool_decide (type o = BelongsTo)
                      then get owner (key (otherKey o))
                      else Shared.model_id classes owner in
       ∃ target s,
         ModelProto.invoke classes singularize reserved owner false name = Ok (Some target)
         ∧ Sync.new classes target options = Ok s
         ∧ Sync.query s
           = mkQuery (tableName (classes (Shared.class_of T)))
               ((if truthy fkValue then [CWhere (foreignKey o) "=" fkValue] else [])
                  ++ match options ≫= transacting with
                     | Some t => [CTransacting t]
                     | None => []
                     end)).
Proof.
  split; [|split].
  - intros this c name acc q options Hc Hs Hm Hq.
    apply batched_query_options in Hq as (T & o & Ho & Hty & Hcols & ->).
    split.
    + rewrite (load_one_relation this name acc T o); rewrite ?Hc; try done.
      * unfold load_data. rewrite Hc, Hcols. reflexivity.
      * unfold load_target. rewrite Hc. apply Ho.
    + intros v. simpl. rewrite app_nil_r. by rewrite elem_of_remove_dups.
  - intros this c paths options handled sub Hc Hrel.
    destruct (relate_general _ _ _ _ _ _ Hrel NoDup_nil_2 (Forall_nil_2 _))
      as (Hnd & Hnames & _); [intros n; by rewrite lookup_empty|].
    split; [done|]. split.
    { intros n. rewrite Hnames, elem_of_nil. tauto. }
    pose proof (relate_prepared _ _ _ _ _ _ Hrel (Forall_nil_2 _)) as Hall.
    rewrite load_S. cbn [relations_array]. cbv zeta. rewrite Hrel. cbn [fst].
    eexists _, _. split; [reflexivity|].
    pose proof (fetch_all_batched
                  (processRelated classes singularize db reset reserved (depth paths))
                  _ handled sub (options ≫= transacting) Hall) as Hsent.
    cbn [target parentResponse] in Hsent.
    rewrite load_target_class, Hc in Hsent. unfold load_data in Hsent.
    rewrite Hc in Hsent. exact Hsent.
  - intros owner name acc T o options. apply constrained_query.
Qed.

(** C2.  After loading a hasOne or belongsTo relation onto a collection,
    each member holds under the relation's name the first fetched child
    that matches its key; a member that no fetched child matches holds
    [undefined] there, not a fresh entity.  A single entity holds the first
    fetched child, and a fresh, empty entity when nothing was fetched. *)
Theorem member_without_child_gets_undefined
    (this : Instance) name acc ct o options :
  split "." name = [name] ->
  methods (classes (Shared.class_of (ctor this))) !! name = Some acc ->
  accessor_options classes singularize (load_target this) acc = Some (ModelCtor ct, o) ->
  type o = HasOne ∨ type o = BelongsTo ->
  let q := mkQuery (tableName (classes ct))
             [CWhereIn (foreignKey o)
                (pluck (load_data this) (idAttribute (classes (Shared.class_of (ctor this)))))] in
  let kids := children classes ct (db q (columns o)) in
  (Shared.is_collection this = true ->
     ∃ loaded,
       snd (load classes singularize db reset reserved this (RelArray [name]) options) = Ok loaded
       ∧ ∀ i m, models this !! i = Some m ->
           ∃ result,
             models loaded !! i = Some (set_relation name result m)
             ∧ (∀ child,
                  findWhere kids {[ foreignKey o := match_key classes o m ]} = Some child ->
                  result = RModel child)
             ∧ ((∀ child, child ∈ kids -> get child (foreignKey o) ≠ match_key classes o m) ->
                result = RUndefined))
  ∧ (Shared.is_collection this = false ->
     snd (load classes singularize db reset reserved this (RelArray [name]) options)
     = Ok (Shared.set_relations
             (<[name := match kids with
                        | child :: _ => RModel child
                        | [] => RModel (mkModel ct ∅ ∅)
                        end]> (inst_relations this)) this)).
Proof.
  intros Hs Hm Ho Hty q kids.
  pose proof (load_single_relation this name acc ct o options Hs Hm Ho Hty) as Hload.
  cbv zeta in Hload. fold q kids in Hload. rewrite Hload. split.
  - intros ->. eexists. split; [reflexivity|].
    intros i m Hi. cbn [models Shared.set_models].
    rewrite list_lookup_fmap, Hi. eexists. split; [reflexivity|]. split.
    + by intros child ->.
    + intros Hno. by rewrite findWhere_no_match.
  - intros ->. by destruct kids.
Qed.

(** At every level one relation is built, and one query sent, per distinct
    first segment, and every suffix is recorded under its name, whether or
    not the name was seen before. *)
Lemma level_relations (this : Instance) paths options handled sub :
  relate classes singularize reserved (mk this (load_target this) (load_data this)) paths [] ∅
  = Ok (handled, sub) ->
  NoDup handled.*1
  ∧ (∀ n, n ∈ handled.*1 ↔ n ∈ map first_segment paths)
  ∧ (∀ n, sub !! n = recorded (suffixes n paths))
  ∧ ∃ level nested,
      fst (load classes singularize db reset reserved this (RelArray paths) options)
      = level ++ nested
      ∧ Forall2 (fun (kv : string * Instance) i =>
                   ∃ q cols, i = Select q cols
                     ∧ q_table q = Shared.result_tableName classes kv.2)
                handled level.
Proof.
  intros Hrel.
  destruct (relate_general _ _ _ _ _ _ Hrel NoDup_nil_2 (Forall_nil_2 _))
    as (Hnd & Hnames & Hall & Hsub & Hne);
    [intros n; by rewrite lookup_empty|].
  split; [done|]. split.
  { intros n. rewrite Hnames, elem_of_nil. tauto. }
  split.
  { intros n. specialize (Hsub n). specialize (Hne n).
    rewrite lookup_empty in Hsub. cbn in Hsub. rewrite <- Hsub.
    by destruct (sub !! n) as [[|]|]. }
  rewrite load_S. cbn [relations_array]. cbv zeta. rewrite Hrel. cbn [fst].
  eexists _, _. split; [reflexivity|]. by apply fetch_all_sends.
Qed.

(** C5.  A path whose first segment names no method of the entity type
    makes [load] fail before any query is sent, with the runtime's
    [TypeError]; no load fails with [UnknownRelation].  The paths are taken
    not to ask for a reserved name: there, what the entity holds under
    the name is called. *)
Theorem unknown_relation_fails_with_TypeError :
  (∀ (this : Instance) relations options path,
     path ∈ relations_array relations ->
     methods (classes (Shared.class_of (ctor this))) !! first_segment path = None ->
     Forall (fun p => reserved (first_segment p) = false) (relations_array relations) ->
     load classes singularize db reset reserved this relations options = ([], Fail TypeError))
  ∧ (∀ (this : Instance) relations options name,
       snd (load classes singularize db reset reserved this relations options)
       ≠ Fail (UnknownRelation name)).
Proof.
  split.
  - apply load_unknown_relation.
  - intros this relations options name Hl.
    apply load_settles in Hl as [?|?]; discriminate.
Qed.
End EagerProperties.

(** ** The properties at the sample schema *)

Import EagerRelation.

(** The scenario of the specification: loading the posts of users 1 and 2
    sends one query and gives user 1 both posts, user 2 none. *)
Example users_posts_scenario :
  ∃ loaded u1 u2,
    load Sample.classes Sample.singularize Sample.db Sample.reset Sample.reserved Sample.users
        (RelArray ["posts"]) None
    = ([Select (mkQuery "posts" [CWhereIn "user_id" [VNum 1; VNum 2]]) None], Ok loaded)
    ∧ models loaded = [u1; u2]
    ∧ relations u1 !! "posts"
      = Some (RCollection (CollectionCtor "Post") [Sample.post 10 1; Sample.post 11 1])
    ∧ relations u2 !! "posts" = Some (RCollection (CollectionCtor "Post") []).
Proof. eexists _, _, _. vm_compute. repeat split; reflexivity. Qed.

(** Loading [posts.comments] and [posts.tags] onto the users gives user 1
    both posts, each with its comments and its tags. *)
Example posts_comments_tags_scenario :
  ∃ loaded u1 u2,
    snd (load Sample.classes Sample.singularize Sample.db Sample.reset Sample.reserved Sample.users
           (RelArray ["posts.comments"; "posts.tags"]) None) = Ok loaded
    ∧ models loaded = [u1; u2]
    ∧ relations u1 !! "posts"
      = Some (RCollection (CollectionCtor "Post")
                [ Sample.loaded_post 10 1 [Sample.comment100];
                  Sample.loaded_post 11 1 [] ])
    ∧ relations u2 !! "posts" = Some (RCollection (CollectionCtor "Post") []).
Proof. eexists _, _, _. vm_compute. repeat split; reflexivity. Qed.

(** [attach(5)] on the roles of user 1 inserts the row
    [{user_id: 1, role_id: 5}] and nothing else; [attach(role)] with the
    model of role 5 inserts [{user_id: 1, role_id: 1}]. *)
Example attach_scenario :
  Pivot.attach Sample.roles_of_user1 (Pivot.IdsOne (Pivot.ItemValue (VNum 5))) None
  = [Insert (builder "roles_users") (Sample.row [("user_id", VNum 1); ("role_id", VNum 5)])]
  ∧ Pivot.attach Sample.roles_of_user1 (Pivot.IdsOne (Pivot.ItemModel (Sample.role 5))) None
    = [Insert (builder "roles_users") (Sample.row [("user_id", VNum 1); ("role_id", VNum 1)])].
Proof. split; vm_compute; reflexivity. Qed.

(** [user.hasOne(Posts)] with the collection type of posts returns a
    collection instance carrying the relation. *)
Example hasOne_collection_scenario :
  ∃ target,
    ModelProto.hasOne Sample.classes Sample.singularize (Sample.user 1) false
      (CollectionCtor "Post") None = Ok target
    ∧ ctor target = CollectionCtor "Post"
    ∧ (type <$> _relation target) = Some HasOne.
Proof. eexists. vm_compute. repeat split; reflexivity. Qed.

Lemma batching_rule_witness :
  fst (load Sample.classes Sample.singularize Sample.db Sample.reset Sample.reserved Sample.users
      (RelArray ["posts"]) None)
  = [Select (mkQuery "posts" [CWhereIn "user_id" [VNum 1; VNum 2]]) None]
  ∧ (∃ nested,
       fst (load Sample.classes Sample.singularize Sample.db Sample.reset Sample.reserved
           Sample.users
              (RelArray ["posts.comments"; "profile"; "posts.tags"]) None)
       = [ Select (mkQuery "posts" [CWhereIn "user_id" [VNum 1; VNum 2]]) None;
           Select (mkQuery "profiles" [CWhereIn "user_id" [VNum 1; VNum 2]]) None ]
         ++ nested)
  ∧ (∃ target s,
       ModelProto.invoke Sample.classes Sample.singularize Sample.reserved (Sample.user 1) false
           "posts"
       = Ok (Some target)
       ∧ Sync.new Sample.classes target None = Ok s
       ∧ Sync.query s = mkQuery "posts" [CWhere "user_id" "=" (VNum 1)])
  ∧ ∃ target s,
      ModelProto.invoke Sample.classes Sample.singularize Sample.reserved Sample.zed_model false
          "posts"
      = Ok (Some target)
      ∧ Sync.new Sample.classes target None = Ok s
      ∧ Sync.query s = mkQuery "posts" [].
Proof.
  destruct (batching_rule Sample.classes Sample.singularize Sample.db Sample.reset Sample.reserved)
    as (Hset & Hlevel & Hone).
  split; [|split; [|split]].
  - apply (Hset Sample.users "User" "posts" (AccHasMany (ModelCtor "Post") None));
      reflexivity.
  - edestruct (Hlevel Sample.users "User" ["posts.comments"; "profile"; "posts.tags"] None)
      as (_ & _ & level & nested & Hl & Hall); [reflexivity|vm_compute; reflexivity|].
    exists nested. rewrite Hl. f_equal.
    inversion Hall as [|kv1 i1 h1 l1 H1 Hall1]; subst.
    inversion Hall1 as [|kv2 i2 h2 l2 H2 Hall2]; subst.
    inversion Hall2; subst.
    rewrite (H1 (AccHasMany (ModelCtor "Post") None) _ eq_refl eq_refl).
    rewrite (H2 (AccHasOne (ModelCtor "Profile") None) _ eq_refl eq_refl).
    reflexivity.
  - destruct (Hone (Sample.user 1) "posts" (AccHasMany (ModelCtor "Post") None)
                (ModelCtor "Post") (ModelProto.relation_options HasMany "user_id" None None)
                None) as (target & s & Hi & Hs & Hq);
      [reflexivity|reflexivity|discriminate|reflexivity|].
    exists target, s. split; [exact Hi|]. split; [exact Hs|exact Hq].
  - destruct (Hone Sample.zed_model "posts" (AccHasMany (ModelCtor "Post") None)
                (ModelCtor "Post") (ModelProto.relation_options HasMany "user_id" None None)
                None) as (target & s & Hi & Hs & Hq);
      [reflexivity|reflexivity|discriminate|reflexivity|].
    exists target, s. split; [exact Hi|]. split; [exact Hs|exact Hq].
Defined.

(** In constrained mode the relation of an entity is not always queried
    under [foreignKey = fkValue]: the posts of a user that was never saved
    are selected without any constraint. *)
Lemma batching_rule_counterexample :
  ∃ target s,
    ModelProto.invoke Sample.classes Sample.singularize Sample.reserved Sample.zed_model false
        "posts"
    = Ok (Some target)
    ∧ Sync.new Sample.classes target None = Ok s
    ∧ Sync.query s = mkQuery "posts" []
    ∧ Sync.query s ≠ mkQuery "posts" [CWhere "user_id" "=" VUndef].
Proof.
  eexists _, _. split; [reflexivity|]. split; [reflexivity|]. split; [reflexivity|].
  discriminate.
Qed.

(** User 2 has no profile: loaded with the collection it holds [undefined];
    loaded alone it holds an empty profile. *)
Lemma member_without_child_gets_undefined_witness :
  (∃ loaded,
     snd (load Sample.classes Sample.singularize Sample.db Sample.reset Sample.reserved Sample.users
            (RelArray ["profile"]) None) = Ok loaded
     ∧ models loaded !! 1 = Some (set_relation "profile" RUndefined (Sample.user 2)))
  ∧ snd (load Sample.classes Sample.singularize Sample.db Sample.reset Sample.reserved Sample.user2
           (RelArray ["profile"]) None)
    = Ok (Shared.set_relations
            (<["profile" := RModel (mkModel "Profile" ∅ ∅)]> ∅) Sample.user2).
Proof.
  split.
  - destruct (member_without_child_gets_undefined Sample.classes Sample.singularize Sample.db
      Sample.reset Sample.reserved Sample.users "profile" (AccHasOne (ModelCtor "Profile") None)
                "Profile" _ None eq_refl eq_refl eq_refl (or_introl eq_refl))
      as [Hset _].
    destruct (Hset eq_refl) as (loaded & Hl & Hmember).
    exists loaded. split; [exact Hl|].
    destruct (Hmember 1 (Sample.user 2) eq_refl) as (result & -> & _ & Hundef).
    rewrite Hundef; [reflexivity|].
    intros child Hin. vm_compute in Hin.
    apply list_elem_of_singleton in Hin as ->. vm_compute. discriminate.
  - destruct (member_without_child_gets_undefined Sample.classes Sample.singularize Sample.db
      Sample.reset Sample.reserved Sample.user2 "profile" (AccHasOne (ModelCtor "Profile") None)
                "Profile" _ None eq_refl eq_refl eq_refl (or_introl eq_refl))
      as [_ Hone].
    apply Hone; reflexivity.
Defined.

(** [users.load(['posts', 'nope.x'])] fails with a [TypeError] and sends
    nothing. *)
Lemma unknown_relation_fails_with_TypeError_witness :
  load Sample.classes Sample.singularize Sample.db Sample.reset Sample.reserved Sample.users
    (RelArray ["posts"; "nope.x"]) None
  = ([], Fail TypeError).
Proof.
  apply (proj1 (unknown_relation_fails_with_TypeError Sample.classes Sample.singularize Sample.db
      Sample.reset Sample.reserved) Sample.users (RelArray ["posts"; "nope.x"]) None "nope.x").
  - apply list_elem_of_further, list_elem_of_here.
  - reflexivity.
  - repeat constructor.
Defined.

(** ** The number of queries of a load *)

Section QueryBound.
Variable classes : string -> ModelClass.
Variable singularize : string -> string.
Variable db : Query -> option (list string) -> list Row.
Variable reset : Ctor -> list Model -> list Model.
Variable reserved : string -> bool.

Import EagerRelation.

Lemma segments_app l1 l2 : segments (l1 ++ l2) = segments l1 + segments l2.
Proof. unfold segments. by rewrite map_app, sum_list_with_app. Qed.

Lemma sum_list_map_le {A} (f g : A -> nat) l :
  (∀ x, x ∈ l -> f x ≤ g x) -> sum_list (map f l) ≤ sum_list (map g l).
Proof.
  induction l as [|x l IH]; intros Hle; simpl; [lia|].
  pose proof (Hle x (list_elem_of_here _ _)).
  assert (sum_list (map f l) ≤ sum_list (map g l))
    by (apply IH; intros y Hy; apply Hle; by apply list_elem_of_further).
  lia.
Qed.

Lemma sum_list_map_add {A} (f g : A -> nat) l :
  sum_list (map (fun x => f x + g x) l) = sum_list (map f l) + sum_list (map g l).
Proof. induction l as [|x l IH]; simpl; lia. Qed.

(** Among names without duplicates at most one is a given name. *)
Lemma sum_list_indicator (n0 : string) k names :
  NoDup names ->
  sum_list (map (fun n => if decide (n = n0) then k else 0) names) ≤ k.
Proof.
  induction names as [|n names IH]; intros Hnd; simpl; [lia|].
  apply NoDup_cons in Hnd as [Hn Hnd]. specialize (IH Hnd).
  destruct (decide (n = n0)) as [->|]; [|lia].
  assert (sum_list (map (fun n => if decide (n = n0) then k else 0) names) = 0) as ->; [|lia].
  clear IH Hnd. induction names as [|m names IH]; simpl; [done|].
  rewrite decide_False by (intros ->; apply Hn, list_elem_of_here).
  apply IH. intros Hin. by apply Hn, list_elem_of_further.
Qed.

(** The queries one level and the levels below it may send for a name:
    one for the name, and one per segment of the suffixes under it. *)
Lemma suffixes_one_path n path :
  (if decide (n ∈ map first_segment [path]) then 1 else 0) + segments (suffixes n [path])
  ≤ if decide (n = first_segment path) then length (split "." path) else 0.
Proof.
  unfold suffixes. cbn [omap list_omap map].
  destruct (String.eqb (first_segment path) n) eqn:E.
  - apply String.eqb_eq in E as <-.
    rewrite decide_True by apply list_elem_of_here. rewrite decide_True by done.
    destruct (1 <? length (split "." path)) eqn:Hlt; simpl.
    + apply Nat.ltb_lt in Hlt. pose proof (suffix_length path Hlt).
      unfold segments. simpl. lia.
    + pose proof (split_nonempty path). destruct (split "." path); [done|].
      unfold segments. simpl. lia.
  - apply String.eqb_neq in E. simpl.
    rewrite decide_False by (rewrite list_elem_of_singleton; congruence).
    rewrite decide_False by congruence. unfold segments. simpl. lia.
Qed.

Lemma names_bound names paths :
  NoDup names ->
  sum_list (map (fun n => (if decide (n ∈ map first_segment paths) then 1 else 0)
                          + segments (suffixes n paths)) names)
  ≤ segments paths.
Proof.
  intros Hnd. induction paths as [|path paths IH].
  { unfold segments. simpl. induction names as [|n names IHn]; simpl; [lia|].
    apply NoDup_cons in Hnd as [_ Hnd]. specialize (IHn Hnd). simpl in *. lia. }
  change (segments (path :: paths)) with (length (split "." path) + segments paths).
  etransitivity.
  { apply (sum_list_map_le _
             (fun n => (if decide (n = first_segment path) then length (split "." path) else 0)
                       + ((if decide (n ∈ map first_segment paths) then 1 else 0)
                          + segments (suffixes n paths)))).
    intros n _. cbn beta. pose proof (suffixes_one_path n path) as H1.
    rewrite (suffixes_cons n path paths), segments_app.
    assert ((if decide (n ∈ map first_segment (path :: paths)) then 1 else 0)
            ≤ (if decide (n ∈ map first_segment [path]) then 1 else 0)
              + (if decide (n ∈ map first_segment paths) then 1 else 0)) as H2.
    { cbn [map].
      destruct (decide (n ∈ first_segment path :: map first_segment paths)) as [Hin|]; [|lia].
      apply elem_of_cons in Hin as [->|Hin].
      - rewrite decide_True by apply list_elem_of_here. lia.
      - rewrite (decide_True (P := n ∈ map first_segment paths)) by done. lia. }
    lia. }
  rewrite sum_list_map_add.
  pose proof (sum_list_indicator (first_segment path) (length (split "." path)) names Hnd).
  lia.
Qed.

(** What a fetch sends below its own query is what the resolver of the
    next level sends, and nothing when no deeper path was requested. *)
Lemma fetch_nested_sent P (rel : Instance) options q nested settled :
  fetch classes db P rel options = Sent q nested settled ->
  nested = []
  ∨ (withRelated_truthy (withRelated options) = true ∧ ∃ t, nested = fst (P t options)).
Proof.
  unfold fetch.
  destruct (_ ≫= _) as [[rel' r]|]; [|discriminate].
  destruct (0 <? _); [|intros [= _ <- _]; auto].
  destruct (construct_all classes (modelCtor r) _) as [ms|e']; [|intros [= _ <- _]; auto].
  destruct (withRelated_truthy (withRelated options)) eqn:Hw; [|intros [= _ <- _]; auto].
  destruct (construct classes (modelCtor r) None) as [m|e']; [|intros [= _ <- _]; auto].
  match goal with |- context [P ?t options] => destruct (P t options) as [n s] eqn:HP end.
  intros [= _ <- _]. right. split; [done|]. eexists. by rewrite HP.
Qed.

Lemma fetch_all_bound P handled sub tx :
  (∀ t l, length (fst (P t (mkOptions tx (Some (WRArray l)) false false))) ≤ segments l) ->
  let pending := fetch_all (fetch classes db P) handled sub tx in
  length (sent pending) + length (nested_sent pending)
  ≤ sum_list (map (fun n => 1 + segments (default [] (sub !! n))) handled.*1).
Proof.
  intros HP. induction handled as [|[name rel] handled IH]; cbn [fetch_all]; [simpl; lia|].
  destruct (fetch classes db P rel _) as [e|q nested settled] eqn:Hf; [simpl; lia|].
  cbn [sent nested_sent fmap list_fmap map sum_list fst]. cbv zeta in IH.
  rewrite length_app. cbn [length].
  apply fetch_nested_sent in Hf as [->|[Hw [t ->]]].
  - cbn [length]. unfold id in *. lia.
  - cbn [withRelated] in Hw.
    destruct (sub !! name) as [l|] eqn:Hl; [|discriminate].
    specialize (HP t l). cbn [fmap option_fmap option_map default from_option].
    unfold id in *. lia.
Qed.

Lemma processRelated_bound fuel this options :
  length (fst (processRelated classes singularize db reset reserved fuel this options))
  ≤ segments (default [] (items <$> withRelated options)).
Proof.
  revert this options. induction fuel as [|fuel IH]; intros this options; [simpl; lia|].
  rewrite processRelated_S.
  destruct (withRelated options) as [w|]; [|simpl; lia].
  destruct (relate classes singularize reserved this (items w) [] ∅) as [[handled sub]|e] eqn:Hrel;
    [|simpl; lia].
  cbn [fst fmap option_fmap option_map default from_option id].
  destruct (relate_general _ _ _ _ _ _ _ _ _ Hrel NoDup_nil_2 (Forall_nil_2 _))
    as (Hnd & Hnames & _ & Hsub & _); [intros n; by rewrite lookup_empty|].
  rewrite length_app.
  etransitivity; [apply fetch_all_bound|].
  { intros t l. etransitivity; [apply IH|]. simpl. lia. }
  etransitivity; [|apply (names_bound handled.*1 (items w) Hnd)].
  apply sum_list_map_le. intros n Hn.
  rewrite Hsub, lookup_empty. cbn [default from_option id app].
  rewrite decide_True; [lia|].
  apply Hnames in Hn as [Hn|Hn]; [by apply elem_of_nil in Hn|done].
Qed.


End QueryBound.

(** ** Eager loads and transactions *)

Section Transactions.
Variable classes : string -> ModelClass.
Variable singularize : string -> string.
Variable db : Query -> option (list string) -> list Row.
Variable reset : Ctor -> list Model -> list Model.
Variable reserved : string -> bool.

Import EagerRelation.

Lemma fetch_fresh P (rel : Instance) options :
  is_Some (_relation rel) -> _builder rel = None ->
  ∃ q cols nested settled,
    fetch classes db P rel options = Sent (Select q cols) nested settled
    ∧ in_transaction q = false.
Proof.
  intros [r Hr] Hb. unfold fetch, Shared.relation_of. rewrite Hr. cbn [mbind Result_bind].
  assert (∃ rel' r', Constraints.addConstraints classes (type r) rel (relation_parentResponse r)
                     = Ok rel'
                     ∧ _relation rel' = Some r'
                     ∧ in_transaction (Shared.query classes rel') = false)
    as (rel' & r' & -> & Hr' & Hq).
  { unfold Constraints.addConstraints, Constraints.constraints, Constraints.belongsToMany,
      Shared.relation_of.
    rewrite Hr. cbn [mbind Result_bind].
    destruct (bool_decide (type r ≠ BelongsToMany)), (relation_parentResponse r);
      eexists _, _; (split; [reflexivity|]); (split; [try reflexivity; exact Hr|]);
      unfold Shared.query, Shared.query_call, Shared.set_builder, Shared.set_relation_hash,
        Shared.query; simpl; rewrite ?Hb; reflexivity. }
  cbn [mbind Result_bind]. rewrite Hr'. cbn [mbind Result_bind].
  repeat match goal with
         | |- context [if ?b then _ else _] => destruct b
         | |- context [match ?x with Ok _ => _ | Fail _ => _ end] => destruct x
         | |- context [let '(_, _) := ?x in _] => destruct x
         end; eexists _, _, _, _; (split; [reflexivity|exact Hq]).
Qed.

Lemma fetch_all_outside P handled sub tx :
  (∀ t o, Forall (fun i => in_transaction (issued_query i) = false) (fst (P t o))) ->
  Forall (fun kv => is_Some (_relation kv.2) ∧ _builder kv.2 = None) handled ->
  let pending := fetch_all (fetch classes db P) handled sub tx in
  Forall (fun i => in_transaction (issued_query i) = false)
         (sent pending ++ nested_sent pending).
Proof.
  intros HP. induction handled as [|[name rel] handled IH]; intros Hall; cbn [fetch_all].
  { constructor. }
  inversion Hall as [|? ? [Hr Hb] Hall']; subst. cbn [snd] in *.
  destruct (fetch_fresh P rel (mkOptions tx (WRArray <$> sub !! name) false false) Hr Hb)
    as (q & cols & nested & settled & Hf & Hq).
  rewrite Hf. cbn [sent nested_sent].
  specialize (IH Hall'). cbv zeta in IH. apply Forall_app in IH as [IHs IHn].
  apply Forall_app. split.
  - constructor; [exact Hq|exact IHs].
  - apply Forall_app. split; [|exact IHn].
    apply fetch_nested_sent in Hf as [->|[_ [t ->]]]; [constructor|apply HP].
Qed.

Lemma processRelated_outside fuel this options :
  Forall (fun i => in_transaction (issued_query i) = false)
         (fst (processRelated classes singularize db reset reserved fuel this options)).
Proof.
  revert this options. induction fuel as [|fuel IH]; intros this options; [constructor|].
  rewrite processRelated_S.
  destruct (withRelated options) as [w|]; [|constructor].
  destruct (relate classes singularize reserved this (items w) [] ∅) as [[handled sub]|e] eqn:Hrel;
    [|constructor].
  destruct (relate_general _ _ _ _ _ _ _ _ _ Hrel NoDup_nil_2 (Forall_nil_2 _))
    as (_ & _ & Hall & _); [intros n; by rewrite lookup_empty|].
  cbn [fst]. by apply fetch_all_outside.
Qed.

(** X2.  No query of an eager load is placed in a transaction, also when
    the options of [load] name one: [fetch] builds each select on a fresh
    builder and never calls [transacting] on it. *)
Theorem load_ignores_the_transaction (this : Instance) relations options :
  Forall (fun i => in_transaction (issued_query i) = false)
         (fst (load classes singularize db reset reserved this relations options)).
Proof. apply processRelated_outside. Qed.

End Transactions.

(** ** Fetching through the dispatcher *)

Section FetchProperties.
Variable classes : string -> ModelClass.
Variable singularize : string -> string.
Variable db : Query -> option (list string) -> list Row.
Variable reset : Ctor -> list Model -> list Model.
Variable reserved : string -> bool.

Import EagerRelation.

(** A row has no properties besides its own: [skim] leaves it as it is. *)
Lemma skim_rows rows : skim rows = rows.
Proof.
  unfold skim. induction rows as [|row rows IH]; simpl; [done|]. rewrite IH. f_equal.
  apply map_filter_id. intros k v Hkv. simpl.
  apply list_elem_of_fmap. exists (k, v). split; [done|]. by apply elem_of_map_to_list.
Qed.

Lemma sync_new (model : Instance) options :
  ∃ model',
    Sync.new classes model options
    = Ok (Sync.mk model' (default Sync.no_options options)
            (mkQuery (q_table (Shared.query classes model))
               (q_calls (Shared.query classes model) ++ constraint_calls classes model
                  ++ transacting_calls options)))
    ∧ ctor model' = ctor model
    ∧ inst_attributes model' = inst_attributes model
    ∧ inst_relations model' = inst_relations model
    ∧ models model' = models model.
Proof.
  unfold Sync.new, constraint_calls, transacting_calls, Constraints.addConstraints,
    Constraints.constraints, Constraints.belongsToMany, Shared.relation_of.
  destruct model as [ct at_ rl ms rel [[tbl calls]|] ph];
    destruct options as [[[tx|] w p rq]|]; destruct rel as [r|];
    cbn [_relation Shared.set_builder];
    try destruct (truthy (fkValue r)); try destruct (bool_decide (type r ≠ BelongsToMany));
    cbn -[app]; eexists;
    (split; [unfold call; cbn; rewrite <- ?app_assoc, ?app_nil_r; cbn; reflexivity|done]).
Qed.


Lemma fetch_unfold (this : Instance) options columns :
  ∃ model',
    ctor model' = ctor this
    ∧ inst_attributes model' = inst_attributes this
    ∧ inst_relations model' = inst_relations this
    ∧ models model' = models this
    ∧ SyncSelect.fetch classes singularize db reset reserved this options columns
      = SyncSelect.select classes singularize db reset reserved
          (Sync.mk model' (default Sync.no_options options) (fetch_query classes this options))
          columns.
Proof.
  destruct (sync_new this options) as (model' & Hnew & Hc & Ha & Hr & Hm).
  exists model'. repeat (split; [done|]).
  unfold SyncSelect.fetch. rewrite Hnew. unfold fetch_query, lookup_calls.
  destruct (ctor this) eqn:Hct.
  - unfold SyncSelect.first, SyncSelect.model_attributes. cbn [Sync.model Sync.options Sync.query].
    rewrite Hc, ?Hct, Ha, extend_empty. unfold call. cbn [q_table q_calls].
    by rewrite <- !app_assoc.
  - by rewrite app_nil_r.
Qed.

Lemma select_empty (s : Sync.t) columns :
  db (Sync.query s) (Some (SyncSelect.columns_array columns)) = [] ->
  SyncSelect.select classes singularize db reset reserved s columns
  = ([Select (Sync.query s) (Some (SyncSelect.columns_array columns))],
     if require (Sync.options s) then Fail EmptyResponse
     else Ok (match ctor (Sync.model s) with
              | ModelCtor _ => SyncSelect.clear (Shared.resetQuery (Sync.model s))
              | CollectionCtor _ =>
                  Shared.set_models (reset (ctor (Sync.model s)) [])
                    (Shared.resetQuery (Sync.model s))
              end)).
Proof.
  intros Hdb. unfold SyncSelect.select. rewrite Hdb. cbn [length Nat.ltb Nat.leb].
  destruct (require (Sync.options s)); [done|].
  cbn [Shared.resetQuery Shared.set_builder ctor]. by destruct (ctor (Sync.model s)).
Qed.

Lemma select_rows (s : Sync.t) columns row rest :
  db (Sync.query s) (Some (SyncSelect.columns_array columns)) = row :: rest ->
  EagerRelation.withRelated_truthy (withRelated (Sync.options s)) = false ->
  SyncSelect.select classes singularize db reset reserved s columns
  = ([Select (Sync.query s) (Some (SyncSelect.columns_array columns))],
     Ok (match ctor (Sync.model s) with
         | ModelCtor c =>
             SyncSelect.set (parse (classes c) row) (Shared.resetQuery (Sync.model s))
         | CollectionCtor c =>
             Shared.set_models
               (reset (ctor (Sync.model s)) (SyncSelect.prepare classes c (row :: rest)))
               (Shared.resetQuery (Sync.model s))
         end)).
Proof.
  intros Hdb Hw. unfold SyncSelect.select. rewrite Hdb, skim_rows.
  cbn [length Nat.ltb Nat.leb head default from_option id].
  cbn [Shared.resetQuery Shared.set_builder ctor].
  destruct (withRelated (Sync.options s)) as [w|]; [rewrite Hw|]; by destruct (ctor (Sync.model s)).
Qed.

(** What [select] sends after its own query is what the eager resolver
    sends. *)
Lemma select_nested (s : Sync.t) columns :
  ∃ nested settled,
    SyncSelect.select classes singularize db reset reserved s columns
    = (Select (Sync.query s) (Some (SyncSelect.columns_array columns)) :: nested, settled)
    ∧ (withRelated (Sync.options s) = None -> nested = [])
    ∧ Forall (fun i => in_transaction (issued_query i) = false) nested
    ∧ length nested ≤ segments (default [] (items <$> withRelated (Sync.options s))).
Proof.
  unfold SyncSelect.select.
  destruct (0 <? length _).
  - destruct (withRelated (Sync.options s)) as [w|] eqn:Hw.
    + destruct (withRelated_truthy (Some w)).
      * match goal with
        | |- context [processRelated _ _ _ _ _ ?f ?t ?o] =>
            pose proof (processRelated_outside classes singularize db reset reserved f t o) as Hout;
            pose proof (processRelated_bound classes singularize db reset reserved f t o) as Hlen;
            destruct (processRelated classes singularize db reset reserved f t o) as [nested r]
        end.
        rewrite Hw in Hlen. eexists _, _. split; [reflexivity|].
        split; [done|]. split; [exact Hout|exact Hlen].
      * eexists _, _. split; [reflexivity|]. split; [done|]. split; [constructor|simpl; lia].
    + eexists _, _. split; [reflexivity|]. split; [done|]. split; [constructor|simpl; lia].
  - destruct (require (Sync.options s)); [|destruct (ctor _)];
      eexists _, _; (split; [reflexivity|]); (split; [done|]);
      (split; [constructor|simpl; lia]).
Qed.

End FetchProperties.

Section FetchTheorems.
Variable classes : string -> ModelClass.
Variable singularize : string -> string.
Variable db : Query -> option (list string) -> list Row.
Variable reset : Ctor -> list Model -> list Model.
Variable reserved : string -> bool.

Import EagerRelation.

Lemma options_withRelated (options : option Options) :
  withRelated (default Sync.no_options options) = options ≫= withRelated.
Proof. by destruct options. Qed.

Lemma options_require (options : option Options) :
  require (default Sync.no_options options) = default false (require <$> options).
Proof. by destruct options. Qed.


Lemma fetch_select (this : Instance) options columns :
  ∃ nested settled,
    SyncSelect.fetch classes singularize db reset reserved this options columns
    = (Select (fetch_query classes this options) (Some (SyncSelect.columns_array columns))
         :: nested, settled)
    ∧ (options ≫= withRelated = None -> nested = [])
    ∧ Forall (fun i => in_transaction (issued_query i) = false) nested
    ∧ length nested ≤ segments (default [] (items <$> (options ≫= withRelated))).
Proof.
  destruct (fetch_unfold classes singularize db reset reserved this options columns)
    as (model' & _ & _ & _ & _ & ->).
  destruct (select_nested classes singularize db reset reserved
              (Sync.mk model' (default Sync.no_options options) (fetch_query classes this options))
              columns) as (nested & settled & -> & Hn & Hout & Hlen).
  cbn [Sync.options Sync.query] in *. rewrite options_withRelated in *.
  by exists nested, settled.
Qed.

(** X3.  Whatever the object and the options, [fetch] first sends one
    select.  Its builder holds the calls pending on the object, then the
    relation constraint, the transaction and, for a model, the lookup by
    all current attributes limited to one row; its columns are
    [options.columns], or [*].  Nothing else is sent unless [withRelated]
    is given, and then at most one query per path segment. *)
Theorem fetch_sends_its_select_first (this : Instance) options columns :
  ∃ nested settled,
    SyncSelect.fetch classes singularize db reset reserved this options columns
    = (Select (fetch_query classes this options) (Some (SyncSelect.columns_array columns))
         :: nested, settled)
    ∧ (options ≫= withRelated = None -> nested = [])
    ∧ length nested ≤ segments (default [] (items <$> (options ≫= withRelated))).
Proof.
  destruct (fetch_unfold classes singularize db reset reserved this options columns)
    as (model' & _ & _ & _ & _ & ->).
  destruct (select_nested classes singularize db reset reserved
              (Sync.mk model' (default Sync.no_options options) (fetch_query classes this options))
              columns) as (nested & settled & -> & Hn & _ & Hlen).
  cbn [Sync.options Sync.query] in *. rewrite options_withRelated in *.
  by exists nested, settled.
Qed.

(** X4.  With [options.transacting], the select of the fetch itself runs in
    the transaction, and none of the eager selects that follow it does. *)
Theorem fetch_transaction_covers_its_own_select_only (this : Instance) options columns t :
  options ≫= transacting = Some t ->
  ∃ q cols nested settled,
    SyncSelect.fetch classes singularize db reset reserved this options columns
    = (Select q cols :: nested, settled)
    ∧ in_transaction q = true
    ∧ Forall (fun i => in_transaction (issued_query i) = false) nested.
Proof.
  intros Ht.
  destruct (fetch_unfold classes singularize db reset reserved this options columns)
    as (model' & _ & _ & _ & _ & ->).
  destruct (select_nested classes singularize db reset reserved
              (Sync.mk model' (default Sync.no_options options) (fetch_query classes this options))
              columns) as (nested & settled & -> & _ & Hout & _).
  eexists _, _, nested, settled. split; [reflexivity|]. split; [|exact Hout].
  cbn [Sync.query]. unfold in_transaction, fetch_query, transacting_calls. rewrite Ht.
  cbn [q_calls]. rewrite !existsb_app. cbn [existsb]. by rewrite !orb_true_r.
Qed.

(** X5.  When the store has no row for the select of a fetch, only that
    select was sent.  With [require] the fetch fails with [EmptyResponse].
    Without it the fetch succeeds: a model is left with no attribute at
    all, those it was looked up by included, and a collection with what
    [reset] makes of no entity. *)
Theorem fetch_without_a_row (this : Instance) options columns :
  let q := fetch_query classes this options in
  let cols := Some (SyncSelect.columns_array columns) in
  db q cols = [] ->
  fst (SyncSelect.fetch classes singularize db reset reserved this options columns) = [Select q
      cols]
  ∧ (default false (require <$> options) = true ->
     snd (SyncSelect.fetch classes singularize db reset reserved this options columns)
     = Fail EmptyResponse)
  ∧ (default false (require <$> options) = false ->
     ∃ found,
       snd (SyncSelect.fetch classes singularize db reset reserved this options columns) = Ok found
       ∧ ctor found = ctor this
       ∧ inst_relations found = inst_relations this
       ∧ _builder found = None
       ∧ if Shared.is_collection this
         then models found = reset (ctor this) []
         else inst_attributes found = ∅).
Proof.
  intros q cols Hdb.
  destruct (fetch_unfold classes singularize db reset reserved this options columns)
    as (model' & Hc & Ha & Hr & Hm & ->).
  rewrite select_empty by done. cbn [Sync.options Sync.query Sync.model fst snd].
  rewrite options_require. split; [done|]. split; [by intros ->|]. intros ->.
  eexists. split; [reflexivity|]. unfold Shared.is_collection. rewrite Hc.
  by destruct (ctor this).
Qed.

(** X6.  When rows come back and no relation is to be loaded, a model takes
    the parsed first row over its attributes: an attribute the row lacks
    is kept, and the other rows are ignored.  A collection is reset with
    one entity per row.  The relations stay, and the builder is reset. *)
Theorem fetch_stores_the_first_row (this : Instance) options columns row rest :
  let q := fetch_query classes this options in
  let cols := Some (SyncSelect.columns_array columns) in
  db q cols = row :: rest ->
  options ≫= withRelated = None ->
  ∃ found,
    SyncSelect.fetch classes singularize db reset reserved this options columns
    = ([Select q cols], Ok found)
    ∧ ctor found = ctor this
    ∧ inst_relations found = inst_relations this
    ∧ _builder found = None
    ∧ match ctor this with
      | ModelCtor c =>
          ∀ k, inst_attributes found !! k
               = match parse (classes c) row !! k with
                 | Some v => Some v
                 | None => inst_attributes this !! k
                 end
      | CollectionCtor c =>
          models found = reset (ctor this) (SyncSelect.prepare classes c (row :: rest))
      end.
Proof.
  intros q cols Hdb Hw.
  destruct (fetch_unfold classes singularize db reset reserved this options columns)
    as (model' & Hc & Ha & Hr & Hm & ->).
  rewrite (select_rows _ _ _ _ _ _ _ row rest) by
    (try done; cbn [Sync.options]; by rewrite options_withRelated, Hw).
  cbn [Sync.options Sync.query Sync.model].
  eexists. split; [reflexivity|]. rewrite Hc.
  destruct (ctor this); cbn; rewrite ?Hc, ?Hr; repeat (split; [done|]); [|done].
  intros k. unfold extend. rewrite lookup_union, Ha.
  by destruct (parse (classes c) row !! k), (inst_attributes this !! k).
Qed.

(** X7.  [withRelated] given to [fetch] as a string is not wrapped into an
    array: when the select returns a row, the resolver reads the string
    character by character.  So unless the first character is the name of
    a method of the entity type, or a reserved name, the fetch sends its
    select and then fails with a [TypeError]. *)
Theorem fetch_with_a_string_for_withRelated (this : Instance) options columns ch s row rest :
  let q := fetch_query classes this (Some options) in
  let cols := Some (SyncSelect.columns_array columns) in
  withRelated options = Some (WRString (String ch s)) ->
  db q cols = row :: rest ->
  methods (classes (Shared.class_of (ctor this))) !! first_segment (String ch "") = None ->
  reserved (first_segment (String ch "")) = false ->
  SyncSelect.fetch classes singularize db reset reserved this (Some options) columns
  = ([Select q cols], Fail TypeError).
Proof.
  intros q cols Hw Hdb Hm Hres.
  destruct (fetch_unfold classes singularize db reset reserved this (Some options) columns)
    as (model' & Hc & Ha & Hr & Hmo & ->).
  unfold SyncSelect.select. cbn [Sync.options Sync.query Sync.model default from_option id].
  fold q cols. rewrite Hdb, Hw. cbn [length Nat.ltb Nat.leb withRelated_truthy String.eqb negb].
  rewrite processRelated_S, Hw. cbn [items String.list_ascii_of_string map].
  rewrite relate_missing_head; [|done|].
  - unfold first_segment in Hres. by rewrite Hres.
  - cbn [target]. rewrite load_target_class. unfold first_segment in Hm.
    replace (ctor _) with (ctor this); [done|].
    cbn [Shared.resetQuery Shared.set_builder ctor]. rewrite Hc. by destruct (ctor this).
Qed.

End FetchTheorems.

Section FetchSettles.
Variable classes : string -> ModelClass.
Variable singularize : string -> string.
Variable db : Query -> option (list string) -> list Row.
Variable reset : Ctor -> list Model -> list Model.
Variable reserved : string -> bool.

Import EagerRelation.

(** The fuel [select] gives the eager resolver is enough: a fetch settles. *)
Lemma fetch_settles (this : Instance) options columns :
  snd (SyncSelect.fetch classes singularize db reset reserved this options columns) ≠ Fail
      OutOfFuel.
Proof.
  destruct (fetch_unfold classes singularize db reset reserved this options columns)
    as (model' & _ & _ & _ & _ & ->).
  unfold SyncSelect.select. cbn [Sync.options Sync.query Sync.model].
  destruct (0 <? length _).
  - destruct (withRelated (default Sync.no_options options)) as [w|] eqn:Hw; [|done].
    destruct (withRelated_truthy (Some w)); [|done].
    match goal with
    | |- context [processRelated _ _ _ _ _ (S ?n) ?t ?o] =>
        pose proof (processRelated_fuel classes singularize db reset reserved n t o) as Hfuel;
        destruct (processRelated classes singularize db reset reserved (S n) t o) as [nested r]
    end.
    cbn [snd] in *. apply Hfuel. intros w' Hw'. rewrite Hw in Hw'. by injection Hw' as <-.
  - destruct (require _); [done|]. by destruct (ctor _).
Qed.

End FetchSettles.

(** ** Relations reached from a single entity *)

Section ConstrainedRelations.
Variable classes : string -> ModelClass.
Variable singularize : string -> string.
Variable db : Query -> option (list string) -> list Row.
Variable reset : Ctor -> list Model -> list Model.
Variable reserved : string -> bool.

Import EagerRelation.

(** The relation target an accessor returns outside an eager load. *)
Lemma invoke_constrained (owner : Model) name acc T o :
  methods (classes (m_class owner)) !! name = Some acc ->
  accessor_options classes singularize owner acc = Some (T, o) ->
  let multi := ModelProto.multi (type o) in
  let v := if bool_decide (type o = BelongsTo)
           then get owner (key (otherKey o))
           else Shared.model_id classes owner in
  ModelProto.invoke classes singularize reserved owner false name
  = Ok (Some (mkInstance (if multi then CollectionCtor (Shared.class_of T) else T) ∅ ∅ []
                (Some (mkRelation (type o) (foreignKey o) (otherKey o) (joinTableName o)
                         (pivotColumns o) (columns o) v (parentIdAttr o) (modelCtor o)
                         (collectionCtor o) (relation_parentResponse o)))
                None (bool_decide (type o = BelongsToMany)))).
Proof.
  intros Hm Ho multi v. rewrite invoke_accessor, Hm, Ho.
  destruct o as [ty fk ok jt pc cs fv pia mc cc pr].
  by destruct ty, T.
Qed.

(** X8.  The relation of an owner whose key is falsy (an owner never
    saved, or one whose key is [0] or ['']) carries no constraint: a fetch
    of it selects from the whole table of the target, and for a
    single-valued relation takes the first row of that table. *)
Theorem relation_of_an_unsaved_owner_is_fetched_unconstrained
    (owner : Model) name acc T o options columns :
  methods (classes (m_class owner)) !! name = Some acc ->
  accessor_options classes singularize owner acc = Some (T, o) ->
  truthy (if bool_decide (type o = BelongsTo)
          then get owner (key (otherKey o))
          else Shared.model_id classes owner) = false ->
  ∃ target nested settled,
    ModelProto.invoke classes singularize reserved owner false name = Ok (Some target)
    ∧ ctor target
      = (if ModelProto.multi (type o) then CollectionCtor (Shared.class_of T) else T)
    ∧ SyncSelect.fetch classes singularize db reset reserved target options columns
      = (Select (mkQuery (tableName (classes (Shared.class_of T)))
                   (transacting_calls options
                      ++ match ctor target with
                         | ModelCtor _ => [CWhereHash (Some ∅); CLimit 1]
                         | CollectionCtor _ => []
                         end))
                (Some (SyncSelect.columns_array columns)) :: nested, settled).
Proof.
  intros Hm Ho Hv. rewrite (invoke_constrained owner name acc T o Hm Ho).
  eexists.
  edestruct (fetch_select classes singularize db reset reserved) as (nested & settled & -> & _).
  exists nested, settled. split; [reflexivity|]. split; [reflexivity|]. do 2 f_equal.
  unfold fetch_query, constraint_calls, lookup_calls, Shared.query, Shared.result_tableName.
  cbn [_relation _builder fkValue ctor inst_attributes default from_option id builder
       q_table q_calls app].
  rewrite Hv. cbn [app]. by destruct (ModelProto.multi (type o)).
Qed.


(** X9.  [destroy] on the target of a hasOne or belongsTo relation, which
    has no identity of its own, never deletes.  When the owner's key is
    truthy the query carries the relation constraint, the guard of [del]
    lets the call pass, and [where(undefined)] makes the builder fail with
    a [TypeError]; when the key is falsy the delete is refused with
    [DestroyWithoutConstraint].  Either way nothing is sent. *)
Theorem destroy_of_a_related_model (owner : Model) name acc ct o options :
  methods (classes (m_class owner)) !! name = Some acc ->
  accessor_options classes singularize owner acc = Some (ModelCtor ct, o) ->
  type o = HasOne ∨ type o = BelongsTo ->
  let v := if bool_decide (type o = BelongsTo)
           then get owner (key (otherKey o))
           else Shared.model_id classes owner in
  ∃ target,
    ModelProto.invoke classes singularize reserved owner false name = Ok (Some target)
    ∧ (truthy v = true ->
       SyncSelect.destroy classes target options = ([], Fail TypeError))
    ∧ (truthy v = false ->
       SyncSelect.destroy classes target options = ([], Fail DestroyWithoutConstraint)).
Proof.
  intros Hm Ho Hty v. rewrite (invoke_constrained owner name acc (ModelCtor ct) o Hm Ho).
  fold v. eexists. split; [reflexivity|].
  assert (ModelProto.multi (type o) = false) as -> by (by destruct Hty as [-> | ->]).
  assert (bool_decide (type o ≠ BelongsToMany) = true) as Hnb
    by (apply bool_decide_eq_true; by destruct Hty as [-> | ->]).
  unfold SyncSelect.destroy. cbn [ctor].
  match goal with
  | |- context [Sync.new classes ?t options] =>
      destruct (sync_new classes t options) as (model' & -> & Hc & Ha & _)
  end.
  cbn [mbind Result_bind]. unfold Sync.del, Shared.id_of, Shared.result_idAttribute.
  cbn [Sync.model Sync.query]. rewrite Hc, Ha. cbn [ctor inst_attributes].
  unfold prop. rewrite lookup_empty. cbn [default from_option id not_nullish].
  unfold constraint_calls, Shared.query, Shared.result_tableName.
  cbn [_relation _builder fkValue type foreignKey ctor default from_option id builder
       q_table q_calls Shared.class_of app].
  rewrite Hnb.
  split; intros ->.
  - unfold wheres_length, transacting_calls.
    destruct (options ≫= transacting); cbn; unfold call; cbn; reflexivity.
  - unfold wheres_length, transacting_calls.
    destruct (options ≫= transacting); cbn; reflexivity.
Qed.

End ConstrainedRelations.

(** ** Pivot columns *)

Section PivotColumns.
Variable classes : string -> ModelClass.
Variable singularize : string -> string.
Variable db : Query -> option (list string) -> list Row.
Variable reset : Ctor -> list Model -> list Model.
Variable reserved : string -> bool.

Import EagerRelation.

(** X10.  A direct fetch of a belongsToMany relation joins the join table,
    constrains it by the owner's id, and selects [options.columns], or
    [*]: neither the [_pivot_] keys nor the columns named through
    [withPivot] are among the selected columns. *)
Theorem pivot_columns_do_not_reach_a_direct_fetch
    (owner : Model) name acc T o options columns pc :
  methods (classes (m_class owner)) !! name = Some acc ->
  accessor_options classes singularize owner acc = Some (T, o) ->
  type o = BelongsToMany ->
  truthy (Shared.model_id classes owner) = true ->
  let table := tableName (classes (Shared.class_of T)) in
  let joinTable := key (joinTableName o) in
  ∃ target target' nested settled,
    ModelProto.invoke classes singularize reserved owner false name = Ok (Some target)
    ∧ WithPivot.withPivot target pc = Ok target'
    ∧ SyncSelect.fetch classes singularize db reset reserved target' options columns
      = (Select
           (mkQuery table
              ([ CJoin joinTable
                   (table +:+ "." +:+ idAttribute (classes (Shared.class_of T))) "="
                   (joinTable +:+ "." +:+ foreignKey o);
                 CWhere (joinTable +:+ "." +:+ key (otherKey o)) "="
                   (Shared.model_id classes owner) ]
               ++ transacting_calls options))
           (Some (SyncSelect.columns_array columns)) :: nested, settled).
Proof.
  intros Hm Ho Hty Hv table joinTable.
  rewrite (invoke_constrained classes singularize reserved owner name acc T o Hm Ho).
  rewrite Hty. change (ModelProto.multi BelongsToMany) with true.
  change (bool_decide (BelongsToMany = BelongsTo)) with false.
  change (bool_decide (BelongsToMany = BelongsToMany)) with true. cbv iota.
  match goal with |- context [Ok (Some ?t)] => set (target := t) end.
  exists target.
  assert (∃ target', WithPivot.withPivot target pc = Ok target'
            ∧ fetch_query classes target' options
              = mkQuery table
                  ([ CJoin joinTable
                       (table +:+ "." +:+ idAttribute (classes (Shared.class_of T))) "="
                       (joinTable +:+ "." +:+ foreignKey o);
                     CWhere (joinTable +:+ "." +:+ key (otherKey o)) "="
                       (Shared.model_id classes owner) ]
                   ++ transacting_calls options)) as (target' & Hw & Hq).
  { eexists. split; [unfold WithPivot.withPivot, Shared.relation_of; cbn; reflexivity|].
    unfold fetch_query, constraint_calls, lookup_calls, Shared.query, Shared.result_tableName,
      Shared.result_idAttribute.
    cbn [Shared.set_relation_hash _relation _builder ctor inst_attributes
         WithPivot.set_pivotColumns fkValue type foreignKey otherKey joinTableName
         default from_option id builder q_table q_calls app Shared.class_of].
    rewrite Hv. change (bool_decide (BelongsToMany ≠ BelongsToMany)) with false.
    cbv iota. fold table joinTable. by rewrite app_nil_r. }
  destruct (fetch_select classes singularize db reset reserved target' options columns)
    as (nested & settled & Hf & _).
  exists target', nested, settled. split; [done|]. split; [done|]. by rewrite Hf, Hq.
Qed.

Lemma fetch_pivot P (rel : Instance) (r : Relation) resp options :
  _relation rel = Some r -> type r = BelongsToMany ->
  relation_parentResponse r = Some resp -> _builder rel = None -> columns r = None ->
  let table := Shared.result_tableName classes rel in
  let idAttribute := Shared.result_idAttribute classes rel in
  let joinTable := key (joinTableName r) in
  let q := mkQuery table
             [ CJoin joinTable (table +:+ "." +:+ idAttribute) "="
                 (joinTable +:+ "." +:+ foreignKey r);
               CWhereIn (joinTable +:+ "." +:+ key (otherKey r)) (pluck resp idAttribute) ] in
  let cols := [ table +:+ ".*";
                joinTable +:+ "." +:+ key (otherKey r) +:+ " as " +:+ "_pivot_" +:+ key (otherKey
                    r);
                joinTable +:+ "." +:+ foreignKey r +:+ " as " +:+ "_pivot_" +:+ foreignKey r ]
              ++ default [] (pivotColumns r) in
  let rows := db q (Some cols) in
  let rel' := Shared.set_relation_hash (Constraints.set_columns cols r) rel in
  fetch classes db P rel options
  = if 0 <? length rows then
      match construct_all classes (modelCtor r) (skim rows) with
      | Fail e => Sent (Select q (Some cols)) [] (Fail e)
      | Ok models =>
          if withRelated_truthy (withRelated options) then
            match construct classes (modelCtor r) None with
            | Fail e => Sent (Select q (Some cols)) [] (Fail e)
            | Ok model =>
                let '(nested, s) := P (mk (Shared.set_models models rel') model rows) options in
                Sent (Select q (Some cols)) nested s
            end
          else Sent (Select q (Some cols)) [] (Ok (Shared.set_models models rel'))
      end
    else Sent (Select q (Some cols)) [] (Ok (Shared.set_models [] rel')).
Proof.
  intros Hr Hty Hpr Hb Hcs.
  destruct rel as [ct at_ rl ms rr b ph]. cbn in Hr, Hb. subst rr b.
  destruct r as [ty fk ok jt pc cs fv pia mc cc pr]. cbn in Hty, Hpr, Hcs. subst ty pr cs.
  unfold fetch, Constraints.addConstraints, Constraints.belongsToMany, Shared.relation_of.
  cbn [_relation type mbind Result_bind].
  change (bool_decide (BelongsToMany ≠ BelongsToMany)) with false.
  cbn -[String.append skim construct_all construct Nat.ltb].
  destruct (0 <? length _); [|done].
  by destruct (construct_all classes mc _) as [models|e].
Qed.

End PivotColumns.

(** ** Many-valued relations *)

Section ManyRelations.
Variable classes : string -> ModelClass.
Variable singularize : string -> string.
Variable db : Query -> option (list string) -> list Row.
Variable reset : Ctor -> list Model -> list Model.
Variable reserved : string -> bool.

Import EagerRelation.

Lemma where_singleton eager k v :
  where_ eager {[k := v]} = List.filter (fun child => bool_decide (v = get child k)) eager.
Proof.
  unfold where_. rewrite bool_decide_false by apply map_non_empty_singleton.
  apply List.filter_ext. intros child. apply matches_singleton.
Qed.

(** Each member of a parent collection receives the collection
    constructed from the children that match its id, handed over in the
    order they were fetched. *)
Lemma match_models_many name (rel : Instance) r cc ms :
  _relation rel = Some r -> collectionCtor r = Some cc ->
  type r = HasMany ∨ type r = BelongsToMany ->
  let k := if bool_decide (type r = HasMany) then foreignKey r
           else "_pivot_" +:+ key (otherKey r) in
  match_models classes reset name rel r ms
  = Ok (map (fun m =>
               set_relation name
                 (RCollection cc
                    (reset cc
                       (List.filter
                          (fun child => bool_decide (Shared.model_id classes m = get child k))
                          (models rel))))
                 m) ms).
Proof.
  intros Hr Hcc Hty k. induction ms as [|m ms IH]; simpl; [done|].
  rewrite IH. unfold eagerRelated, Shared.relation_of. rewrite Hr. simpl.
  subst k. destruct Hty as [Hty|Hty]; rewrite Hty; simpl;
    by rewrite Hcc, where_singleton.
Qed.

(** Loading one relation, with nothing below it: the run is the one fetch
    and the matching of its outcome. *)
Lemma load_one (this : Instance) name acc T o options q cols rel' :
  split "." name = [name] ->
  methods (classes (Shared.class_of (ctor this))) !! name = Some acc ->
  accessor_options classes singularize (load_target this) acc = Some (T, o) ->
  (∀ P opts, withRelated opts = None ->
     fetch classes db P
       (prepared classes (mk this (load_target this) (load_data this)) T o) opts
     = Sent (Select q cols) [] (Ok rel')) ->
  load classes singularize db reset reserved this (RelArray [name]) options
  = ([Select q cols], matchResponses classes reset this [(name, rel')]).
Proof.
  intros Hs Hm Ho Hf. rewrite load_S. cbn [relations_array].
  rewrite (relate_new classes singularize reserved _ _ _ _ _ acc T o); rewrite ?Hs; cbn [head
      default target];
    rewrite ?load_target_class; try done.
  cbn [relate fetch_all app id].
  rewrite Hf by (unfold record_suffix; rewrite Hs; reflexivity).
  reflexivity.
Qed.


(** X11.  Loading a hasMany relation sends one query; then each member of a
    parent collection holds the collection constructed from exactly the
    fetched children whose foreign key equals the member's id, handed to
    the constructor in the order they were fetched.  A single parent
    entity holds the collection constructed from every fetched child,
    unfiltered.  Which of the entities it is given a collection keeps, and
    in which order, is Backbone's [reset]. *)
Theorem hasMany_members_receive_their_own_children (this : Instance) name acc T o options :
  split "." name = [name] ->
  methods (classes (Shared.class_of (ctor this))) !! name = Some acc ->
  accessor_options classes singularize (load_target this) acc = Some (T, o) ->
  type o = HasMany ->
  let c := Shared.class_of T in
  let q := mkQuery (tableName (classes c))
             [CWhereIn (foreignKey o)
                (pluck (load_data this) (idAttribute (classes (Shared.class_of (ctor this)))))] in
  let kids := children classes c (db q None) in
  load classes singularize db reset reserved this (RelArray [name]) options
  = ([Select q None],
     Ok (if Shared.is_collection this then
           Shared.set_models
             (map (fun m =>
                     set_relation name
                       (RCollection (CollectionCtor c)
                          (reset (CollectionCtor c)
                             (List.filter
                                (fun child =>
                                   bool_decide
                                     (Shared.model_id classes m = get child (foreignKey o)))
                                kids)))
                       m) (models this)) this
         else
           Shared.set_relations
             (<[name := RCollection (CollectionCtor c) (reset (CollectionCtor c) kids)]>
                (inst_relations this)) this)).
Proof.
  intros Hs Hm Ho Hty c q kids.
  destruct acc as [? ?|T' fk|? ?|? ? ? ?|]; cbn in Ho; try discriminate;
    injection Ho as -> <-; cbn in Hty; try discriminate.
  set (this' := mk this (load_target this) (load_data this)).
  set (o := ModelProto.relation_options HasMany _ None None).
  set (rel := prepared classes this' T o).
  assert (∃ r, _relation rel = Some r ∧ type r = HasMany ∧ foreignKey r = foreignKey o
               ∧ columns r = None ∧ modelCtor r = Some (ModelCtor c)
               ∧ collectionCtor r = Some (CollectionCtor c)
               ∧ parentIdAttr r = Some (idAttribute (classes (Shared.class_of (ctor this))))
               ∧ relation_parentResponse r = Some (load_data this))
    as (r & Hr & Hrt & Hrf & Hrc & Hrm & Hrcc & Hrp & Hrr).
  { eexists. split; [reflexivity|]. cbn. rewrite load_target_class. done. }
  assert (Shared.result_tableName classes rel = tableName (classes c)) as Htbl
    by apply prepared_table.
  rewrite (load_one this name (AccHasMany T fk) T o options q None
             (Shared.set_models kids rel)); try done.
  2: { intros P opts Hw.
       change (fetch classes db P rel opts
               = Sent (Select q None) [] (Ok (Shared.set_models kids rel))).
       rewrite (fetch_leaf classes db P rel r (load_data this) opts c); try done;
         [|by rewrite Hrt].
       by rewrite Hrf, Hrp, Hrc, Htbl. }
  f_equal. cbn [matchResponses]. unfold Shared.relation_of.
  cbn [Shared.set_models _relation]. rewrite Hr. cbn [mbind Result_bind].
  destruct (Shared.is_collection this).
  - rewrite (match_models_many name _ r (CollectionCtor c)); [|done|done|by left].
    rewrite Hrt, Hrf. by rewrite bool_decide_true by done.
  - rewrite Hrt. cbn [bool_decide decide_rel orb].
    change (bool_decide (HasMany = HasOne) || bool_decide (HasMany = BelongsTo)) with false.
    cbv iota. unfold construct_collection. rewrite Hrcc. reflexivity.
Qed.


(** X12.  A belongsToMany relation is loaded with one query: it joins the
    join table, admits [joinTable.otherKey IN (...)] with the parents' rows
    read at the id attribute of the target type, and selects the two keys
    of the join table under [_pivot_] aliases.  Each member of a parent
    collection then holds the collection constructed from the fetched
    entities whose [_pivot_<otherKey>] equals its id, in fetch order; a
    single parent entity, the one constructed from all of them. *)
Theorem belongsToMany_is_loaded_through_the_join_table
    (this : Instance) name acc T o options :
  split "." name = [name] ->
  methods (classes (Shared.class_of (ctor this))) !! name = Some acc ->
  accessor_options classes singularize (load_target this) acc = Some (T, o) ->
  type o = BelongsToMany ->
  let c := Shared.class_of T in
  let table := tableName (classes c) in
  let joinTable := key (joinTableName o) in
  let q := mkQuery table
             [ CJoin joinTable (table +:+ "." +:+ idAttribute (classes c)) "="
                 (joinTable +:+ "." +:+ foreignKey o);
               CWhereIn (joinTable +:+ "." +:+ key (otherKey o))
                 (pluck (load_data this) (idAttribute (classes c))) ] in
  let cols := [ table +:+ ".*";
                joinTable +:+ "." +:+ key (otherKey o) +:+ " as _pivot_" +:+ key (otherKey o);
                joinTable +:+ "." +:+ foreignKey o +:+ " as _pivot_" +:+ foreignKey o ] in
  let kids := children classes c (db q (Some cols)) in
  load classes singularize db reset reserved this (RelArray [name]) options
  = ([Select q (Some cols)],
     Ok (if Shared.is_collection this then
           Shared.set_models
             (map (fun m =>
                     set_relation name
                       (RCollection (CollectionCtor c)
                          (reset (CollectionCtor c)
                             (List.filter
                                (fun child =>
                                   bool_decide (Shared.model_id classes m
                                                = get child ("_pivot_" +:+ key (otherKey o))))
                                kids)))
                       m) (models this)) this
         else
           Shared.set_relations
             (<[name := RCollection (CollectionCtor c) (reset (CollectionCtor c) kids)]>
                (inst_relations this)) this)).
Proof.
  intros Hs Hm Ho Hty c table joinTable q cols kids.
  destruct acc as [? ?|? ?|? ?|T' jt fk ok|]; cbn in Ho; try discriminate;
    injection Ho as -> <-; cbn in Hty; try discriminate.
  set (this' := mk this (load_target this) (load_data this)).
  set (o := ModelProto.relation_options BelongsToMany _ _ _) in *.
  set (rel := prepared classes this' T o).
  assert (∃ r, _relation rel = Some r ∧ type r = BelongsToMany ∧ foreignKey r = foreignKey o
               ∧ otherKey r = otherKey o ∧ joinTableName r = joinTableName o
               ∧ columns r = None ∧ pivotColumns r = None
               ∧ modelCtor r = Some (ModelCtor c)
               ∧ collectionCtor r = Some (CollectionCtor c)
               ∧ relation_parentResponse r = Some (load_data this))
    as (r & Hr & Hrt & Hrf & Hro & Hrj & Hrc & Hrpc & Hrm & Hrcc & Hrr).
  { eexists. split; [reflexivity|]. cbn. done. }
  assert (Shared.result_tableName classes rel = table) as Htbl by apply prepared_table.
  assert (Shared.result_idAttribute classes rel = idAttribute (classes c)) as Hid by reflexivity.
  assert (_builder rel = None) as Hb by reflexivity.
  pose (rel' := Shared.set_relation_hash (Constraints.set_columns cols r) rel).
  rewrite (load_one this name (AccBelongsToMany T jt fk ok) T o options q (Some cols)
             (Shared.set_models kids rel')); try done.
  2: { intros P opts Hw.
       change (fetch classes db P rel opts
               = Sent (Select q (Some cols)) [] (Ok (Shared.set_models kids rel'))).
       rewrite (fetch_pivot classes db P rel r (load_data this) opts Hr Hrt Hrr Hb Hrc).
       rewrite Htbl, Hid, Hrf, Hro, Hrj, Hrpc, Hrm, Hw, construct_all_model.
       cbn [default from_option id app withRelated_truthy].
       fold c table joinTable. fold q.
       assert ([ table +:+ ".*";
                 joinTable +:+ "." +:+ key (otherKey o) +:+ " as " +:+ "_pivot_" +:+ key (otherKey
                     o);
                 joinTable +:+ "." +:+ foreignKey o +:+ " as " +:+ "_pivot_" +:+ foreignKey o ]
               = cols) as -> by reflexivity.
       fold rel'. unfold kids, children.
       by destruct (db q (Some cols)). }
  f_equal. cbn [matchResponses]. unfold Shared.relation_of.
  cbn [Shared.set_models _relation rel' Shared.set_relation_hash]. cbn [mbind Result_bind].
  cbn [Constraints.set_columns type collectionCtor]. rewrite Hrt, Hrcc.
  destruct (Shared.is_collection this).
  - rewrite (match_models_many name _ _ (CollectionCtor c)); [|done|done|by right].
    cbn [Constraints.set_columns type otherKey foreignKey mbind Result_bind models
         Shared.set_models].
    rewrite Hrt, Hro. change (bool_decide (BelongsToMany = HasMany)) with false. done.
  - change (bool_decide (BelongsToMany = HasOne) || bool_decide (BelongsToMany = BelongsTo))
      with false.
    cbv iota. reflexivity.
Qed.

(** X13.  The columns named through [withPivot] are appended to the columns
    that the fetch of an eager load selects, after the columns of the
    target table and the two [_pivot_] keys: a name [c] as
    [joinTable.c as pivot_c], an entry [k: v] of a hash as
    [joinTable.k as v]. *)
Theorem withPivot_columns_are_selected_by_an_eager_fetch
    P (rel : Instance) (r : Relation) resp options pc :
  _relation rel = Some r -> type r = BelongsToMany ->
  relation_parentResponse r = Some resp -> _builder rel = None -> columns r = None ->
  let table := Shared.result_tableName classes rel in
  let joinTable := key (joinTableName r) in
  ∃ rel' q nested settled,
    WithPivot.withPivot rel pc = Ok rel'
    ∧ fetch classes db P rel' options
      = Sent (Select q
                (Some ([ table +:+ ".*";
                         joinTable +:+ "." +:+ key (otherKey r) +:+ " as _pivot_" +:+ key
                             (otherKey r);
                         joinTable +:+ "." +:+ foreignKey r +:+ " as _pivot_" +:+ foreignKey r ]
                       ++ default [] (pivotColumns r)
                       ++ concat (map (WithPivot.pushed joinTable) (WithPivot.to_array pc)))))
             nested settled.
Proof.
  intros Hr Hty Hpr Hb Hcs table joinTable.
  unfold WithPivot.withPivot, Shared.relation_of. rewrite Hr. cbn [mbind Result_bind].
  eexists. 
  match goal with
  | |- ∃ _ _ _, Ok ?i = _ ∧ _ =>
      pose proof (fetch_pivot classes db P i
                    (WithPivot.set_pivotColumns
                       (default [] (pivotColumns r)
                        ++ concat (map (WithPivot.pushed joinTable) (WithPivot.to_array pc))) r)
                    resp options eq_refl Hty Hpr Hb Hcs) as Hf
  end.
  cbv zeta in Hf.
  cbn [WithPivot.set_pivotColumns pivotColumns otherKey foreignKey joinTableName modelCtor
       default from_option id] in Hf.
  fold joinTable in Hf.
  repeat match type of Hf with
         | context [if ?b then _ else _] => destruct b
         | context [match ?x with Ok _ => _ | Fail _ => _ end] => destruct x
         | context [let '(_, _) := ?x in _] => destruct x
         end; eexists _, _, _; (split; [reflexivity|]); exact Hf.
Qed.

End ManyRelations.

(** ** Paths below a relation *)

Section Nested.
Variable classes : string -> ModelClass.
Variable singularize : string -> string.
Variable db : Query -> option (list string) -> list Row.
Variable reset : Ctor -> list Model -> list Model.
Variable reserved : string -> bool.

Import EagerRelation.

(** Matching onto a parent that is not a collection writes its
    [relations] and nothing else. *)
Lemma matchResponses_model_parent (parent : Instance) handled p' :
  Shared.is_collection parent = false ->
  matchResponses classes reset parent handled = Ok p' ->
  models p' = models parent ∧ _relation p' = _relation parent.
Proof.
  revert parent. induction handled as [|[name rel] handled IH]; intros parent Hc; simpl.
  { by intros [= <-]. }
  unfold Shared.relation_of. destruct (_relation rel) as [r|]; simpl; [|done].
  rewrite Hc.
  destruct (bool_decide (type r = HasOne) || bool_decide (type r = BelongsTo)).
  - destruct (match models rel with [] => _ | _ => _ end) as [result|]; simpl; [|done].
    intros H. by apply IH in H.
  - destruct (construct_collection _ _ _) as [result|]; simpl; [|done].
    intros H. by apply IH in H.
Qed.

Lemma processRelated_model_parent fuel this options p' :
  Shared.is_collection (parent this) = false ->
  snd (processRelated classes singularize db reset reserved fuel this options) = Ok p' ->
  models p' = models (parent this) ∧ _relation p' = _relation (parent this).
Proof.
  intros Hc. destruct fuel as [|fuel]; [done|]. rewrite processRelated_S.
  destruct (match withRelated options with Some _ => _ | None => _ end)
    as [[handled sub]|]; [|done].
  cbn [snd]. destruct (thrown _); [done|].
  destruct (settled_all _) as [hs|]; simpl; [|done].
  by apply matchResponses_model_parent.
Qed.

Lemma findWhere_elem eager attrs (m : Model) :
  findWhere eager attrs = Some m -> m ∈ eager.
Proof.
  unfold findWhere. destruct (bool_decide _); [done|].
  intros H. apply List.find_some in H as [H _]. by apply list_elem_of_In.
Qed.

(** Loading a single path: when the load settles, the one fetch settled
    with a relation target, which was then matched. *)
Lemma load_path_settled (this : Instance) path acc T o options loaded :
  let a := first_segment path in
  methods (classes (Shared.class_of (ctor this))) !! a = Some acc ->
  accessor_options classes singularize (load_target this) acc = Some (T, o) ->
  snd (load classes singularize db reset reserved this (RelArray [path]) options) = Ok loaded ->
  ∃ q nested settled,
    fetch classes db (processRelated classes singularize db reset reserved (depth [path]))
      (prepared classes (mk this (load_target this) (load_data this)) T o)
      (mkOptions (options ≫= transacting) (WRArray <$> record_suffix path ∅ !! a) false false)
    = Sent q nested (Ok settled)
    ∧ matchResponses classes reset this [(a, settled)] = Ok loaded.
Proof.
  intros a Hm Ho. rewrite load_S. cbn [relations_array].
  rewrite (relate_new classes singularize reserved _ _ _ _ _ acc T o); fold (first_segment path);
      fold a;
    cbn [target]; rewrite ?load_target_class; try done.
  cbn [relate fetch_all app id].
  destruct (fetch _ _ _ _ _) as [e|q nested [settled|e]]; cbn; try done.
  intros H. by exists q, nested, settled.
Qed.

Lemma record_suffix_path a s :
  split "." a = [a] ->
  first_segment (a +:+ "." +:+ s) = a
  ∧ record_suffix (a +:+ "." +:+ s) ∅ !! a = Some [join "." (split "." s)].
Proof.
  intros Ha. unfold first_segment, record_suffix. rewrite split_segment by done.
  pose proof (split_nonempty s). destruct (split "." s) as [|h t] eqn:E; [done|].
  cbn [head default from_option id length tail Nat.ltb Nat.leb].
  by rewrite lookup_insert_eq, lookup_empty.
Qed.


(** X14.  Relations requested below a hasOne or belongsTo relation do not
    reach the entities.  Whenever the load of a path [a.s] succeeds, what
    each parent holds under [a] is [undefined] or an entity without any
    relation: the nested results were stored on the relation target, which
    is not the entity the parent receives. *)
Theorem nested_load_under_a_single_relation_is_lost
    (this : Instance) a s acc ca o options loaded :
  split "." a = [a] ->
  methods (classes (Shared.class_of (ctor this))) !! a = Some acc ->
  accessor_options classes singularize (load_target this) acc = Some (ModelCtor ca, o) ->
  type o = HasOne ∨ type o = BelongsTo ->
  snd (load classes singularize db reset reserved this (RelArray [a +:+ "." +:+ s]) options) = Ok
      loaded ->
  if Shared.is_collection this then
    ∀ m, m ∈ models loaded ->
         match related m a with
         | RModel child => relations child = ∅
         | RUndefined => True
         | RCollection _ _ => False
         end
  else
    ∃ child, inst_relations loaded !! a = Some (RModel child) ∧ relations child = ∅.
Proof.
  intros Ha Hm Ho Hty Hload.
  destruct (record_suffix_path a s Ha) as [Hfirst Hsub].
  destruct (load_path_settled this (a +:+ "." +:+ s) acc (ModelCtor ca) o options loaded)
    as (q & nested & settled & Hf & Hmatch); rewrite ?Hfirst; try done.
  rewrite Hfirst, Hsub in Hf. cbn [fmap option_fmap option_map] in Hf.
  rewrite Hfirst in Hmatch.
  assert (type o ≠ BelongsToMany) as Hty' by (destruct Hty as [-> | ->]; done).
  assert (ModelProto.multi (type o) = false) as Hmulti by (destruct Hty as [-> | ->]; done).
  set (this' := mk this (load_target this) (load_data this)) in *.
  set (rel := prepared classes this' (ModelCtor ca) o) in *.
  assert (∃ r, _relation rel = Some r ∧ type r = type o ∧ foreignKey r = foreignKey o
               ∧ otherKey r = otherKey o
               ∧ modelCtor r = Some (ModelCtor ca)
               ∧ relation_parentResponse r = Some (load_data this))
    as (r & Hr & Hrt & Hrf & Hro & Hrm & Hrr).
  { eexists. split; [reflexivity|]. simpl. by rewrite Hmulti. }
  assert (Shared.is_collection rel = false) as Hrel
    by (unfold Shared.is_collection, rel, prepared; cbn; by rewrite Hmulti).
  (* the entities the fetch left on the relation target have no relations *)
  assert (_relation settled = Some r ∧ Forall (fun k => relations k = ∅) (models settled))
    as [Hsr Hkids].
  { rewrite (fetch_simple classes db _ rel r (load_data this)) in Hf; rewrite ?Hrt; try done.
    rewrite Hrm, construct_all_model in Hf. cbn [withRelated withRelated_truthy construct] in Hf.
    destruct (0 <? length _).
    - match type of Hf with
      | context [processRelated _ _ _ _ _ ?f ?t ?op] =>
          pose proof (processRelated_model_parent f t op) as Hkeep;
          destruct (processRelated classes singularize db reset reserved f t op) as [n st]
      end.
      injection Hf as _ _ ->. destruct (Hkeep settled Hrel eq_refl) as [-> ->].
      split; [done|]. cbn [models Shared.set_models parent]. apply Forall_fmap.
      by apply Forall_true.
    - injection Hf as _ _ <-. split; [done|]. constructor. }
  cbn [matchResponses] in Hmatch. unfold Shared.relation_of in Hmatch.
  rewrite Hsr in Hmatch. cbn [mbind Result_bind] in Hmatch.
  destruct (Shared.is_collection this).
  - rewrite match_models_single in Hmatch; [|done|by rewrite Hrt].
    cbn [mbind Result_bind] in Hmatch. injection Hmatch as <-.
    cbn [models Shared.set_models]. intros m Hin.
    apply list_elem_of_fmap in Hin as (m0 & -> & _).
    unfold related, set_relation. cbn [relations]. rewrite lookup_insert_eq.
    cbn [default from_option id].
    destruct (findWhere _ _) as [child|] eqn:Hfind; cbn [from_option]; [|done].
    apply findWhere_elem in Hfind. by apply (proj1 (Forall_forall _ _) Hkids).
  - rewrite Hrt in Hmatch.
    replace (bool_decide (type o = HasOne) || bool_decide (type o = BelongsTo))
      with true in Hmatch by (destruct Hty as [-> | ->]; done).
    destruct (models settled) as [|child kids] eqn:Hms.
    + rewrite Hrm in Hmatch. cbn in Hmatch. injection Hmatch as <-.
      exists (mkModel ca ∅ ∅). split; [|done]. cbn. apply lookup_insert_eq.
    + cbn in Hmatch. injection Hmatch as <-.
      exists child. split; [cbn; apply lookup_insert_eq|].
      by inversion Hkids.
Qed.


Lemma join_split s : join "." (split "." s) = s.
Proof.
  induction s as [|ch s IH]; [done|]. cbn [split].
  destruct (Ascii.eqb ch ".") eqn:Hch.
  - apply Ascii.eqb_eq in Hch as ->.
    pose proof (split_nonempty s). destruct (split "." s) as [|h t] eqn:E; [done|].
    change (join "." ("" :: h :: t)) with ("" +:+ "." +:+ join "." (h :: t)).
    by rewrite IH.
  - pose proof (split_nonempty s). destruct (split "." s) as [|h t] eqn:E; [done|].
    destruct t as [|h' t].
    + cbn in *. by rewrite IH.
    + change (join "." (String ch h :: h' :: t))
        with (String ch (h +:+ "." +:+ join "." (h' :: t))).
      change (join "." (h :: h' :: t)) with (h +:+ "." +:+ join "." (h' :: t)) in IH.
      by rewrite IH.
Qed.


Lemma fetch_all_settled_names P handled sub tx hs :
  settled_all (fetch_all (fetch classes db P) handled sub tx) = Ok hs ->
  thrown (fetch_all (fetch classes db P) handled sub tx) = None ->
  hs.*1 = handled.*1.
Proof.
  revert hs. induction handled as [|[name rel] handled IH]; intros hs; cbn [fetch_all].
  { by intros [= <-]. }
  destruct (fetch classes db P rel _) as [e|q n [i|e]]; cbn; try done.
  destruct (settled_all _) as [hs'|]; cbn; [|done].
  intros [= <-] Ht. cbn. f_equal. by apply IH.
Qed.

(** *** What the parents receive, level by level *)

Lemma find_head_filter {A} (f : A -> bool) l : List.find f l = head (List.filter f l).
Proof. induction l as [|x l IH]; simpl; [done|]. by destruct (f x). Qed.

(** The inner loop of the matching gives every member of a parent
    collection what it is matched with. *)
Lemma match_models_matched name (rel : Instance) r T o ms :
  _relation rel = Some r -> carries r T o ->
  match_models classes reset name rel r ms
  = Ok (map (fun m => set_relation name (matched classes reset T o (models rel) m) m) ms).
Proof.
  intros Hr (Hty & Hfk & Hok & Hcc & _).
  induction ms as [|m ms IH]; simpl; [done|].
  rewrite IH. unfold eagerRelated, Shared.relation_of. rewrite Hr. cbn [mbind Result_bind].
  unfold matched, matching, match_key, match_column. rewrite Hty, Hfk, Hok.
  destruct (type o) eqn:Ht; cbn [ModelProto.multi bool_decide decide_rel orb];
    rewrite ?findWhere_singleton, ?where_singleton, ?find_head_filter.
  all: try (rewrite Hcc by done; unfold construct_collection; cbn).
  all: try done.
  all: by destruct (head _).
Qed.

(** One step of the matching: the parent receives the entities of the
    first relation, and the matching goes on with the rest. *)
Lemma matchResponses_cons (this : Instance) name (rel : Instance) r T o handled :
  _relation rel = Some r -> carries r T o ->
  matchResponses classes reset this ((name, rel) :: handled)
  = matchResponses classes reset (receive classes reset name T o (models rel) this) handled.
Proof.
  intros Hr Hcar. cbn [matchResponses]. unfold Shared.relation_of. rewrite Hr.
  cbn [mbind Result_bind]. unfold receive.
  destruct (Shared.is_collection this).
  - by rewrite (match_models_matched name rel r T o).
  - destruct Hcar as (Hty & Hfk & Hok & Hcc & Hmc). unfold assigned. rewrite Hty.
    destruct (type o) eqn:Ht; cbn [ModelProto.multi bool_decide decide_rel orb] in *.
    all: change (bool_decide (?x = ?x)) with true; cbn [orb].
    all: try (rewrite Hcc by done; unfold construct_collection; cbn; done).
    all: rewrite Hmc by done; by destruct (models rel).
Qed.

(** The relation prepared for a hasOne, hasMany or belongsTo accessor whose
    entities are built through a model constructor. *)
Lemma prepared_plain (this : t) acc T o c :
  accessor_options classes singularize (target this) acc = Some (T, o) ->
  type o ≠ BelongsToMany -> entity_class acc = Some c ->
  let rel := prepared classes this T o in
  ∃ r, _relation rel = Some r ∧ carries r T o ∧ columns r = None
    ∧ type r = type o ∧ foreignKey r = foreignKey o
    ∧ modelCtor r = Some (ModelCtor c) ∧ Shared.class_of T = c
    ∧ parentIdAttr r = Some (idAttribute (classes (m_class (target this))))
    ∧ relation_parentResponse r = Some (parentResponse this)
    ∧ Shared.is_collection rel = ModelProto.multi (type o).
Proof.
  intros Ho Hty Hc rel. eexists. split; [reflexivity|].
  destruct acc as [[] ?|[] ?|[] ?|? ? ? ?|]; cbn in Ho, Hc; try discriminate;
    injection Ho as <- <-; injection Hc as <-; cbn in Hty; try done;
    unfold carries; cbn; repeat split; done.
Qed.

(** The fetch of such a relation, with nothing requested below it. *)
Lemma fetch_plain P (this : t) acc T o c opts :
  accessor_options classes singularize (target this) acc = Some (T, o) ->
  type o ≠ BelongsToMany -> entity_class acc = Some c ->
  withRelated opts = None ->
  let q := mkQuery (tableName (classes c))
             [CWhereIn (foreignKey o)
                (pluck (parentResponse this) (idAttribute (classes (m_class (target this)))))] in
  fetch classes db P (prepared classes this T o) opts
  = Sent (Select q None) []
      (Ok (Shared.set_models (children classes c (db q None)) (prepared classes this T o))).
Proof.
  intros Ho Hty Hc Hw q.
  destruct (prepared_plain this acc T o c Ho Hty Hc)
    as (r & Hr & _ & Hcols & Hrt & Hrf & Hrm & Hcl & Hrp & Hrr & _).
  rewrite (fetch_leaf classes db P _ r (parentResponse this) opts c); try done;
    [|by rewrite Hrt].
  by rewrite prepared_table, Hcl, Hrf, Hrp, Hcols.
Qed.

Lemma matchResponses_fetched (this : Instance) (e : t) name acc T o c kids handled :
  accessor_options classes singularize (target e) acc = Some (T, o) ->
  type o ≠ BelongsToMany -> entity_class acc = Some c ->
  matchResponses classes reset this
    ((name, Shared.set_models kids (prepared classes e T o)) :: handled)
  = matchResponses classes reset (receive classes reset name T o kids this) handled.
Proof.
  intros Ho Hty Hc.
  destruct (prepared_plain e acc T o c Ho Hty Hc) as (r & Hr & Hcar & _).
  by rewrite (matchResponses_cons this name _ r T o).
Qed.

(** A level that asks for one relation, with nothing below it. *)
Lemma level_one n (this : t) opts b acc T o c :
  withRelated opts = Some (WRArray [b]) ->
  split "." b = [b] ->
  methods (classes (m_class (target this))) !! b = Some acc ->
  accessor_options classes singularize (target this) acc = Some (T, o) ->
  type o ≠ BelongsToMany -> entity_class acc = Some c ->
  let ids := pluck (parentResponse this) (idAttribute (classes (m_class (target this)))) in
  let q := mkQuery (tableName (classes c)) [CWhereIn (foreignKey o) ids] in
  processRelated classes singularize db reset reserved (S n) this opts
  = ([Select q None],
     Ok (receive classes reset b T o (children classes c (db q None)) (parent this))).
Proof.
  intros Hw Hb Hm Ho Hty Hc ids q.
  rewrite processRelated_S, Hw. cbn [items].
  rewrite (relate_new classes singularize reserved _ _ _ _ _ acc T o);
    rewrite ?Hb; cbn [head default from_option id]; try done.
  assert (record_suffix b ∅ = ∅) as -> by (unfold record_suffix; by rewrite Hb).
  cbn [relate fetch_all app]. rewrite lookup_empty. cbn [fmap option_fmap option_map].
  rewrite (fetch_plain _ this acc T o c) by done.
  cbn [sent nested_sent thrown settled_all mbind Result_bind app].
  by rewrite (matchResponses_fetched _ this b acc T o c).
Qed.

(** A level that asks for two relations, with nothing below them. *)
Lemma level_two n (this : t) opts b c acc_b acc_c Tb ob cb Tc oc cc :
  withRelated opts = Some (WRArray [b; c]) ->
  split "." b = [b] -> split "." c = [c] -> b ≠ c ->
  methods (classes (m_class (target this))) !! b = Some acc_b ->
  accessor_options classes singularize (target this) acc_b = Some (Tb, ob) ->
  type ob ≠ BelongsToMany -> entity_class acc_b = Some cb ->
  methods (classes (m_class (target this))) !! c = Some acc_c ->
  accessor_options classes singularize (target this) acc_c = Some (Tc, oc) ->
  type oc ≠ BelongsToMany -> entity_class acc_c = Some cc ->
  let ids := pluck (parentResponse this) (idAttribute (classes (m_class (target this)))) in
  let qb := mkQuery (tableName (classes cb)) [CWhereIn (foreignKey ob) ids] in
  let qc := mkQuery (tableName (classes cc)) [CWhereIn (foreignKey oc) ids] in
  processRelated classes singularize db reset reserved (S n) this opts
  = ([Select qb None; Select qc None],
     Ok (receive classes reset c Tc oc (children classes cc (db qc None))
           (receive classes reset b Tb ob (children classes cb (db qb None)) (parent this)))).
Proof.
  intros Hw Hb Hc Hbc Hmb Hob Htb Hcb Hmc Hoc Htc Hcc ids qb qc.
  rewrite processRelated_S, Hw. cbn [items].
  rewrite (relate_new classes singularize reserved _ _ _ _ _ acc_b Tb ob);
    rewrite ?Hb; cbn [head default from_option id]; try done.
  rewrite (relate_new classes singularize reserved _ _ _ _ _ acc_c Tc oc);
    rewrite ?Hc; cbn [head default from_option id app]; try done.
  2: { rewrite handled_lookup_singleton.
       destruct (String.eqb b c) eqn:E; [|done]. by apply String.eqb_eq in E. }
  assert (record_suffix c (record_suffix b ∅) = ∅) as ->
    by (unfold record_suffix; by rewrite Hb, Hc).
  cbn [relate fetch_all app]. rewrite !lookup_empty. cbn [fmap option_fmap option_map].
  rewrite (fetch_plain _ this acc_b Tb ob cb) by done.
  rewrite (fetch_plain _ this acc_c Tc oc cc) by done.
  cbn [sent nested_sent thrown settled_all mbind Result_bind app].
  rewrite (matchResponses_fetched _ this b acc_b Tb ob cb) by done.
  by rewrite (matchResponses_fetched _ this c acc_c Tc oc cc).
Qed.

Lemma receive_parts name T o kids (p : Instance) :
  _relation (receive classes reset name T o kids p) = _relation p
  ∧ Shared.is_collection (receive classes reset name T o kids p) = Shared.is_collection p
  ∧ models (receive classes reset name T o kids p)
    = if Shared.is_collection p
      then map (fun m => set_relation name (matched classes reset T o kids m) m) (models p)
      else models p.
Proof. unfold receive. by destruct (Shared.is_collection p) eqn:E. Qed.

(** Matching leaves the relation hash of the parent as it is. *)
Lemma matchResponses_relation (parent : Instance) handled p' :
  matchResponses classes reset parent handled = Ok p' ->
  _relation p' = _relation parent.
Proof.
  revert parent. induction handled as [|[name rel] handled IH]; intros parent; simpl.
  { by intros [= <-]. }
  unfold Shared.relation_of. destruct (_relation rel) as [r|]; simpl; [|done].
  destruct (Shared.is_collection parent).
  - destruct (match_models _ _ _ _ _ _) as [ms|]; simpl; [|done].
    intros H. by apply IH in H.
  - destruct (bool_decide (type r = HasOne) || bool_decide (type r = BelongsTo)).
    + destruct (match models rel with [] => _ | _ => _ end) as [result|]; simpl; [|done].
      intros H. by apply IH in H.
    + destruct (construct_collection _ _ _) as [result|]; simpl; [|done].
      intros H. by apply IH in H.
Qed.

Lemma processRelated_relation fuel this options p' :
  snd (processRelated classes singularize db reset reserved fuel this options) = Ok p' ->
  _relation p' = _relation (parent this).
Proof.
  destruct fuel as [|fuel]; [done|]. rewrite processRelated_S.
  destruct (match withRelated options with Some _ => _ | None => _ end)
    as [[handled sub]|]; [|done].
  cbn [snd]. destruct (thrown _); [done|].
  destruct (settled_all _) as [hs|]; simpl; [|done].
  apply matchResponses_relation.
Qed.

(** Loading paths that all lie below one relation: its query, then the
    resolver of the next level on the entities that were fetched, whose
    outcome is matched with the parent. *)
Lemma load_below (this : Instance) paths a acc Ta oa ca l options :
  let this' := mk this (load_target this) (load_data this) in
  relate classes singularize reserved this' paths [] ∅
  = Ok ([(a, prepared classes this' Ta oa)], {[ a := l ]}) ->
  accessor_options classes singularize (load_target this) acc = Some (Ta, oa) ->
  type oa ≠ BelongsToMany -> entity_class acc = Some ca ->
  let q := mkQuery (tableName (classes ca))
             [CWhereIn (foreignKey oa)
                (pluck (load_data this) (idAttribute (classes (Shared.class_of (ctor this)))))] in
  let rows := db q None in
  let kids := children classes ca rows in
  let next :=
    processRelated classes singularize db reset reserved (depth paths)
      (mk (Shared.set_models kids (prepared classes this' Ta oa)) (mkModel ca ∅ ∅) rows)
      (mkOptions (options ≫= transacting) (Some (WRArray l)) false false) in
  load classes singularize db reset reserved this (RelArray paths) options
  = match rows with
    | [] => ([Select q None], Ok (receive classes reset a Ta oa [] this))
    | _ => (Select q None :: fst next,
            settled ← snd next;
            Ok (receive classes reset a Ta oa (models settled) this))
    end.
Proof.
  intros this' Hrel Ho Hty Hc q rows kids next.
  destruct (prepared_plain this' acc Ta oa ca Ho Hty Hc)
    as (r & Hr & Hcar & Hcols & Hrt & Hrf & Hrm & Hcl & Hrp & Hrr & _).
  unfold this' in Hrp, Hrr. cbn [target parentResponse] in Hrp, Hrr.
  rewrite load_target_class in Hrp.
  rewrite load_S. cbn [relations_array]. cbv zeta. fold this'. rewrite Hrel.
  cbn [fetch_all]. rewrite lookup_singleton_eq. cbn [fmap option_fmap option_map].
  set (rel := prepared classes this' Ta oa) in *.
  assert (Shared.result_tableName classes rel = tableName (classes ca)) as Htbl
    by (unfold rel; by rewrite prepared_table, Hcl).
  destruct rows as [|row rows'] eqn:Hrows.
  - rewrite (fetch_simple classes db _ rel r (load_data this)); rewrite ?Hrt; try done.
    rewrite Hrf, Hrp, Hcols, Htbl. cbn [key default from_option id].
    fold q. unfold rows in Hrows. rewrite Hrows. cbn [length Nat.ltb Nat.leb].
    cbn [sent nested_sent thrown settled_all mbind Result_bind app].
    f_equal. rewrite (matchResponses_cons this a _ r Ta oa) by done. reflexivity.
  - rewrite (fetch_nested classes db _ rel r (load_data this) _ ca l); rewrite ?Hrt; try done;
      rewrite Hrf, Hrp, Hcols, Htbl; cbn [key default from_option id]; fold q;
      unfold rows in Hrows; rewrite Hrows; [|done].
    cbv zeta. cbn [sent nested_sent thrown settled_all app].
    unfold next, kids. rewrite app_nil_r.
    destruct (processRelated _ _ _ _ _ _ _ _) as [nested [settled|e]] eqn:Hnext;
      cbn [fst snd mbind Result_bind]; [|done].
    f_equal. rewrite (matchResponses_cons this a _ r Ta oa); try done.
    pose proof (processRelated_relation _ _ _ settled ltac:(by rewrite Hnext)) as Hsr.
    by rewrite Hsr.
Qed.

(** Loading one hasOne, hasMany or belongsTo relation, with nothing below
    it: one query, and the parent receives the entities built from its
    rows. *)
Lemma load_plain (this : Instance) a acc T o c options :
  split "." a = [a] ->
  methods (classes (Shared.class_of (ctor this))) !! a = Some acc ->
  accessor_options classes singularize (load_target this) acc = Some (T, o) ->
  type o ≠ BelongsToMany -> entity_class acc = Some c ->
  let q := mkQuery (tableName (classes c))
             [CWhereIn (foreignKey o)
                (pluck (load_data this) (idAttribute (classes (Shared.class_of (ctor this)))))] in
  load classes singularize db reset reserved this (RelArray [a]) options
  = ([Select q None], Ok (receive classes reset a T o (children classes c (db q None)) this)).
Proof.
  intros Ha Hm Ho Hty Hc q. unfold load. cbn [relations_array].
  rewrite (level_one _ _ _ a acc T o c); cbn [target parentResponse parent withRelated];
    rewrite ?load_target_class; done.
Qed.

Lemma depth_two a b c :
  split "." a = [a] -> split "." b = [b] -> split "." c = [c] ->
  depth [a +:+ "." +:+ b] = 2 ∧ depth [a +:+ "." +:+ b; a +:+ "." +:+ c] = 2.
Proof.
  intros Ha Hb Hc. unfold depth. cbn [map]. by rewrite !split_segment, Hb, Hc by done.
Qed.

Lemma relate_one_below (this : t) a b acc T o :
  split "." a = [a] -> split "." b = [b] ->
  methods (classes (m_class (target this))) !! a = Some acc ->
  accessor_options classes singularize (target this) acc = Some (T, o) ->
  relate classes singularize reserved this [a +:+ "." +:+ b] [] ∅
  = Ok ([(a, prepared classes this T o)], {[ a := [b] ]}).
Proof.
  intros Ha Hb Hm Ho.
  rewrite (relate_new classes singularize reserved _ _ _ _ _ acc T o);
    rewrite ?head_segment; try done.
  rewrite record_suffix_segment by done. cbn [relate app].
  by rewrite lookup_empty.
Qed.

(** X15.  Below a hasMany relation the nested results reach the children.
    Loading [a.b] sends the query of [a] and, when it returns rows, the
    query of [b] for the children that were fetched; every child then holds
    under [b] what it is matched with, and the parents receive the
    children so resolved. *)
Theorem nested_load_under_a_hasMany_relation_reaches_the_children
    (this : Instance) a b acc_a Ta oa acc_b Tb ob cb options :
  split "." a = [a] -> split "." b = [b] ->
  methods (classes (Shared.class_of (ctor this))) !! a = Some acc_a ->
  accessor_options classes singularize (load_target this) acc_a = Some (Ta, oa) ->
  type oa = HasMany ->
  let ca := Shared.class_of Ta in
  methods (classes ca) !! b = Some acc_b ->
  accessor_options classes singularize (mkModel ca ∅ ∅) acc_b = Some (Tb, ob) ->
  type ob ≠ BelongsToMany -> entity_class acc_b = Some cb ->
  let qa := mkQuery (tableName (classes ca))
              [CWhereIn (foreignKey oa)
                 (pluck (load_data this) (idAttribute (classes (Shared.class_of (ctor this)))))] in
  let rows := db qa None in
  let qb := mkQuery (tableName (classes cb))
              [CWhereIn (foreignKey ob) (pluck rows (idAttribute (classes ca)))] in
  let resolved child :=
    set_relation b (matched classes reset Tb ob (children classes cb (db qb None)) child)
      child in
  load classes singularize db reset reserved this (RelArray [a +:+ "." +:+ b]) options
  = (Select qa None :: match rows with [] => [] | _ => [Select qb None] end,
     Ok (receive classes reset a Ta oa (map resolved (children classes ca rows)) this)).
Proof.
  intros Ha Hb Hma Hoa Htya ca Hmb Hob Htyb Hcb qa rows qb resolved.
  assert (entity_class acc_a = Some ca) as Hca.
  { destruct acc_a; cbn in Hoa; try discriminate; injection Hoa as <- <-;
      cbn in Htya; try discriminate. reflexivity. }
  assert (type oa ≠ BelongsToMany) as Htya' by (by rewrite Htya).
  destruct (depth_two a b b Ha Hb Hb) as [Hd _].
  rewrite (load_below this _ a acc_a Ta oa ca [b]); try done.
  2: { apply (relate_one_below _ a b acc_a); cbn [target]; rewrite ?load_target_class; done. }
  rewrite Hd. fold qa rows.
  destruct rows as [|row rows'] eqn:Hrows; [done|].
  rewrite (level_one 1 _ _ b acc_b Tb ob cb); try done.
  cbn [fst snd mbind Result_bind parent parentResponse target m_class].
  fold qb. do 3 f_equal.
  destruct (receive_parts b Tb ob (children classes cb (db qb None))
              (Shared.set_models (children classes ca (row :: rows'))
                 (prepared classes (mk this (load_target this) (load_data this)) Ta oa)))
    as (_ & _ & ->).
  assert (Shared.is_collection
            (Shared.set_models (children classes ca (row :: rows'))
               (prepared classes (mk this (load_target this) (load_data this)) Ta oa)) = true)
    as ->; [|reflexivity].
  destruct (prepared_plain (mk this (load_target this) (load_data this)) acc_a Ta oa ca
              Hoa Htya' Hca) as (_ & _ & _ & _ & _ & _ & _ & _ & _ & _ & Hcoll).
  unfold Shared.is_collection in *. cbn [ctor Shared.set_models]. rewrite Hcoll.
  by rewrite Htya.
Qed.

(** C3.  At every level one relation is built, and one query sent, per
    distinct first segment, and every suffix is recorded under its name,
    whether or not the name was seen before.  So loading [a.b] and [a.c]
    sends one query for [a] and, when it returns rows, one for [b] and one
    for [c] over the children that were fetched.  When [a] is a hasMany
    relation every child holds under [b] and under [c] what it is matched
    with, and the parents receive the children so resolved.  When [a] is a
    hasOne or belongsTo relation the parents receive the children as they
    were fetched, without [b] and [c]: the load settles as the load of [a]
    alone does. *)
Theorem shared_name_is_fetched_once :
  (∀ (this : Instance) paths options handled sub,
     relate classes singularize reserved (mk this (load_target this) (load_data this)) paths [] ∅
     = Ok (handled, sub) ->
     NoDup handled.*1
     ∧ (∀ n, n ∈ handled.*1 ↔ n ∈ map first_segment paths)
     ∧ (∀ n, sub !! n = recorded (suffixes n paths))
     ∧ ∃ level nested,
         fst (load classes singularize db reset reserved this (RelArray paths) options)
         = level ++ nested
         ∧ Forall2 (fun (kv : string * Instance) i =>
                      ∃ q cols, i = Select q cols
                        ∧ q_table q = Shared.result_tableName classes kv.2)
                   handled level)
  ∧ (∀ (this : Instance) a b c acc_a Ta oa ca acc_b Tb ob cb acc_c Tc oc cc options,
       split "." a = [a] -> split "." b = [b] -> split "." c = [c] -> b ≠ c ->
       methods (classes (Shared.class_of (ctor this))) !! a = Some acc_a ->
       accessor_options classes singularize (load_target this) acc_a = Some (Ta, oa) ->
       type oa ≠ BelongsToMany -> entity_class acc_a = Some ca ->
       methods (classes ca) !! b = Some acc_b ->
       accessor_options classes singularize (mkModel ca ∅ ∅) acc_b = Some (Tb, ob) ->
       type ob ≠ BelongsToMany -> entity_class acc_b = Some cb ->
       methods (classes ca) !! c = Some acc_c ->
       accessor_options classes singularize (mkModel ca ∅ ∅) acc_c = Some (Tc, oc) ->
       type oc ≠ BelongsToMany -> entity_class acc_c = Some cc ->
       let qa := mkQuery (tableName (classes ca))
                   [CWhereIn (foreignKey oa)
                      (pluck (load_data this)
                         (idAttribute (classes (Shared.class_of (ctor this)))))] in
       let rows := db qa None in
       let ids := pluck rows (idAttribute (classes ca)) in
       let qb := mkQuery (tableName (classes cb)) [CWhereIn (foreignKey ob) ids] in
       let qc := mkQuery (tableName (classes cc)) [CWhereIn (foreignKey oc) ids] in
       let resolved child :=
         set_relation c (matched classes reset Tc oc (children classes cc (db qc None)) child)
           (set_relation b
              (matched classes reset Tb ob (children classes cb (db qb None)) child) child) in
       load classes singularize db reset reserved this
         (RelArray [a +:+ "." +:+ b; a +:+ "." +:+ c]) options
       = (Select qa None
            :: match rows with [] => [] | _ => [Select qb None; Select qc None] end,
          Ok (receive classes reset a Ta oa
                (if ModelProto.multi (type oa)
                 then map resolved (children classes ca rows)
                 else children classes ca rows)
                this))
       ∧ (ModelProto.multi (type oa) = false ->
          snd (load classes singularize db reset reserved this
                 (RelArray [a +:+ "." +:+ b; a +:+ "." +:+ c]) options)
          = snd (load classes singularize db reset reserved this (RelArray [a]) options))).
Proof.
  split; [intros this paths options handled sub; apply level_relations|].
  intros this a b c acc_a Ta oa ca acc_b Tb ob cb acc_c Tc oc cc options.
  intros Ha Hb Hc Hbc Hma Hoa Htya Hca Hmb Hob Htyb Hcb Hmc Hoc Htyc Hcc
    qa rows ids qb qc resolved.
  destruct (depth_two a b c Ha Hb Hc) as [_ Hd].
  assert (load classes singularize db reset reserved this
            (RelArray [a +:+ "." +:+ b; a +:+ "." +:+ c]) options
          = (Select qa None
               :: match rows with [] => [] | _ => [Select qb None; Select qc None] end,
             Ok (receive classes reset a Ta oa
                   (if ModelProto.multi (type oa)
                    then map resolved (children classes ca rows)
                    else children classes ca rows)
                   this))) as Hload; [|split; [exact Hload|]].
  2: { intros Hsingle. rewrite Hload, Hsingle.
       by rewrite (load_plain this a acc_a Ta oa ca). }
  rewrite (load_below this _ a acc_a Ta oa ca [b; c]); try done.
  2: { apply (relate_shared_name classes singularize reserved _ a b c acc_a); cbn [target];
       rewrite ?load_target_class; done. }
  rewrite Hd. fold qa rows.
  destruct rows as [|row rows'] eqn:Hrows.
  { by destruct (ModelProto.multi (type oa)). }
  rewrite (level_two 1 _ _ b c acc_b acc_c Tb ob cb Tc oc cc); try done.
  cbn [fst snd mbind Result_bind parent parentResponse target m_class].
  fold ids qb qc. do 3 f_equal.
  set (this' := mk this (load_target this) (load_data this)).
  set (kids := children classes ca (row :: rows')).
  set (P := Shared.set_models kids (prepared classes this' Ta oa)).
  destruct (prepared_plain this' acc_a Ta oa ca Hoa Htya Hca)
    as (_ & _ & _ & _ & _ & _ & _ & _ & _ & _ & Hcoll).
  assert (Shared.is_collection P = ModelProto.multi (type oa)) as HP by exact Hcoll.
  destruct (receive_parts c Tc oc (children classes cc (db qc None))
              (receive classes reset b Tb ob (children classes cb (db qb None)) P))
    as (_ & _ & ->).
  destruct (receive_parts b Tb ob (children classes cb (db qb None)) P) as (_ & -> & ->).
  rewrite HP. destruct (ModelProto.multi (type oa)); [|reflexivity].
  cbn [models Shared.set_models P]. rewrite map_map. apply map_ext. intros k.
  reflexivity.
Qed.


End Nested.

(** ** More on the pivot helpers; saving *)

Section MorePivot.
Import Pivot.
Implicit Types (pivot : Relation) (options : option Options).


(** X17.  Every query of [attach] and [detach] runs on the join table, and
    in a transaction exactly when the options name one. *)
Theorem pivot_queries_run_on_the_join_table_in_the_transaction pivot method ids options :
  Forall (fun i => q_table (issued_query i) = key (joinTableName pivot)
                   ∧ in_transaction (issued_query i)
                     = bool_decide (is_Some (options ≫= transacting)))
         (_handler pivot method ids options).
Proof.
  unfold _handler. destruct (is_void ids && String.eqb method "insert"); [constructor|].
  apply Forall_fmap, Forall_true. intros item. unfold handle_item.
  destruct (options ≫= transacting) as [t|], (String.eqb method "delete"); cbn; done.
Qed.

End MorePivot.

Section SaveProperties.
Variable classes : string -> ModelClass.
Variable hasTimestamps : string -> bool.
Variable defaults : string -> option Row.
Variable now : value.
Variable insertId : Issued -> value.

Lemma save_plain (this : Instance) c args :
  ctor this = ModelCtor c -> _relation this = None -> _builder this = None ->
  let attrs := match args with
               | Save.ArgsHash a _ => default ∅ a
               | Save.ArgsKey k v _ => {[ k := v ]}
               end in
  let options := match args with Save.ArgsHash _ o | Save.ArgsKey _ _ o => o end in
  let attrs := if hasTimestamps c then extend attrs (Save.timestamp classes now this)
               else attrs in
  let vals := match defaults c with
              | Some d => extend (extend (extend ∅ d) (inst_attributes this)) attrs
              | None => attrs
              end in
  let saved := extend (inst_attributes this) vals in
  let key := idAttribute (classes c) in
  let id := prop saved key in
  let table := tableName (classes c) in
  let q := if not_nullish id
           then Update (mkQuery table (transacting_calls options ++ [CWhereEq key id]))
                  (format (classes c) saved)
           else Insert (mkQuery table (transacting_calls options ++ [CIdAttribute key]))
                  (format (classes c) saved) in
  Save.save classes hasTimestamps defaults now insertId this args None
  = ([q], Ok (SyncSelect.set_attributes
                (if truthy (insertId q) then extend saved {[ key := insertId q ]} else saved)
                this)).
Proof.
  intros Hc Hr Hb. destruct this as [ct at_ rl ms rr b ph]. cbn in Hc, Hr, Hb. subst ct rr b.
  cbv zeta. unfold Save.save. cbn [ctor].
  set (attrs := match args with Save.ArgsHash a _ => default ∅ a | Save.ArgsKey k v _ => {[k :=
      v]} end).
  set (options := match args with Save.ArgsHash _ o | Save.ArgsKey _ _ o => o end).
  assert ((let '(attrs, options) :=
            match args with
            | Save.ArgsHash attrs options => (default ∅ attrs, default Sync.no_options options)
            | Save.ArgsKey key val options => ({[ key := val ]}, default Sync.no_options options)
            end in (attrs, options)) = (attrs, default Sync.no_options options)) as Hargs
    by (by destruct args).
  destruct args as [a o|k v o]; cbn [inst_attributes] in *; subst attrs options;
    set (attrs := if hasTimestamps c then _ else _);
    set (vals := match defaults c with Some _ => _ | None => _ end);
    unfold Sync.new, Save.isNew, Save.dispatch, Sync.insert, Sync.update, Sync.model_class,
      Shared.id_of, Shared.query, Shared.result_tableName, Shared.result_idAttribute,
      SyncSelect.set, transacting_calls;
    cbn -[extend attrs vals];
    rewrite !extend_empty;
    destruct (not_nullish (prop (extend at_ vals) (idAttribute (classes c)))) eqn:Hid;
    destruct o as [[[t|] ? [] ?]|]; cbn -[extend attrs vals]; rewrite ?extend_empty;
    unfold call, builder; cbn [q_table q_calls app];
    match goal with |- context [truthy ?x] => destruct (truthy x) end; reflexivity.
Qed.


Lemma extend_lookup (dst src : Row) k :
  extend dst src !! k = match src !! k with Some v => Some v | None => dst !! k end.
Proof. unfold extend. rewrite lookup_union. by destruct (src !! k), (dst !! k). Qed.


(** X19.  For an entity type with defaults and without timestamps, the row
    that [save] sends holds under every key the given attribute, else the
    attribute the model holds, else the default. *)
Theorem save_fills_in_the_defaults (this : Instance) c args d :
  ctor this = ModelCtor c -> _relation this = None -> _builder this = None ->
  hasTimestamps c = false -> defaults c = Some d ->
  let attrs := match args with
               | Save.ArgsHash a _ => default ∅ a
               | Save.ArgsKey k v _ => {[ k := v ]}
               end in
  ∃ q merged found,
    (Save.save classes hasTimestamps defaults now insertId this args None
     = ([Insert q (format (classes c) merged)], Ok found)
     ∨ Save.save classes hasTimestamps defaults now insertId this args None
       = ([Update q (format (classes c) merged)], Ok found))
    ∧ ∀ k, merged !! k
           = match attrs !! k with
             | Some v => Some v
             | None =>
                 match inst_attributes this !! k with
                 | Some v => Some v
                 | None => d !! k
                 end
             end.
Proof.
  intros Hc Hr Hb Hts Hd attrs.
  pose proof (save_plain this c args Hc Hr Hb) as Hsave. cbv zeta in Hsave.
  rewrite Hts, Hd in Hsave. fold attrs in Hsave. rewrite Hsave.
  destruct (not_nullish _); eexists _, _, _; (split; [first [by left | by right]|]);
    intros k; rewrite !extend_lookup, lookup_empty;
    by destruct (attrs !! k), (inst_attributes this !! k), (d !! k).
Qed.

Lemma timestamp_lookup (this : Instance) k :
  Save.timestamp classes now this !! k
  = if bool_decide (k = "updated_at") then Some now
    else if bool_decide (k = "created_at") && Save.isNew classes this then Some now
    else None.
Proof.
  unfold Save.timestamp.
  destruct (Save.isNew classes this); rewrite ?andb_true_r, ?andb_false_r.
  - rewrite lookup_insert. case_decide as Hc.
    + subst k. by rewrite bool_decide_false, bool_decide_true by done.
    + rewrite (bool_decide_false (k = "created_at")) by done.
      rewrite lookup_insert. case_decide as Hu.
      * subst k. by rewrite bool_decide_true.
      * by rewrite bool_decide_false, lookup_empty by done.
  - rewrite lookup_insert. case_decide as Hu.
    + subst k. by rewrite bool_decide_true.
    + by rewrite bool_decide_false, lookup_empty by done.
Qed.

(** X20.  On a timestamped model the row that [save] sends carries the
    current time as [updated_at], always, and as [created_at] exactly when
    the model had no identity before the call, also when the call supplies
    one.  Under every other key, and under [created_at] for a model that
    had an identity, it carries the given attribute, else the one held,
    else the default when the entity type has defaults. *)
Theorem save_stamps_the_model (this : Instance) c args :
  ctor this = ModelCtor c -> _relation this = None -> _builder this = None ->
  hasTimestamps c = true ->
  let attrs := match args with
               | Save.ArgsHash a _ => default ∅ a
               | Save.ArgsKey k v _ => {[ k := v ]}
               end in
  let new := negb (not_nullish (prop (inst_attributes this) (idAttribute (classes c)))) in
  ∃ q merged found,
    (Save.save classes hasTimestamps defaults now insertId this args None
     = ([Insert q (format (classes c) merged)], Ok found)
     ∨ Save.save classes hasTimestamps defaults now insertId this args None
       = ([Update q (format (classes c) merged)], Ok found))
    ∧ ∀ k, merged !! k
           = if bool_decide (k = "updated_at") then Some now
             else if bool_decide (k = "created_at") && new then Some now
             else match attrs !! k with
                  | Some v => Some v
                  | None =>
                      match inst_attributes this !! k with
                      | Some v => Some v
                      | None => defaults c ≫= (.!! k)
                      end
                  end.
Proof.
  intros Hc Hr Hb Hts attrs new.
  pose proof (save_plain this c args Hc Hr Hb) as Hsave. cbv zeta in Hsave.
  rewrite Hts in Hsave. fold attrs in Hsave. rewrite Hsave.
  assert (Save.isNew classes this = new) as Hnew
    by (unfold Save.isNew, Shared.id_of; by rewrite Hc).
  destruct (defaults c) as [d|]; cbn [mbind option_bind];
    (destruct (not_nullish (prop (extend _ _) _)); eexists _, _, _;
     (split; [first [by left | by right]|]);
     intros k; rewrite !extend_lookup, ?lookup_empty, timestamp_lookup, Hnew;
     destruct (bool_decide (k = "updated_at")); try done;
     destruct (bool_decide (k = "created_at") && new); try done;
     destruct (attrs !! k); try done; destruct (inst_attributes this !! k); try done).
  all: by destruct (d !! k).
Qed.

End SaveProperties.

(** ** Loads of nothing *)

Section LoadEdges.
Variable classes : string -> ModelClass.
Variable singularize : string -> string.
Variable db : Query -> option (list string) -> list Row.
Variable reset : Ctor -> list Model -> list Model.
Variable reserved : string -> bool.

Import EagerRelation.

(** X21.  [load] with no path ([undefined], [''], [[]]) sends nothing and
    settles with the object as it was.  [load] onto a collection without
    members still sends the query of the relation, with an empty [IN]
    list. *)
Theorem load_of_nothing_and_load_onto_nothing :
  (∀ (this : Instance) relations options,
     relations_array relations = [] ->
     load classes singularize db reset reserved this relations options = ([], Ok this))
  ∧ (∀ (this : Instance) c name acc T o options,
       ctor this = CollectionCtor c -> models this = [] ->
       split "." name = [name] ->
       methods (classes c) !! name = Some acc ->
       accessor_options classes singularize (mkModel c ∅ ∅) acc = Some (T, o) ->
       type o ≠ BelongsToMany ->
       fst (load classes singularize db reset reserved this (RelArray [name]) options)
       = [Select (mkQuery (tableName (classes (Shared.class_of T)))
                    [CWhereIn (foreignKey o) []]) (columns o)]).
Proof.
  split.
  - intros this relations options Hnone. rewrite load_S, Hnone. reflexivity.
  - intros this c name acc T o options Hc Hms Hs Hm Ho Hty.
    rewrite (load_one_relation classes singularize db reset reserved this name acc T o);
      rewrite ?Hc; try done.
    + unfold load_data. by rewrite Hc, Hms.
    + unfold load_target. by rewrite Hc.
Qed.

End LoadEdges.

(** ** What a load leaves untouched *)

Section Frame.
Variable classes : string -> ModelClass.
Variable singularize : string -> string.
Variable db : Query -> option (list string) -> list Row.
Variable reset : Ctor -> list Model -> list Model.
Variable reserved : string -> bool.

Import EagerRelation.

Lemma same_but_refl names m : same_but names m m.
Proof. by repeat split. Qed.

Lemma same_but_trans names names' m1 m2 m3 :
  (∀ n, n ∈ names -> n ∈ names') ->
  same_but names m1 m2 -> same_but names' m2 m3 -> same_but names' m1 m3.
Proof.
  intros Hsub (Hc & Ha & Hr) (Hc' & Ha' & Hr'). split; [congruence|]. split; [congruence|].
  intros n Hn. rewrite Hr' by done. apply Hr. intros Hin. by apply Hn, Hsub.
Qed.

Lemma match_models_frame name (rel : Instance) r ms ms' :
  match_models classes reset name rel r ms = Ok ms' ->
  Forall2 (same_but [name]) ms ms'.
Proof.
  revert ms'. induction ms as [|m ms IH]; intros ms'; simpl.
  { intros [= <-]. constructor. }
  destruct (eagerRelated _ _ _ _ _) as [result|]; simpl; [|done].
  destruct (match_models classes reset name rel r ms) as [ms1|]; simpl; [|done].
  intros [= <-]. constructor; [|by apply IH].
  destruct m as [c a rl]. split; [done|]. split; [done|].
  intros n Hn. cbn. apply lookup_insert_ne. intros ->. apply Hn, list_elem_of_here.
Qed.

(** Matching writes the parent's [relations], or those of its members,
    under the handled names, and nothing else. *)
Lemma matchResponses_frame (parent : Instance) handled p' :
  matchResponses classes reset parent handled = Ok p' ->
  ctor p' = ctor parent
  ∧ inst_attributes p' = inst_attributes parent
  ∧ (∀ n, n ∉ handled.*1 -> inst_relations p' !! n = inst_relations parent !! n)
  ∧ Forall2 (same_but handled.*1) (models parent) (models p').
Proof.
  revert parent. induction handled as [|[name rel] handled IH]; intros parent; simpl.
  { intros [= <-]. repeat split; try done. apply Forall2_same_length_lookup. split; [done|].
    intros i x y Hx Hy. rewrite Hx in Hy. injection Hy as <-. apply same_but_refl. }
  unfold Shared.relation_of. destruct (_relation rel) as [r|]; simpl; [|done].
  destruct (Shared.is_collection parent).
  - destruct (match_models classes reset name rel r (models parent)) as [ms|] eqn:Hms; simpl;
      [|done].
    intros H. apply IH in H as (H1 & H2 & H3 & H4). cbn in *.
    split; [done|]. split; [done|]. split.
    + intros n Hn. apply H3. intros Hin. apply Hn. by apply list_elem_of_further.
    + apply match_models_frame in Hms.
      eapply Forall2_trans; [|exact Hms|exact H4].
      intros x y z Hxy Hyz. cbn in *.
      apply (same_but_trans [name] (name :: handled.*1) x y z); [|done|].
      * intros n Hn. apply list_elem_of_singleton in Hn as ->. apply list_elem_of_here.
      * destruct Hyz as (? & ? & Hr). repeat split; try done.
        intros n Hn. apply Hr. intros Hin. apply Hn. by apply list_elem_of_further.
  - assert (∀ result,
              matchResponses classes reset
                (Shared.set_relations (<[name := result]> (inst_relations parent)) parent)
                handled = Ok p' ->
              ctor p' = ctor parent
              ∧ inst_attributes p' = inst_attributes parent
              ∧ (∀ n, n ∉ name :: handled.*1 -> inst_relations p' !! n = inst_relations parent !! n)
              ∧ Forall2 (same_but (name :: handled.*1)) (models parent) (models p')) as Hstep.
    { intros result H. apply IH in H as (H1 & H2 & H3 & H4). cbn in *.
      split; [done|]. split; [done|]. split.
      - intros n Hn. rewrite H3 by (intros Hin; apply Hn; by apply list_elem_of_further).
        apply lookup_insert_ne. intros ->. apply Hn, list_elem_of_here.
      - eapply Forall2_impl; [exact H4|]. intros x y (? & ? & Hr). repeat split; try done.
        intros n Hn. apply Hr. intros Hin. apply Hn. by apply list_elem_of_further. }
    destruct (bool_decide (type r = HasOne) || bool_decide (type r = BelongsTo)).
    + destruct (match models rel with [] => _ | _ => _ end) as [result|]; simpl; [|done].
      apply Hstep.
    + destruct (construct_collection _ _ _) as [result|]; simpl; [|done]. apply Hstep.
Qed.

(** X22.  A load that succeeds changes nothing but what the parent, or each
    member of a parent collection, holds in [relations] under the first
    segments of the requested paths: constructor, attributes, the other
    relations, and the number and order of the members stay. *)
Theorem load_writes_only_the_requested_relations (this : Instance) relations options loaded :
  snd (load classes singularize db reset reserved this relations options) = Ok loaded ->
  let names := map first_segment (relations_array relations) in
  ctor loaded = ctor this
  ∧ inst_attributes loaded = inst_attributes this
  ∧ (∀ n, n ∉ names -> inst_relations loaded !! n = inst_relations this !! n)
  ∧ Forall2 (same_but names) (models this) (models loaded).
Proof.
  rewrite load_S. cbv zeta.
  destruct (relate classes singularize reserved _ (relations_array relations) [] ∅)
    as [[handled sub]|] eqn:Hrel; [|done].
  destruct (relate_general _ _ _ _ _ _ _ _ _ Hrel NoDup_nil_2 (Forall_nil_2 _))
    as (_ & Hnames & _); [intros n; by rewrite lookup_empty|].
  cbn [snd]. destruct (thrown _) eqn:Ht; [done|].
  destruct (settled_all _) as [hs|] eqn:Hs; simpl; [|done].
  apply fetch_all_settled_names in Hs; [|done].
  intros H. apply matchResponses_frame in H as (H1 & H2 & H3 & H4).
  assert (∀ n, n ∈ hs.*1 -> n ∈ map first_segment (relations_array relations)) as Hsub.
  { intros n Hn. rewrite Hs in Hn. apply Hnames in Hn as [Hn|Hn]; [by apply elem_of_nil in
      Hn|done]. }
  split; [done|]. split; [done|]. split.
  - intros n Hn. apply H3. intros Hin. by apply Hn, Hsub.
  - eapply Forall2_impl; [exact H4|]. intros x y (? & ? & Hr). repeat split; try done.
    intros n Hn. apply Hr. intros Hin. by apply Hn, Hsub.
Qed.

End Frame.

(** ** Relations and their inverses *)

Section InverseRelations.
Variable classes : string -> ModelClass.
Variable singularize : string -> string.
Variable db : Query -> option (list string) -> list Row.
Variable reset : Ctor -> list Model -> list Model.
Variable reserved : string -> bool.

Import EagerRelation.

Lemma sort_join_sym a b : ModelProto.sort_join a b = ModelProto.sort_join b a.
Proof.
  unfold ModelProto.sort_join, String.ltb. rewrite (String.compare_antisym a b).
  destruct (String.compare b a) eqn:Hc; simpl; try done.
  apply String.compare_eq_iff in Hc. by subst.
Qed.

(** X24.  Relations declared from both sides with default keys agree.  The
    two belongsToMany relations between two entity types name the same
    join table, and each reads as its own key the column the other reads
    as the key of its target.  The key a belongsTo relation reads on its
    owner is the key by which the hasMany relation of the other side is
    fetched. *)
Theorem inverse_relations_agree_on_their_default_keys (a b : Model) eager :
  (∃ ta tb ra rb,
     ModelProto.belongsToMany classes singularize a eager (ModelCtor (m_class b)) None None None
     = Ok ta
     ∧ ModelProto.belongsToMany classes singularize b eager (ModelCtor (m_class a)) None None None
       = Ok tb
     ∧ _relation ta = Some ra ∧ _relation tb = Some rb
     ∧ joinTableName ra = joinTableName rb
     ∧ otherKey ra = Some (foreignKey rb)
     ∧ otherKey rb = Some (foreignKey ra))
  ∧ (∃ ta tb ra rb,
       ModelProto.hasMany classes singularize a eager (ModelCtor (m_class b)) None = Ok ta
       ∧ ModelProto.belongsTo classes singularize b eager (ModelCtor (m_class a)) None = Ok tb
       ∧ _relation ta = Some ra ∧ _relation tb = Some rb
       ∧ otherKey rb = Some (foreignKey ra)).
Proof.
  split.
  - unfold ModelProto.belongsToMany, ModelProto._relatesTo, ModelProto.relation_options,
      ModelProto.proto_tableName, ModelProto.this_tableName.
    destruct eager; cbn; eexists _, _, _, _;
      (split; [reflexivity|]); (split; [reflexivity|]);
      (split; [reflexivity|]); (split; [reflexivity|]); cbn;
      (split; [by rewrite sort_join_sym|done]).
  - unfold ModelProto.hasMany, ModelProto.belongsTo, ModelProto._relatesTo,
      ModelProto.relation_options, ModelProto.proto_tableName, ModelProto.this_tableName.
    destruct eager; cbn; eexists _, _, _, _;
      (split; [reflexivity|]); (split; [reflexivity|]);
      (split; [reflexivity|]); (split; [reflexivity|]); done.
Qed.

(** X23.  A belongsTo relation is loaded by the identity values of the
    parents, not by their foreign keys: the one query is
    [id IN (ids of the parents)] on the target's table.  With a store that
    honours the constraint, a member whose foreign key is not the id of
    some member receives [undefined], whatever the store holds. *)
Theorem belongsTo_is_batched_by_the_ids_of_the_parents
    (this : Instance) name acc ct o options :
  Shared.is_collection this = true ->
  split "." name = [name] ->
  methods (classes (Shared.class_of (ctor this))) !! name = Some acc ->
  accessor_options classes singularize (load_target this) acc = Some (ModelCtor ct, o) ->
  type o = BelongsTo ->
  let ids := pluck (load_data this) (idAttribute (classes (Shared.class_of (ctor this)))) in
  let q := mkQuery (tableName (classes ct)) [CWhereIn (idAttribute (classes ct)) ids] in
  (∀ row, row ∈ db q None -> prop (parse (classes ct) row) (idAttribute (classes ct)) ∈ ids) ->
  ∃ loaded,
    load classes singularize db reset reserved this (RelArray [name]) options = ([Select q None],
        Ok loaded)
    ∧ ∀ i m, models this !! i = Some m ->
        get m (key (otherKey o)) ∉ ids ->
        models loaded !! i = Some (set_relation name RUndefined m).
Proof.
  intros Hcoll Hs Hm Ho Hty ids q Hdb.
  assert (foreignKey o = idAttribute (classes ct) ∧ columns o = None) as [Hfk Hcols].
  { destruct acc; cbn in Ho; try discriminate; injection Ho as -> <-; cbn in Hty;
      try discriminate. done. }
  pose proof (load_one_relation classes singularize db reset reserved this name acc (ModelCtor ct)
      o options
                Hs Hm Ho ltac:(by rewrite Hty)) as Hfst.
  pose proof (load_single_relation classes singularize db reset reserved this name acc ct o options
                Hs Hm Ho (or_intror Hty)) as Hsnd.
  cbv zeta in Hsnd. rewrite Hcoll, Hfk, Hcols in Hsnd. rewrite Hfk, Hcols in Hfst.
  cbn [Shared.class_of] in Hfst. fold ids q in Hfst, Hsnd.
  eexists. split.
  { destruct (load classes singularize db reset reserved this (RelArray [name]) options) as [tr r].
    cbn in Hfst, Hsnd. rewrite Hfst, Hsnd. reflexivity. }
  intros i m Hi Hnot. cbn [models Shared.set_models].
  rewrite list_lookup_fmap, Hi. cbn. do 2 f_equal.
  rewrite findWhere_no_match; [done|].
  intros child Hin Heq. apply Hnot.
  unfold match_key in Heq. rewrite Hty in Heq. rewrite bool_decide_true in Heq by done.
  rewrite <- Heq. unfold children in Hin. rewrite skim_rows in Hin.
  apply list_elem_of_fmap in Hin as (row & -> & Hrow). by apply Hdb.
Qed.

End InverseRelations.

(** ** The further properties at the sample schema *)

(** [users.load('')] sends nothing; loading the posts of an empty
    collection of users sends [WHERE user_id IN ()]. *)
Lemma load_of_nothing_and_load_onto_nothing_witness :
  load Sample.classes Sample.singularize Sample.db Sample.reset Sample.reserved Sample.users
      (RelString "") None
  = ([], Ok Sample.users)
  ∧ fst (load Sample.classes Sample.singularize Sample.db Sample.reset Sample.reserved
           (mkInstance (CollectionCtor "User") ∅ ∅ [] None None false)
           (RelArray ["posts"]) None)
    = [Select (mkQuery "posts" [CWhereIn "user_id" []]) None].
Proof.
  destruct (load_of_nothing_and_load_onto_nothing Sample.classes Sample.singularize Sample.db
      Sample.reset Sample.reserved)
    as [Hnone Hempty].
  split.
  - apply Hnone. reflexivity.
  - apply (Hempty _ "User" "posts" (AccHasMany (ModelCtor "Post") None)
             (ModelCtor "Post") (ModelProto.relation_options HasMany "user_id" None None));
      try reflexivity. discriminate.
Defined.

(** Fetching the users with their posts inside the transaction [trx]. *)
Lemma fetch_transaction_covers_its_own_select_only_witness :
  ∃ q cols nested settled,
    SyncSelect.fetch Sample.classes Sample.singularize Sample.db Sample.reset Sample.reserved
        Sample.users
      (Some Sample.trx_options) SyncSelect.ColumnsAbsent
    = (Select q cols :: nested, settled)
    ∧ in_transaction q = true
    ∧ Forall (fun i => in_transaction (issued_query i) = false) nested.
Proof.
  apply (fetch_transaction_covers_its_own_select_only Sample.classes Sample.singularize Sample.db
      Sample.reset Sample.reserved Sample.users (Some Sample.trx_options)
           SyncSelect.ColumnsAbsent "trx").
  reflexivity.
Defined.

(** The store holds no tag: fetching tag 3 with [require] fails, and
    without it leaves the tag without its id. *)
Lemma fetch_without_a_row_witness :
  snd (SyncSelect.fetch Sample.classes Sample.singularize Sample.db Sample.reset Sample.reserved
      Sample.tag3
         (Some Sample.require_options) SyncSelect.ColumnsAbsent)
  = Fail EmptyResponse
  ∧ ∃ found,
      snd (SyncSelect.fetch Sample.classes Sample.singularize Sample.db Sample.reset Sample.reserved
             Sample.tag3 None SyncSelect.ColumnsAbsent) = Ok found
      ∧ inst_attributes found = ∅.
Proof.
  split.
  - apply (fetch_without_a_row Sample.classes Sample.singularize Sample.db Sample.reset
      Sample.reserved
             Sample.tag3 (Some Sample.require_options) SyncSelect.ColumnsAbsent eq_refl).
    reflexivity.
  - destruct (fetch_without_a_row Sample.classes Sample.singularize Sample.db Sample.reset
      Sample.reserved
                Sample.tag3 None SyncSelect.ColumnsAbsent eq_refl) as (_ & _ & Hclear).
    destruct (Hclear eq_refl) as (found & Hf & _ & _ & _ & Ha).
    exists found. split; [exact Hf|exact Ha].
Defined.

(** Fetching [ann] looks her up by id, name and age at once; her name,
    which the row lacks, is kept. *)
Lemma fetch_stores_the_first_row_witness :
  ∃ found,
    SyncSelect.fetch Sample.classes Sample.singularize Sample.db Sample.reset Sample.reserved
        Sample.ann
      None SyncSelect.ColumnsAbsent
    = ([Select (mkQuery "users"
                  [CWhereHash (Some (Sample.row [("id", VNum 1); ("name", VStr "ann");
                                                 ("age", VNum 30)]));
                   CLimit 1])
               (Some ["*"])], Ok found)
    ∧ inst_attributes found !! "id" = Some (VNum 1)
    ∧ inst_attributes found !! "name" = Some (VStr "ann").
Proof.
  destruct (fetch_stores_the_first_row Sample.classes Sample.singularize Sample.db Sample.reset
      Sample.reserved
              Sample.ann None SyncSelect.ColumnsAbsent
              (Sample.row [("id", VNum 1)]) [Sample.row [("id", VNum 2)]] eq_refl eq_refl)
    as (found & Hf & _ & _ & _ & Ha).
  exists found. split; [exact Hf|]. split; [exact (Ha "id")|exact (Ha "name")].
Defined.

(** [user1.fetch({withRelated: 'posts'})]: no method of a user is named
    [p]. *)
Lemma fetch_with_a_string_for_withRelated_witness :
  SyncSelect.fetch Sample.classes Sample.singularize Sample.db Sample.reset Sample.reserved
      Sample.user1
    (Some Sample.string_options) SyncSelect.ColumnsAbsent
  = ([Select (mkQuery "users" [CWhereHash (Some (Sample.row [("id", VNum 1)])); CLimit 1])
             (Some ["*"])], Fail TypeError).
Proof.
  exact (fetch_with_a_string_for_withRelated Sample.classes Sample.singularize Sample.db
      Sample.reset Sample.reserved Sample.user1 Sample.string_options SyncSelect.ColumnsAbsent
           "p" "osts" (Sample.row [("id", VNum 1)]) [Sample.row [("id", VNum 2)]]
           eq_refl eq_refl eq_refl eq_refl).
Defined.

(** [zed] was never saved: fetching his posts selects every post. *)
Lemma relation_of_an_unsaved_owner_is_fetched_unconstrained_witness :
  ∃ target nested settled,
    ModelProto.invoke Sample.classes Sample.singularize Sample.reserved Sample.zed_model false
        "posts"
    = Ok (Some target)
    ∧ ctor target = CollectionCtor "Post"
    ∧ SyncSelect.fetch Sample.classes Sample.singularize Sample.db Sample.reset Sample.reserved
        target None
        SyncSelect.ColumnsAbsent
      = (Select (mkQuery "posts" []) (Some ["*"]) :: nested, settled).
Proof.
  destruct (relation_of_an_unsaved_owner_is_fetched_unconstrained Sample.classes
      Sample.singularize Sample.db Sample.reset Sample.reserved Sample.zed_model "posts"
              (AccHasMany (ModelCtor "Post") None) (ModelCtor "Post")
              (ModelProto.relation_options HasMany "user_id" None None) None
              SyncSelect.ColumnsAbsent eq_refl eq_refl eq_refl)
    as (target & nested & settled & Hi & Hc & Hf).
  exists target, nested, settled. split; [exact Hi|]. split; [exact Hc|].
  rewrite Hf, Hc. reflexivity.
Defined.

(** Destroying the profile of user 1 fails with a [TypeError]; destroying
    that of [zed] is refused.  Neither sends a query. *)
Lemma destroy_of_a_related_model_witness :
  (∃ target,
     ModelProto.invoke Sample.classes Sample.singularize Sample.reserved (Sample.user 1) false
         "profile"
     = Ok (Some target)
     ∧ SyncSelect.destroy Sample.classes target None = ([], Fail TypeError))
  ∧ (∃ target,
       ModelProto.invoke Sample.classes Sample.singularize Sample.reserved Sample.zed_model false
           "profile"
       = Ok (Some target)
       ∧ SyncSelect.destroy Sample.classes target None = ([], Fail DestroyWithoutConstraint)).
Proof.
  split.
  - destruct (destroy_of_a_related_model Sample.classes Sample.singularize Sample.reserved
      (Sample.user 1)
                "profile" (AccHasOne (ModelCtor "Profile") None) "Profile"
                (ModelProto.relation_options HasOne "user_id" None None) None
                eq_refl eq_refl (or_introl eq_refl)) as (target & Hi & Hsaved & _).
    exists target. split; [exact Hi|]. apply Hsaved. reflexivity.
  - destruct (destroy_of_a_related_model Sample.classes Sample.singularize Sample.reserved
      Sample.zed_model
                "profile" (AccHasOne (ModelCtor "Profile") None) "Profile"
                (ModelProto.relation_options HasOne "user_id" None None) None
                eq_refl eq_refl (or_introl eq_refl)) as (target & Hi & _ & Hunsaved).
    exists target. split; [exact Hi|]. apply Hunsaved. reflexivity.
Defined.

(** Fetching the roles of user 1 after [withPivot] selects [*]. *)
Lemma pivot_columns_do_not_reach_a_direct_fetch_witness :
  ∃ target target' nested settled,
    ModelProto.invoke Sample.classes Sample.singularize Sample.reserved (Sample.user 1) false
        "roles"
    = Ok (Some target)
    ∧ WithPivot.withPivot target Sample.more_columns = Ok target'
    ∧ SyncSelect.fetch Sample.classes Sample.singularize Sample.db Sample.reset Sample.reserved
        target' None
        SyncSelect.ColumnsAbsent
      = (Select
           (mkQuery "roles"
              [ CJoin "roles_users" "roles.id" "=" "roles_users.role_id";
                CWhere "roles_users.user_id" "=" (VNum 1) ])
           (Some ["*"]) :: nested, settled).
Proof.
  exact (pivot_columns_do_not_reach_a_direct_fetch Sample.classes Sample.singularize Sample.db
      Sample.reset Sample.reserved (Sample.user 1) "roles" (AccBelongsToMany (ModelCtor "Role")
      None None None)
           (ModelCtor "Role")
           (ModelProto.relation_options BelongsToMany "role_id" (Some "user_id")
              (Some "roles_users"))
           None SyncSelect.ColumnsAbsent Sample.more_columns
           eq_refl eq_refl eq_refl eq_refl).
Defined.

(** Loading [posts.comments] and [profile] onto the users leaves their
    attributes and their other relations as they were. *)
Lemma load_writes_only_the_requested_relations_witness :
  ∃ loaded u1 u2,
    snd (load Sample.classes Sample.singularize Sample.db Sample.reset Sample.reserved Sample.users
           (RelArray ["posts.comments"; "profile"]) None) = Ok loaded
    ∧ models loaded = [u1; u2]
    ∧ same_but ["posts"; "profile"] (Sample.user 1) u1
    ∧ same_but ["posts"; "profile"] (Sample.user 2) u2.
Proof.
  pose proof (load_writes_only_the_requested_relations Sample.classes Sample.singularize Sample.db
      Sample.reset Sample.reserved Sample.users (RelArray ["posts.comments"; "profile"]) None) as
      Hframe.
  destruct (snd (load Sample.classes Sample.singularize Sample.db Sample.reset Sample.reserved
      Sample.users
                   (RelArray ["posts.comments"; "profile"]) None)) as [loaded|e] eqn:Hload;
    vm_compute in Hload; [|discriminate].
  injection Hload as <-.
  eexists _, _, _. split; [reflexivity|]. split; [reflexivity|].
  destruct (Hframe _ eq_refl) as (_ & _ & _ & Hall).
  inversion Hall as [|? ? ? ? H1 Hall1]; subst.
  inversion Hall1 as [|? ? ? ? H2 _]; subst.
  split; [exact H1|exact H2].
Defined.

(** User 1 receives posts 10 and 11, user 2 none. *)
Lemma hasMany_members_receive_their_own_children_witness :
  load Sample.classes Sample.singularize Sample.db Sample.reset Sample.reserved Sample.users
      (RelArray ["posts"]) None
  = ([Select (mkQuery "posts" [CWhereIn "user_id" [VNum 1; VNum 2]]) None],
     Ok (Shared.set_models
           [ set_relation "posts"
               (RCollection (CollectionCtor "Post") [Sample.post 10 1; Sample.post 11 1])
               (Sample.user 1);
             set_relation "posts" (RCollection (CollectionCtor "Post") []) (Sample.user 2) ]
           Sample.users)).
Proof.
  rewrite (hasMany_members_receive_their_own_children Sample.classes Sample.singularize Sample.db
      Sample.reset Sample.reserved Sample.users "posts" (AccHasMany (ModelCtor "Post") None)
             (ModelCtor "Post") (ModelProto.relation_options HasMany "user_id" None None)
             None eq_refl eq_refl eq_refl eq_refl).
  vm_compute. reflexivity.
Defined.

(** Loading the roles of the users from a store that presents roles 5
    and 6 of user 1. *)
Lemma belongsToMany_is_loaded_through_the_join_table_witness :
  ∃ r5 r6,
    load Sample.classes Sample.singularize Sample.roles_db Sample.reset Sample.reserved
        Sample.users (RelArray ["roles"]) None
    = ([Select
          (mkQuery "roles"
             [ CJoin "roles_users" "roles.id" "=" "roles_users.role_id";
               CWhereIn "roles_users.user_id" [VNum 1; VNum 2] ])
          (Some [ "roles.*"; "roles_users.user_id as _pivot_user_id";
                  "roles_users.role_id as _pivot_role_id" ])],
       Ok (Shared.set_models
             [ set_relation "roles" (RCollection (CollectionCtor "Role") [r5; r6])
                 (Sample.user 1);
               set_relation "roles" (RCollection (CollectionCtor "Role") []) (Sample.user 2) ]
             Sample.users))
    ∧ get r5 "id" = VNum 5 ∧ get r6 "id" = VNum 6.
Proof.
  rewrite (belongsToMany_is_loaded_through_the_join_table Sample.classes Sample.singularize
      Sample.roles_db Sample.reset Sample.reserved Sample.users "roles"
             (AccBelongsToMany (ModelCtor "Role") None None None) (ModelCtor "Role")
             (ModelProto.relation_options BelongsToMany "role_id" (Some "user_id")
                (Some "roles_users"))
             None eq_refl eq_refl eq_refl eq_refl).
  eexists _, _. vm_compute. repeat split; reflexivity.
Defined.

(** Naming [created_at], and [level] as [rank], on the roles of the
    users. *)
Lemma withPivot_columns_are_selected_by_an_eager_fetch_witness :
  ∃ rel' q nested settled,
    WithPivot.withPivot Sample.eager_roles Sample.more_columns = Ok rel'
    ∧ fetch Sample.classes Sample.roles_db
        (processRelated Sample.classes Sample.singularize Sample.roles_db Sample.reset
            Sample.reserved 1)
        rel' Sync.no_options
      = Sent (Select q
                (Some [ "roles.*"; "roles_users.user_id as _pivot_user_id";
                        "roles_users.role_id as _pivot_role_id";
                        "roles_users.created_at as pivot_created_at";
                        "roles_users.level as rank" ]))
             nested settled.
Proof.
  exact (withPivot_columns_are_selected_by_an_eager_fetch Sample.classes Sample.roles_db
           (processRelated Sample.classes Sample.singularize Sample.roles_db Sample.reset
               Sample.reserved 1)
           Sample.eager_roles
           (mkRelation BelongsToMany "role_id" (Some "user_id") (Some "roles_users") None None
              VUndef (Some "id") (Some (ModelCtor "Role")) (Some (CollectionCtor "Role"))
              (Some [Sample.row [("id", VNum 1)]; Sample.row [("id", VNum 2)]]))
           [Sample.row [("id", VNum 1)]; Sample.row [("id", VNum 2)]]
           Sync.no_options Sample.more_columns eq_refl eq_refl eq_refl eq_refl eq_refl).
Defined.

(** Loading [author.posts] onto a post of user 1 sends both queries,
    and the author the post receives has no posts. *)
Lemma nested_load_under_a_single_relation_is_lost_witness :
  ∃ loaded m author,
    load Sample.classes Sample.singularize Sample.db Sample.reset Sample.reserved Sample.first_posts
      (RelArray ["author.posts"]) None
    = ([ Select (mkQuery "users" [CWhereIn "id" [VNum 1]]) None;
         Select (mkQuery "posts" [CWhereIn "user_id" [VNum 1]]) None ], Ok loaded)
    ∧ models loaded = [m]
    ∧ related m "author" = RModel author
    ∧ relations author = ∅.
Proof.
  pose proof (nested_load_under_a_single_relation_is_lost Sample.classes Sample.singularize
      Sample.db Sample.reset Sample.reserved Sample.first_posts "author" "posts"
                (AccBelongsTo (ModelCtor "User") None) "User"
                (ModelProto.relation_options BelongsTo "id" (Some "user_id") None) None)
    as Hlost.
  destruct (load Sample.classes Sample.singularize Sample.db Sample.reset Sample.reserved
      Sample.first_posts
              (RelArray ["author.posts"]) None) as [trace [loaded|e]] eqn:Hload;
    vm_compute in Hload; [|discriminate].
  injection Hload as <- <-.
  eexists _, _, _. split; [reflexivity|]. split; [reflexivity|]. split; [reflexivity|].
  specialize (Hlost _ eq_refl eq_refl eq_refl (or_intror eq_refl) eq_refl).
  apply (Hlost _ (list_elem_of_here _ _)).
Defined.

(** Loading [posts.comments] onto the users: user 1 receives post 10
    with its comment and post 11 with none. *)
Lemma nested_load_under_a_hasMany_relation_reaches_the_children_witness :
  ∃ loaded u1 u2,
    load Sample.classes Sample.singularize Sample.db Sample.reset Sample.reserved Sample.users
      (RelArray ["posts.comments"]) None
    = ([ Select (mkQuery "posts" [CWhereIn "user_id" [VNum 1; VNum 2]]) None;
         Select (mkQuery "comments" [CWhereIn "post_id" [VNum 10; VNum 11]]) None ],
       Ok loaded)
    ∧ models loaded = [u1; u2]
    ∧ related u1 "posts"
      = RCollection (CollectionCtor "Post")
          [ set_relation "comments"
              (RCollection (CollectionCtor "Comment") [Sample.comment100]) (Sample.post 10 1);
            set_relation "comments"
              (RCollection (CollectionCtor "Comment") []) (Sample.post 11 1) ]
    ∧ related u2 "posts" = RCollection (CollectionCtor "Post") [].
Proof.
  pose proof (nested_load_under_a_hasMany_relation_reaches_the_children Sample.classes
             Sample.singularize Sample.db Sample.reset Sample.reserved Sample.users
             "posts" "comments"
             (AccHasMany (ModelCtor "Post") None) (ModelCtor "Post")
             (ModelProto.relation_options HasMany "user_id" None None)
             (AccHasMany (ModelCtor "Comment") None) (ModelCtor "Comment")
             (ModelProto.relation_options HasMany "post_id" None None) "Comment" None
             eq_refl eq_refl eq_refl eq_refl eq_refl eq_refl eq_refl
             ltac:(discriminate) eq_refl) as Hload.
  eexists _, _, _. split; [etransitivity; [exact Hload|vm_compute; reflexivity]|].
  vm_compute. repeat split; reflexivity.
Defined.



(** [zed] is saved under his own name and with the default age. *)
Lemma save_fills_in_the_defaults_witness :
  ∃ q merged found,
    (Save.save Sample.classes Sample.hasTimestamps Sample.defaults Sample.now Sample.insertId
       Sample.zed (Save.ArgsHash None None) None
     = ([Insert q merged], Ok found)
     ∨ Save.save Sample.classes Sample.hasTimestamps Sample.defaults Sample.now Sample.insertId
         Sample.zed (Save.ArgsHash None None) None
       = ([Update q merged], Ok found))
    ∧ merged !! "name" = Some (VStr "zed")
    ∧ merged !! "age" = Some (VNum 18).
Proof.
  destruct (save_fills_in_the_defaults Sample.classes Sample.hasTimestamps Sample.defaults
              Sample.now Sample.insertId Sample.zed "User" (Save.ArgsHash None None)
              (Sample.row [("age", VNum 18); ("name", VStr "anonymous")])
              eq_refl eq_refl eq_refl eq_refl eq_refl) as (q & merged & found & Hs & Hm).
  exists q, merged, found. split; [exact Hs|].
  split; [exact (Hm "name")|exact (Hm "age")].
Defined.

(** A draft saved together with an id is stamped as created. *)
Lemma save_stamps_the_model_witness :
  ∃ q merged found,
    (Save.save Sample.classes Sample.hasTimestamps Sample.no_defaults Sample.now
       Sample.insertId Sample.draft (Save.ArgsKey "id" (VNum 5) None) None
     = ([Insert q merged], Ok found)
     ∨ Save.save Sample.classes Sample.hasTimestamps Sample.no_defaults Sample.now
         Sample.insertId Sample.draft (Save.ArgsKey "id" (VNum 5) None) None
       = ([Update q merged], Ok found))
    ∧ merged !! "updated_at" = Some Sample.now
    ∧ merged !! "created_at" = Some Sample.now
    ∧ merged !! "title" = Some (VStr "draft").
Proof.
  destruct (save_stamps_the_model Sample.classes Sample.hasTimestamps Sample.no_defaults
              Sample.now Sample.insertId Sample.draft "Post" (Save.ArgsKey "id" (VNum 5) None)
              eq_refl eq_refl eq_refl eq_refl)
    as (q & merged & found & Hs & Hm).
  exists q, merged, found. split; [exact Hs|].
  split; [exact (Hm "updated_at")|]. split; [exact (Hm "created_at")|exact (Hm "title")].
Defined.

(** The posts 10 and 11 belong to user 1, whom the store holds; loading
    their author asks for the users 10 and 11, and post 10 receives
    [undefined]. *)
Lemma belongsTo_is_batched_by_the_ids_of_the_parents_witness :
  ∃ loaded,
    load Sample.classes Sample.singularize Sample.db Sample.reset Sample.reserved Sample.posts
        (RelArray ["author"]) None
    = ([Select (mkQuery "users" [CWhereIn "id" [VNum 10; VNum 11]]) None], Ok loaded)
    ∧ models loaded !! 0 = Some (set_relation "author" RUndefined (Sample.post 10 1)).
Proof.
  destruct (belongsTo_is_batched_by_the_ids_of_the_parents Sample.classes Sample.singularize
      Sample.db Sample.reset Sample.reserved Sample.posts "author" (AccBelongsTo (ModelCtor
      "User") None) "User"
              (ModelProto.relation_options BelongsTo "id" (Some "user_id") None) None
              eq_refl eq_refl eq_refl eq_refl eq_refl) as (loaded & Hl & Hmembers).
  { intros row Hin. vm_compute in Hin. by apply elem_of_nil in Hin. }
  exists loaded. split; [exact Hl|].
  apply (Hmembers 0 (Sample.post 10 1) eq_refl).
  vm_compute. intros Hin.
  apply elem_of_cons in Hin as [Hin|Hin]; [discriminate|].
  apply list_elem_of_singleton in Hin. discriminate.
Defined.


(** Loading [posts.comments], [profile] and [posts.tags] onto the users
    builds two relations, with both suffixes under [posts].  Loading
    [posts.comments] and [posts.tags] sends one query for the posts, then
    one for the comments and one for the tags of the posts that were
    fetched, and user 1 receives both posts, each with its comments and its
    tags.  Loading [author.posts] and [author.profile] onto a post of
    user 1 sends three queries as well, but the author that the post
    receives holds neither posts nor a profile. *)
Lemma shared_name_is_fetched_once_witness :
  (∃ handled sub,
     relate Sample.classes Sample.singularize Sample.reserved
       (mk Sample.users (load_target Sample.users) (load_data Sample.users))
       ["posts.comments"; "profile"; "posts.tags"] [] ∅ = Ok (handled, sub)
     ∧ NoDup handled.*1
     ∧ (∀ n, n ∈ handled.*1 ↔ n ∈ ["posts"; "profile"; "posts"])
     ∧ sub !! "posts" = Some ["comments"; "tags"]
     ∧ sub !! "profile" = None)
  ∧ load Sample.classes Sample.singularize Sample.db Sample.reset Sample.reserved Sample.users
      (RelArray ["posts.comments"; "posts.tags"]) None
    = ([ Select (mkQuery "posts" [CWhereIn "user_id" [VNum 1; VNum 2]]) None;
         Select (mkQuery "comments" [CWhereIn "post_id" [VNum 10; VNum 11]]) None;
         Select (mkQuery "tags" [CWhereIn "post_id" [VNum 10; VNum 11]]) None ],
       Ok Sample.users_with_posts)
  ∧ load Sample.classes Sample.singularize Sample.db Sample.reset Sample.reserved
      Sample.first_posts (RelArray ["author.posts"; "author.profile"]) None
    = ([ Select (mkQuery "users" [CWhereIn "id" [VNum 1]]) None;
         Select (mkQuery "posts" [CWhereIn "user_id" [VNum 1]]) None;
         Select (mkQuery "profiles" [CWhereIn "user_id" [VNum 1]]) None ],
       Ok (Shared.set_models
             [set_relation "author" (RModel (Sample.user 1)) (Sample.post 1 1)]
             Sample.first_posts)).
Proof.
  destruct (shared_name_is_fetched_once Sample.classes Sample.singularize Sample.db
              Sample.reset Sample.reserved) as [Hlevel Hshared].
  split; [|split].
  - edestruct (Hlevel Sample.users ["posts.comments"; "profile"; "posts.tags"] None)
      as (Hnd & Hnames & Hsub & _); [vm_compute; reflexivity|].
    eexists _, _. split; [vm_compute; reflexivity|]. split; [exact Hnd|].
    split; [exact Hnames|]. split; apply Hsub.
  - destruct (Hshared Sample.users "posts" "comments" "tags"
                (AccHasMany (ModelCtor "Post") None) (ModelCtor "Post")
                (ModelProto.relation_options HasMany "user_id" None None) "Post"
                (AccHasMany (ModelCtor "Comment") None) (ModelCtor "Comment")
                (ModelProto.relation_options HasMany "post_id" None None) "Comment"
                (AccHasMany (ModelCtor "Tag") None) (ModelCtor "Tag")
                (ModelProto.relation_options HasMany "post_id" None None) "Tag" None
                eq_refl eq_refl eq_refl ltac:(discriminate) eq_refl eq_refl
                ltac:(discriminate) eq_refl eq_refl eq_refl ltac:(discriminate) eq_refl
                eq_refl eq_refl ltac:(discriminate) eq_refl) as [Hload _].
    etransitivity; [exact Hload|]. vm_compute. reflexivity.
  - destruct (Hshared Sample.first_posts "author" "posts" "profile"
                (AccBelongsTo (ModelCtor "User") None) (ModelCtor "User")
                (ModelProto.relation_options BelongsTo "id" (Some "user_id") None) "User"
                (AccHasMany (ModelCtor "Post") None) (ModelCtor "Post")
                (ModelProto.relation_options HasMany "user_id" None None) "Post"
                (AccHasOne (ModelCtor "Profile") None) (ModelCtor "Profile")
                (ModelProto.relation_options HasOne "user_id" None None) "Profile" None
                eq_refl eq_refl eq_refl ltac:(discriminate) eq_refl eq_refl
                ltac:(discriminate) eq_refl eq_refl eq_refl ltac:(discriminate) eq_refl
                eq_refl eq_refl ltac:(discriminate) eq_refl) as [Hload _].
    etransitivity; [exact Hload|]. vm_compute. reflexivity.
Defined.
